(** * change_ip.py: a dynamic-DNS reconciliation agent

    A shallow embedding of [change_ip.py] together with the properties of its
    validator, resolver, provider client, notifier and reconciliation loop.

    Python values that come out of [json.load] are modelled by [json];
    exceptions are values of [exn]; the effectful functions run in a
    state-and-exception monad whose state holds the loop variable [last_ip]
    and the trace of everything the process did to the outside world (HTTP
    requests and sleeps).  The outside world is an [environment]: it answers
    the n-th action of the process.

    A Python [str] is a sequence of Unicode code points ([str]).  The
    character classes are those of CPython 3.11, whose tables follow
    Unicode 14.0.  A dictionary that the program only reads by key is a
    finite map; a JSON object keeps its items in insertion order.  Logging
    output is not part of the model. *)

From Stdlib Require Import ZArith NArith List Lia Bool.
From Stdlib Require Import Strings.Byte.
From Stdlib Require Import Floats.SpecFloat.
From stdpp Require Import base gmap list.
Import ListNotations.
Set Warnings "-register-all".
Open Scope Z_scope.
Open Scope list_scope.

(* ================================================================== *)
(** ** Strings *)

(** A [str]: its code points, first to last. *)
Inductive str :=
  | EmptyStr
  | StrCons (c : N) (s : str).

(** String literals stand for ASCII text, one code point per byte. *)
Fixpoint str_of_bytes (bs : list Byte.byte) : option str :=
  match bs with
  | [] => Some EmptyStr
  | b :: rest =>
      if (Byte.to_N b <? 128)%N
      then option_map (StrCons (Byte.to_N b)) (str_of_bytes rest)
      else None
  end.

Fixpoint bytes_of_str (s : str) : option (list Byte.byte) :=
  match s with
  | EmptyStr => Some []
  | StrCons c rest =>
      match Byte.of_N c, bytes_of_str rest with
      | Some b, Some bs => if (c <? 128)%N then Some (b :: bs) else None
      | _, _ => None
      end
  end.

Declare Scope str_scope.
Delimit Scope str_scope with str.
Bind Scope str_scope with str.
String Notation str str_of_bytes bytes_of_str : str_scope.
Open Scope str_scope.

Fixpoint code_points (s : str) : list N :=
  match s with
  | "" => []
  | StrCons c rest => c :: code_points rest
  end.

Fixpoint of_code_points (cs : list N) : str :=
  match cs with
  | [] => ""
  | c :: rest => StrCons c (of_code_points rest)
  end.

(** [s + t] *)
Fixpoint str_app (s t : str) : str :=
  match s with
  | "" => t
  | StrCons c rest => StrCons c (str_app rest t)
  end.

Infix "+:+" := str_app (at level 60, right associativity) : str_scope.

(** [len(s)] *)
Fixpoint str_length (s : str) : nat :=
  match s with
  | "" => O
  | StrCons _ rest => S (str_length rest)
  end.

(** [s == t] *)
Fixpoint str_eqb (s t : str) : bool :=
  match s, t with
  | "", "" => true
  | StrCons c s', StrCons d t' => (c =? d)%N && str_eqb s' t'
  | _, _ => false
  end.

(** [ord(s)] for a literal of one character. *)
Definition ord (s : str) : N :=
  match s with
  | StrCons c _ => c
  | "" => 0%N
  end.

Definition dot : N := Eval cbv in ord ".".
Definition underscore : N := Eval cbv in ord "_".
Definition minus_sign : N := Eval cbv in ord "-".
Definition plus_sign : N := Eval cbv in ord "+".
Definition line_feed : N := 10%N.

Definition newline : str := StrCons line_feed "".

(* ------------------------------------------------------------------ *)
(** *** Character classes *)

(** The decimal digits (category Nd) come in runs: for each run its first
    code point and its length.  Every run starts with a zero and counts up,
    so the value of a digit is its offset in the run modulo ten. *)
Definition decimal_runs : list (N * N) :=
  [ (0x30, 10); (0x660, 10); (0x6f0, 10); (0x7c0, 10); (0x966, 10);
    (0x9e6, 10); (0xa66, 10); (0xae6, 10); (0xb66, 10); (0xbe6, 10);
    (0xc66, 10); (0xce6, 10); (0xd66, 10); (0xde6, 10); (0xe50, 10);
    (0xed0, 10); (0xf20, 10); (0x1040, 10); (0x1090, 10); (0x17e0, 10);
    (0x1810, 10); (0x1946, 10); (0x19d0, 10); (0x1a80, 10); (0x1a90, 10);
    (0x1b50, 10); (0x1bb0, 10); (0x1c40, 10); (0x1c50, 10); (0xa620, 10);
    (0xa8d0, 10); (0xa900, 10); (0xa9d0, 10); (0xa9f0, 10); (0xaa50, 10);
    (0xabf0, 10); (0xff10, 10); (0x104a0, 10); (0x10d30, 10); (0x11066, 10);
    (0x110f0, 10); (0x11136, 10); (0x111d0, 10); (0x112f0, 10);
    (0x11450, 10); (0x114d0, 10); (0x11650, 10); (0x116c0, 10);
    (0x11730, 10); (0x118e0, 10); (0x11950, 10); (0x11c50, 10);
    (0x11d50, 10); (0x11da0, 10); (0x16a60, 10); (0x16ac0, 10);
    (0x16b50, 10); (0x1d7ce, 50); (0x1e140, 10); (0x1e2f0, 10);
    (0x1e950, 10); (0x1fbf0, 10) ]%N.

Definition in_run (c : N) (run : N * N) : bool :=
  ((run.1 <=? c) && (c <? run.1 + run.2))%N.

(** [c.isdecimal()], which is also what [\d] matches and what [int] reads
    as a digit. *)
Definition is_digit (c : N) : bool := existsb (in_run c) decimal_runs.

(** No digit lies in a range of code points that every run of digits
    misses. *)
Definition misses_digits (lo hi : N) : bool :=
  forallb (fun run => (hi <? run.1) || (run.1 + run.2 <=? lo))%N decimal_runs.

(** The value of a digit. *)
Definition digit_value (c : N) : Z :=
  match List.find (in_run c) decimal_runs with
  | Some run => Z.of_N ((c - run.1) mod 10)
  | None => 0
  end.

Definition in_range (lo hi c : N) : bool := ((lo <=? c) && (c <=? hi))%N.

(** [c.isspace()]: what [str.strip] removes. *)
Definition is_space (c : N) : bool :=
  in_range 0x09 0x0d c || in_range 0x1c 0x20 c
  || (c =? 0x85)%N || (c =? 0xa0)%N || (c =? 0x1680)%N
  || in_range 0x2000 0x200a c
  || (c =? 0x2028)%N || (c =? 0x2029)%N || (c =? 0x202f)%N
  || (c =? 0x205f)%N || (c =? 0x3000)%N.

(** What [int] skips around a literal: the same, without the four
    separators U+001C..U+001F. *)
Definition is_int_space (c : N) : bool :=
  is_space c && negb (in_range 0x1c 0x1f c).

Fixpoint lstrip_by (space : N -> bool) (s : str) : str :=
  match s with
  | StrCons c s' => if space c then lstrip_by space s' else s
  | "" => ""
  end.

Fixpoint rstrip_by (space : N -> bool) (s : str) : str :=
  match s with
  | StrCons c s' =>
      match rstrip_by space s' with
      | "" => if space c then "" else StrCons c ""
      | r => StrCons c r
      end
  | "" => ""
  end.

Definition strip_by (space : N -> bool) (s : str) : str :=
  rstrip_by space (lstrip_by space s).

(** [s.strip()] *)
Definition strip (s : str) : str := strip_by is_space s.

(** [s.split(sep)] for a one-character separator. *)
Fixpoint split (sep : N) (s : str) : list str :=
  match s with
  | "" => [""]
  | StrCons c s' =>
      if (c =? sep)%N then "" :: split sep s'
      else match split sep s' with
           | p :: ps => StrCons c p :: ps
           | [] => [StrCons c ""]
           end
  end.

(** The characters whose upper-case form is ASCII text, with that form;
    [None] for every other character. *)
Definition ascii_upper (c : N) : option str :=
  if in_range 0x61 0x7a c then Some (StrCons (c - 32) "")
  else if (c <? 128)%N then Some (StrCons c "")
  else
    match c with
    | 0xdf => Some "SS"
    | 0x131 => Some "I"
    | 0x17f => Some "S"
    | 0xfb00 => Some "FF"
    | 0xfb01 => Some "FI"
    | 0xfb02 => Some "FL"
    | 0xfb03 => Some "FFI"
    | 0xfb04 => Some "FFL"
    | 0xfb05 => Some "ST"
    | 0xfb06 => Some "ST"
    | _ => None
    end%N.

(** [s.upper()] when that is ASCII text. *)
Fixpoint upper_ascii (s : str) : option str :=
  match s with
  | "" => Some ""
  | StrCons c rest =>
      match ascii_upper c, upper_ascii rest with
      | Some u, Some v => Some (u +:+ v)
      | _, _ => None
      end
  end.

(** [s.upper() == name] for an ASCII [name]. *)
Definition upper_is (s name : str) : bool :=
  match upper_ascii s with
  | Some u => str_eqb u name
  | None => false
  end.

(* ================================================================== *)
(** ** Python values *)

(** A JSON object is a dict: its items, in insertion order.  A dict holds
    a key once; a list that repeats a key stands for the JSON object with
    those members, which [json.load] reads as the dict where the key stays
    where it first came and takes the last value given. *)
Inductive json :=
  | JNull
  | JBool (b : bool)
  | JInt (n : Z)
  | JFloat (f : spec_float)
  | JStr (s : str)
  | JArr (items : list json)
  | JObj (items : list (str * json)).

(** The exception classes the program can meet.  All of them derive from
    [Exception], so [except Exception] catches every one. *)
Inductive exn :=
  | FileNotFoundError
  | ValueError
  | TypeError
  | KeyError (key : str)
  | AttributeError
  | OverflowError
  | ExternalError (detail : str)
      (* raised by a collaborator: urllib, the socket layer, a decoder *)
  | NoPublicIP (last_error : option exn)
      (* RuntimeError("Impossibile ottenere un indirizzo IP pubblico
         valido: {last_error}") *)
  | RecordNotFound.
      (* RuntimeError("Record DNS A non trovato su Cloudflare") *)

Inductive result (A : Type) :=
  | Ok (a : A)
  | Raise (e : exn).
Arguments Ok {A} a.
Arguments Raise {A} e.

Definition is_ok {A} (r : result A) : bool :=
  match r with Ok _ => true | Raise _ => false end.

(** [bool(v)] *)
Definition truthy (v : json) : bool :=
  match v with
  | JNull => false
  | JBool b => b
  | JInt n => negb (n =? 0)%Z
  | JFloat (S754_zero _) => false
  | JFloat _ => true
  | JStr s => match s with "" => false | _ => true end
  | JArr items => match items with [] => false | _ => true end
  | JObj items => match items with [] => false | _ => true end
  end.

#[global] Instance str_eq_dec : EqDecision str.
Proof. solve_decision. Defined.

#[global] Instance str_countable : Countable str.
Proof.
  refine (inj_countable' code_points of_code_points _).
  intros s. induction s as [|c s IH]; simpl; congruence.
Defined.

(** A dict read by key.  Where the items repeat a key (a JSON object may),
    the dict holds the last value given for it. *)
Definition fields (items : list (str * json)) : gmap str json :=
  list_to_map (reverse items).

(** The keys of a dict in insertion order: each key once, where it first
    came. *)
Definition keys (items : list (str * json)) : list str :=
  reverse (remove_dups (reverse items.*1)).

(** [d.get(k)]: a missing key reads as [None]. *)
Definition dict_get (d : gmap str json) (k : str) : json :=
  default JNull (d !! k).

(** [d[k]] *)
Definition dict_item (d : gmap str json) (k : str) : result json :=
  match d !! k with
  | Some v => Ok v
  | None => Raise (KeyError k)
  end.

(** [v.get(k)] on an arbitrary value: only a dict has [get]. *)
Definition py_get (v : json) (k : str) : result json :=
  match v with
  | JObj d => Ok (dict_get (fields d) k)
  | _ => Raise AttributeError
  end.

(** [v[k]] for a string key [k]. *)
Definition py_item (v : json) (k : str) : result json :=
  match v with
  | JObj d => dict_item (fields d) k
  | _ => Raise TypeError
  end.

(** [v[0]] *)
Definition py_first (v : json) : result json :=
  match v with
  | JArr (x :: _) => Ok x
  | JArr [] => Raise (ExternalError "IndexError")
  | JStr (StrCons c _) => Ok (JStr (StrCons c ""))
  | JStr "" => Raise (ExternalError "IndexError")
  | JObj _ => Raise (KeyError "0")
  | _ => Raise TypeError
  end.

(* ------------------------------------------------------------------ *)
(** *** Conversions *)

(** The digits of a decimal literal: groups of digits separated by single
    underscores. *)
Fixpoint parse_digits (acc : Z) (after_digit : bool) (s : str) : option Z :=
  match s with
  | "" => if after_digit then Some acc else None
  | StrCons c s' =>
      if is_digit c then parse_digits (10 * acc + digit_value c) true s'
      else if (c =? underscore)%N then
        (if after_digit then parse_digits acc false s' else None)
      else None
  end.

Fixpoint count_digits (s : str) : nat :=
  match s with
  | "" => O
  | StrCons c s' => if is_digit c then S (count_digits s') else count_digits s'
  end.

(** [sys.get_int_max_str_digits()], which the program leaves at its
    default. *)
Definition int_max_str_digits : nat := 4300.

(** [int(s)] for a string: surrounding whitespace is dropped, one sign is
    allowed, and a literal of more than [int_max_str_digits] digits is
    refused. *)
Definition int_of_string (s : str) : result Z :=
  let body := strip_by is_int_space s in
  let signed :=
    match body with
    | StrCons c r =>
        if (c =? minus_sign)%N then (true, r)
        else if (c =? plus_sign)%N then (false, r)
        else (false, body)
    | "" => (false, body)
    end in
  match parse_digits 0 false (snd signed) with
  | Some n =>
      if (int_max_str_digits <? count_digits (snd signed))%nat
      then Raise ValueError
      else Ok (if fst signed then - n else n)
  | None => Raise ValueError
  end.

(** [int(f)] for a float: truncation towards zero. *)
Definition int_of_float (f : spec_float) : result Z :=
  match f with
  | S754_zero _ => Ok 0
  | S754_infinity _ => Raise OverflowError
  | S754_nan => Raise ValueError
  | S754_finite sign m e =>
      let magnitude :=
        if (0 <=? e)%Z then Z.pos m * 2 ^ e else Z.pos m / 2 ^ (- e) in
      Ok (if sign then - magnitude else magnitude)
  end.

(** [int(v)] *)
Definition py_int (v : json) : result Z :=
  match v with
  | JNull => Raise TypeError
  | JBool b => Ok (if b then 1 else 0)
  | JInt n => Ok n
  | JFloat f => int_of_float f
  | JStr s => int_of_string s
  | JArr _ => Raise TypeError
  | JObj _ => Raise TypeError
  end.

Fixpoint chars (s : str) : list json :=
  match s with
  | "" => []
  | StrCons c s' => JStr (StrCons c "") :: chars s'
  end.

(** What [for x in v] iterates over: the items of a list, the characters
    of a string, the keys of a dict in insertion order. *)
Definition py_iter (v : json) : result (list json) :=
  match v with
  | JArr items => Ok items
  | JStr s => Ok (chars s)
  | JObj d => Ok (JStr <$> keys d)
  | _ => Raise TypeError
  end.

(** [[f(x) for x in xs]] for an [f] that may raise. *)
Fixpoint map_result {A B} (f : A -> result B) (xs : list A) : result (list B) :=
  match xs with
  | [] => Ok []
  | x :: xs' =>
      match f x with
      | Raise e => Raise e
      | Ok y =>
          match map_result f xs' with
          | Raise e => Raise e
          | Ok ys => Ok (y :: ys)
          end
      end
  end.

Fixpoint count_from (lo : Z) (n : nat) : list Z :=
  match n with
  | O => []
  | S n' => lo :: count_from (lo + 1) n'
  end.

(** [range(lo, hi)] *)
Definition py_range (lo hi : Z) : list Z := count_from lo (Z.to_nat (hi - lo)).

(** An operand used as an integer ([v + 1], [range(1, v)], [a < v]). *)
Definition as_int (v : json) : result Z :=
  match v with
  | JInt n => Ok n
  | JBool b => Ok (if b then 1 else 0)
  | _ => Raise TypeError
  end.

(* ================================================================== *)
(** ** Regular expressions

    The fragment of [re] that [is_valid_public_ipv4] uses, matched by
    enumerating every way a pattern can consume a prefix. *)

Inductive regex :=
  | Bol                                   (* ^ *)
  | Eol                                   (* $ *)
  | Digit                                 (* \d *)
  | Chr (c : N)                           (* an escaped or plain character *)
  | Cat (r1 r2 : regex)
  | Rep (lo hi : nat) (r : regex).        (* r{lo,hi} *)

(** A position in the subject: how much was consumed, and what is left. *)
Definition cursor : Type := nat * str.

Fixpoint iterate (step : cursor -> list cursor) (k : nat) (p : cursor)
  : list cursor :=
  match k with
  | O => [p]
  | S k' => flat_map (iterate step k') (step p)
  end.

Fixpoint rmatch (r : regex) (p : cursor) : list cursor :=
  match r with
  | Bol => match fst p with O => [p] | _ => [] end
  | Eol =>
      (* end of string, or just before a newline that ends the string *)
      match snd p with
      | "" => [p]
      | StrCons c "" => if (c =? line_feed)%N then [p] else []
      | _ => []
      end
  | Digit =>
      match snd p with
      | StrCons c rest => if is_digit c then [(S (fst p), rest)] else []
      | "" => []
      end
  | Chr c =>
      match snd p with
      | StrCons c' rest => if (c' =? c)%N then [(S (fst p), rest)] else []
      | "" => []
      end
  | Cat r1 r2 => flat_map (rmatch r2) (rmatch r1 p)
  | Rep lo hi r' =>
      flat_map (fun k => iterate (rmatch r') k p) (rev (seq lo (S hi - lo)))
  end.

(** [re.match(r, s)] is not [None]. *)
Definition re_match (r : regex) (s : str) : bool :=
  match rmatch r (O, s) with [] => false | _ => true end.

(** [r"^(\d{1,3}\.){3}\d{1,3}$"] *)
Definition IPV4_PATTERN : regex :=
  Cat Bol
    (Cat (Rep 3 3 (Cat (Rep 1 3 Digit) (Chr dot)))
       (Cat (Rep 1 3 Digit) Eol)).

(* ================================================================== *)
(** ** The validator *)

Definition is_valid_public_ipv4 (ip : str) : result bool :=
  if negb (re_match IPV4_PATTERN ip) then Ok false
  else
    let octets := split dot ip in
    match map_result int_of_string octets with
    | Raise ValueError => Ok false
    | Raise e => Raise e
    | Ok octets_int =>
        if existsb (fun o => ((o <? 0) || (255 <? o))%Z) octets_int then Ok false
        else
          match octets_int with
          | [o1; o2; _; _] =>
              if ((o1 =? 10) || (o1 =? 127))%Z then Ok false
              else if ((o1 =? 172) && (16 <=? o2) && (o2 <=? 31))%Z then Ok false
              else if ((o1 =? 192) && (o2 =? 168))%Z then Ok false
              else Ok true
          | _ => Raise ValueError     (* unpacking needs exactly four *)
          end
    end.

(* ================================================================== *)
(** ** The outside world *)

(** An f-string before it is rendered: literal text and interpolated
    values, in order. *)
Inductive segment :=
  | Lit (text : str)
  | Val (v : json).

Definition fstring : Type := list segment.

(** A value inside a request body: parsed JSON, or text built by the
    program. *)
Inductive pyval :=
  | Json (v : json)
  | Text (t : fstring).

Record request := {
  req_method : str;
  req_url : fstring;
  req_headers : list (str * fstring);
  req_data : option (gmap str pyval);     (* the dict handed to json.dumps *)
}.

(** What the program can ask of an HTTP response. *)
Record response := {
  getcode : Z;
  body_text : result str;      (* response.read().decode("utf-8") *)
  body_json : result json;        (* json.loads of that text *)
}.

(** The environment answers the action the process performs after [n]
    earlier ones, and decides which durations [time.sleep] refuses. *)
Record environment := {
  urlopen : nat -> request -> result response;
  sleep_error : json -> option exn;
}.

Inductive event :=
  | Request (r : request)
  | Sleep (seconds : json).

Record state := {
  last_ip : option str;
  trace : list event;
}.

Definition M (A : Type) : Type := state -> result A * state.

Definition ret {A} (a : A) : M A := fun s => (Ok a, s).

Definition bind {A B} (m : M A) (k : A -> M B) : M B :=
  fun s =>
    match m s with
    | (Ok a, s') => k a s'
    | (Raise e, s') => (Raise e, s')
    end.

Definition raise {A} (e : exn) : M A := fun s => (Raise e, s).

Definition lift {A} (r : result A) : M A := fun s => (r, s).

(** [try: m  except Exception as e: handler e] *)
Definition try_except {A} (m : M A) (handler : exn -> M A) : M A :=
  fun s =>
    match m s with
    | (Raise e, s') => handler e s'
    | done => done
    end.

Definition bind_result {A B} (r : result A) (k : A -> result B) : result B :=
  match r with
  | Ok a => k a
  | Raise e => Raise e
  end.

#[global] Instance M_ret : MRet M := @ret.
#[global] Instance M_bind : MBind M := fun A B k m => bind m k.
#[global] Instance result_ret : MRet result := @Ok.
#[global] Instance result_bind : MBind result := fun A B k r => bind_result r k.

Definition get_last_ip : M (option str) := fun s => (Ok (last_ip s), s).

Definition set_last_ip (ip : str) : M unit :=
  fun s => (Ok tt, {| last_ip := Some ip; trace := trace s |}).

Inductive flow := Next | Break.

(** [for x in xs: body], where the body says whether it reached [break]. *)
Fixpoint for_each {A} (xs : list A) (body : A -> M flow) : M unit :=
  match xs with
  | [] => ret tt
  | x :: xs' =>
      f ← body x;
      match f with
      | Break => ret tt
      | Next => for_each xs' body
      end
  end.

(** What the resolver makes of a response: [Some ip] is its [return ip],
    [None] the branch that only logs a warning. *)
Definition read_ip (resp : response) : result (option str) :=
  text ← body_text resp;
  let ip := strip text in
  valid ← is_valid_public_ipv4 ip;
  if valid : bool then Ok (Some ip) else Ok None.

Section Program.
Context (env : environment).

Definition http (r : request) : M response :=
  fun s =>
    (urlopen env (length (trace s)) r,
     {| last_ip := last_ip s; trace := trace s ++ [Request r] |}).

(** [time.sleep(v)] *)
Definition time_sleep (v : json) : M unit :=
  fun s =>
    match sleep_error env v with
    | Some e => (Raise e, s)
    | None => (Ok tt, {| last_ip := last_ip s; trace := trace s ++ [Sleep v] |})
    end.

(* ------------------------------------------------------------------ *)
(** *** get_current_ip *)

Definition methods : list str :=
  [ "https://api.ipify.org";
    "https://ifconfig.me/ip";
    "https://checkip.amazonaws.com" ].

Definition ip_request (url : str) : request :=
  {| req_method := "GET"; req_url := [Lit url];
     req_headers := []; req_data := None |}.

(** The body of the [try] for one endpoint. *)
Definition probe (url : str) : M (option str) :=
  resp ← http (ip_request url);
  lift (read_ip resp).

Fixpoint query (urls : list str) (last_error : option exn) : M str :=
  match urls with
  | [] => raise (NoPublicIP last_error)
  | url :: rest =>
      fun s =>
        match probe url s with
        | (Ok (Some ip), s') => (Ok ip, s')
        | (Ok None, s') => query rest last_error s'
        | (Raise e, s') => query rest (Some e) s'
        end
  end.

Definition get_current_ip : M str := query methods None.

(* ------------------------------------------------------------------ *)
(** *** The provider client *)

Definition api_request (token : json) (method : str) (url : fstring)
    (data : option (gmap str pyval)) : request :=
  {| req_method := method;
     req_url := url;
     req_headers :=
       [ ("Authorization", [Lit "Bearer "; Val token]);
         ("Content-Type", [Lit "application/json"]) ];
     req_data := data |}.

Definition cloudflare_request (cfg : gmap str json) (method : str)
    (url : fstring) (data : option (gmap str pyval)) : M json :=
  token ← lift (dict_item cfg "cloudflare_api_token");
  resp ← http (api_request token method url data);
  lift (body_json resp).

Definition record_url (zone_id record_name : json) : fstring :=
  [ Lit "https://api.cloudflare.com/client/v4/zones/"; Val zone_id;
    Lit "/dns_records?name="; Val record_name; Lit "&type=A" ].

(** What [get_cloudflare_record] makes of the decoded response. *)
Definition first_record (data : json) : result (json * json * json) :=
  success ← py_get data "success";
  result ← py_get data "result";
  if truthy success && truthy result then
    result ← py_item data "result";
    rec ← py_first result;
    id ← py_item rec "id";
    content ← py_item rec "content";
    proxied ← py_item rec "proxied";
    Ok (id, content, proxied)
  else Raise RecordNotFound.

Definition get_cloudflare_record (cfg : gmap str json)
  : M (json * json * json) :=
  zone_id ← lift (dict_item cfg "zone_id");
  record_name ← lift (dict_item cfg "record_name");
  data ← cloudflare_request cfg "GET" (record_url zone_id record_name) None;
  lift (first_record data).

Definition update_url (zone_id record_id : json) : fstring :=
  [ Lit "https://api.cloudflare.com/client/v4/zones/"; Val zone_id;
    Lit "/dns_records/"; Val record_id ].

Definition update_payload (record_name : json) (ip : str) (proxied : bool)
  : gmap str pyval :=
  {[ "type" := Json (JStr "A");
     "name" := Json record_name;
     "content" := Json (JStr ip);
     "ttl" := Json (JInt 1);          (* 'automatic' in Cloudflare *)
     "proxied" := Json (JBool proxied) ]}.

Definition update_cloudflare_dns (cfg : gmap str json) (record_id : json)
    (ip : str) (proxied : bool) : M bool :=
  zone_id ← lift (dict_item cfg "zone_id");
  record_name ← lift (dict_item cfg "record_name");
  resp ← cloudflare_request cfg "PUT" (update_url zone_id record_id)
           (Some (update_payload record_name ip proxied));
  success ← lift (py_get resp "success");
  ret (truthy success).

(* ------------------------------------------------------------------ *)
(** *** The notifier *)

Definition telegram_request (bot_token chat_id : json) (message : fstring)
  : request :=
  {| req_method := "POST";
     req_url := [ Lit "https://api.telegram.org/bot"; Val bot_token;
                  Lit "/sendMessage" ];
     req_headers := [ ("Content-Type", [Lit "application/json"]) ];
     req_data := Some {[ "chat_id" := Json chat_id; "text" := Text message ]} |}.

(** One turn of the delivery loop; its [try] swallows every exception. *)
Definition deliver (bot_token : json) (message : fstring) (chat_id : json)
  : M flow :=
  try_except
    (resp ← http (telegram_request bot_token chat_id message);
     if (getcode resp =? 200)%Z then ret Next
     else (_ ← lift (body_text resp); ret Next))
    (fun _ => ret Next).

(** [x or []] *)
Definition or_empty_list (x : json) : json :=
  if truthy x then x else JArr [].

Definition send_telegram_message (cfg : gmap str json) (message : fstring)
  : M unit :=
  let bot_token := dict_get cfg "telegram_bot_token" in
  let chat_ids := or_empty_list (dict_get cfg "telegram_chat_ids") in
  if negb (truthy bot_token) || negb (truthy chat_ids) then ret tt
  else
    targets ← lift (py_iter chat_ids);
    for_each targets (deliver bot_token message).

(* ------------------------------------------------------------------ *)
(** *** The reconciliation loop *)

(** [current_ip != v] *)
Definition differs (current_ip : str) (v : json) : bool :=
  match v with
  | JStr s => negb (str_eqb current_ip s)
  | _ => true
  end.

(** [current_ip != last_ip] *)
Definition changed (current_ip : str) (last : option str) : bool :=
  match last with
  | Some s => negb (str_eqb current_ip s)
  | None => true
  end.

Definition update_message (record_name : json) (current_ip : str) : fstring :=
  [ Lit "IP pubblico aggiornato per "; Val record_name; Lit ":"; Lit newline;
    Lit current_ip ].

(** The body of the retry loop for one value of [attempt]. *)
Definition attempt_update (cfg : gmap str json) (current_ip : str)
    (attempt : Z) : M flow :=
  try_except
    ('(record_id, cf_ip, cf_proxied) ← get_cloudflare_record cfg;
     if differs current_ip cf_ip || truthy cf_proxied then
       success ← update_cloudflare_dns cfg record_id current_ip false;
       if success : bool then
         record_name ← lift (dict_item cfg "record_name");
         _ ← send_telegram_message cfg (update_message record_name current_ip);
         _ ← set_last_ip current_ip;
         ret Break
       else ret Next
     else
       _ ← set_last_ip current_ip;
       ret Break)
    (fun _ =>
       max_retries ← lift (dict_item cfg "max_retries" ≫= as_int);
       if (attempt <? max_retries)%Z then
         retry_delay ← lift (dict_item cfg "retry_delay");
         _ ← time_sleep retry_delay;
         ret Next
       else ret Next).

(** The [try] block of one iteration of [while True]. *)
Definition tick_body (cfg : gmap str json) : M unit :=
  current_ip ← get_current_ip;
  last ← get_last_ip;
  if changed current_ip last then
    max_retries ← lift (dict_item cfg "max_retries" ≫= as_int);
    for_each (py_range 1 (max_retries + 1)) (attempt_update cfg current_ip)
  else ret tt.

(** One iteration of [while True]. *)
Definition tick (cfg : gmap str json) : M unit :=
  _ ← try_except (tick_body cfg) (fun _ => ret tt);
  check_interval ← lift (dict_item cfg "check_interval");
  time_sleep check_interval.

(** The first [n] iterations of [while True]. *)
Fixpoint main_loop (cfg : gmap str json) (n : nat) : M unit :=
  match n with
  | O => ret tt
  | S n' => _ ← tick cfg; main_loop cfg n'
  end.

End Program.

(* ================================================================== *)
(** ** Configuration *)

(** What is found at [change_ip_config.json]. *)
Inductive config_file :=
  | Missing
  | Unreadable (e : exn)             (* cannot be opened, or is not JSON *)
  | Parsed (raw : json).

Definition defaults : gmap str json :=
  {[ "check_interval" := JInt 30;
     "max_retries" := JInt 5;
     "retry_delay" := JInt 5;
     "log_level" := JStr "INFO" ]}.

Definition required_keys : list str :=
  [ "cloudflare_api_token"; "zone_id"; "record_name" ].

Fixpoint check_required (cfg : gmap str json) (keys : list str)
  : result unit :=
  match keys with
  | [] => Ok tt
  | key :: rest =>
      if negb (truthy (dict_get cfg key)) then Raise ValueError
      else check_required cfg rest
  end.

Definition load_config (file : config_file) : result (gmap str json) :=
  match file with
  | Missing => Raise FileNotFoundError
  | Unreadable e => Raise e
  | Parsed (JObj raw) =>
      let cfg := fields raw ∪ defaults in
      _ ← check_required cfg required_keys;
      let chat_ids := or_empty_list (dict_get cfg "telegram_chat_ids") in
      targets ← py_iter chat_ids;
      ids ← map_result py_int targets;
      Ok (<["telegram_chat_ids" := JArr (JInt <$> ids)]> cfg)
  | Parsed _ => Raise TypeError    (* [**raw] needs a mapping *)
  end.

(** What [logging] holds under the names that [upper] can produce: the
    level numbers, a format string and a table of styles.  No other
    attribute of the module has an upper-case name. *)
Inductive logging_attribute :=
  | LevelNumber (n : Z)
  | FormatText
  | StyleTable.

Definition logging_constants : list (str * logging_attribute) :=
  [ ("CRITICAL", LevelNumber 50); ("FATAL", LevelNumber 50);
    ("ERROR", LevelNumber 40); ("WARNING", LevelNumber 30);
    ("WARN", LevelNumber 30); ("INFO", LevelNumber 20);
    ("DEBUG", LevelNumber 10); ("NOTSET", LevelNumber 0);
    ("BASIC_FORMAT", FormatText); ("_STYLES", StyleTable) ].

(** [getattr(logging, level_name.upper(), logging.INFO)] *)
Definition logging_level (level_name : str) : logging_attribute :=
  match List.find (fun entry => upper_is level_name entry.1) logging_constants with
  | Some entry => entry.2
  | None => LevelNumber 20
  end.

(** [logging.basicConfig(level=level, format=...)] on a fresh root logger:
    an integer is a level, the format string names none, anything else has
    the wrong type. *)
Definition basic_config (level : logging_attribute) : result unit :=
  match level with
  | LevelNumber _ => Ok tt
  | FormatText => Raise ValueError
  | StyleTable => Raise TypeError
  end.

(** [setup_logging(cfg["log_level"])]: only a string has [upper]. *)
Definition setup_logging (level_name : json) : result unit :=
  match level_name with
  | JStr name => basic_config (logging_level name)
  | _ => Raise AttributeError
  end.

Definition initial_state : state := {| last_ip := None; trace := [] |}.

(** [main], cut after [n] iterations of its loop. *)
Definition main (env : environment) (file : config_file) (n : nat)
  : result unit * state :=
  match load_config file with
  | Raise e => (Raise e, initial_state)
  | Ok cfg =>
      match dict_item cfg "log_level" ≫= setup_logging with
      | Raise e => (Raise e, initial_state)
      | Ok _ => main_loop env cfg n initial_state
      end
  end.

(* ================================================================== *)
(** ** Reading traces *)

(** [updateRecord]: the only [PUT] the program sends. *)
Definition is_write (ev : event) : bool :=
  match ev with
  | Request r => str_eqb (req_method r) "PUT"
  | Sleep _ => false
  end.

(** A request to the DNS provider, read or write. *)
Definition is_provider_call (ev : event) : bool :=
  match ev with
  | Request r =>
      match req_url r with
      | Lit host :: _ =>
          str_eqb host "https://api.cloudflare.com/client/v4/zones/"
      | _ => false
      end
  | Sleep _ => false
  end.

Definition is_network_call (ev : event) : bool :=
  match ev with
  | Request _ => true
  | Sleep _ => false
  end.

(** What a computation adds to the trace when run from [s]. *)
Definition emitted {A} (m : M A) (s : state) : list event :=
  drop (length (trace s)) (trace (m s).2).

(* ================================================================== *)
(** ** Sample environments *)

Definition text_response (body : str) : response :=
  {| getcode := 200;
     body_text := Ok body;
     body_json := Raise (ExternalError "JSONDecodeError") |}.

Definition json_response (body : json) : response :=
  {| getcode := 200;
     body_text := Raise (ExternalError "not read");
     body_json := Ok body |}.

(** How the magnitude [m * 2^e] compares with [2^63]. *)
Definition compare_with_2_63 (m : positive) (e : Z) : comparison :=
  if (0 <=? e)%Z then (Z.pos m * 2 ^ e ?= 2 ^ 63)%Z
  else (Z.pos m ?= 2 ^ 63 * 2 ^ (- e))%Z.

(** A positive magnitude [m * 2^e] as a count of nanoseconds, rounded up. *)
Definition nanoseconds_up (m : positive) (e : Z) : Z :=
  if (0 <=? e)%Z then Z.pos m * 2 ^ e
  else (Z.pos m + 2 ^ (- e) - 1) / 2 ^ (- e).

(** A sleep ends at the monotonic clock plus the duration, saturated at
    [2^63 - 1] nanoseconds; the kernel refuses that deadline ([OSError],
    invalid argument). *)
Definition deadline_error (clock ns : Z) : option exn :=
  if (2 ^ 63 - 1 <=? clock + ns)%Z then Some (ExternalError "OSError")
  else None.

(** [time.sleep] in CPython 3.11 on x86-64 Linux, with the monotonic clock
    at [clock] nanoseconds: the duration is converted to a signed 64-bit
    count of nanoseconds (a float after multiplication by [1e9] in binary64
    and rounding up, where exactly [2^63] wraps to a negative count), a
    negative count is refused, and so is a deadline out of range.  A
    duration that passes is slept. *)
Definition py_sleep_error (clock : Z) (v : json) : option exn :=
  match v with
  | JBool b => deadline_error clock (if b then 1000000000 else 0)
  | JInt n =>
      if ((n <? -9223372036) || (9223372036 <? n))%Z then Some OverflowError
      else if (n <? 0)%Z then Some ValueError
      else deadline_error clock (n * 1000000000)
  | JFloat S754_nan => Some ValueError
  | JFloat f =>
      match SFmul 53 1024 f (S754_finite false 1000000000 0) with
      | S754_zero _ => deadline_error clock 0
      | S754_nan => Some ValueError
      | S754_infinity _ => Some OverflowError
      | S754_finite negative m e =>
          match compare_with_2_63 m e with
          | Gt => Some OverflowError
          | Eq => Some ValueError
          | Lt => if negative then Some ValueError
                  else deadline_error clock (nanoseconds_up m e)
          end
      end
  | _ => Some TypeError
  end.

(** The clock of the sample machine: one hour after boot. *)
Definition sample_clock : Z := 3600 * 1000000000.

(** An environment that answers by the kind of request alone. *)
Definition by_kind (ip_service : str -> result response)
    (fetch update notify : nat -> result response) : environment :=
  {| urlopen := fun t r =>
       if str_eqb (req_method r) "PUT" then update t
       else if str_eqb (req_method r) "POST" then notify t
       else match req_url r with
            | [Lit url] => ip_service url
            | _ => fetch t
            end;
     sleep_error := py_sleep_error sample_clock |}.

Definition sample_cfg : gmap str json :=
  {[ "cloudflare_api_token" := JStr "token";
     "zone_id" := JStr "zone";
     "record_name" := JStr "home.example.org";
     "max_retries" := JInt 2;
     "retry_delay" := JInt 5;
     "check_interval" := JInt 30;
     "log_level" := JStr "INFO";
     "telegram_bot_token" := JStr "bot";
     "telegram_chat_ids" := JArr [JInt 7; JInt 8] ]}.

(** A file that gives [sample_cfg]. *)
Definition sample_file : list (str * json) :=
  [ ("cloudflare_api_token", JStr "token");
    ("zone_id", JStr "zone");
    ("record_name", JStr "home.example.org");
    ("max_retries", JInt 2);
    ("retry_delay", JInt 5);
    ("check_interval", JInt 30);
    ("log_level", JStr "INFO");
    ("telegram_bot_token", JStr "bot");
    ("telegram_chat_ids", JArr [JInt 7; JInt 8]) ].

(** The three required keys alone. *)
Definition minimal_file : list (str * json) :=
  [ ("cloudflare_api_token", JStr "token");
    ("zone_id", JStr "zone");
    ("record_name", JStr "home.example.org") ].

Definition record (id content : str) (proxied : bool) : json :=
  JObj [ ("id", JStr id); ("content", JStr content);
         ("proxied", JBool proxied) ].

Definition listing (success : bool) (records : list json) : json :=
  JObj [ ("success", JBool success); ("result", JArr records) ].

Definition verdict (success : bool) : json :=
  JObj [ ("success", JBool success) ].

Definition env_drift : environment :=
  by_kind (fun _ => Ok (text_response ("203.0.113.5" +:+ newline)))
    (fun _ => Ok (json_response (listing true [record "abc" "203.0.113.4" true])))
    (fun _ => Ok (json_response (verdict true)))
    (fun _ => Ok (text_response "{}")).

Definition env_refused : environment :=
  by_kind (fun _ => Ok (text_response "203.0.113.5"))
    (fun _ => Ok (json_response (listing true [record "abc" "203.0.113.4" false])))
    (fun _ => Ok (json_response (verdict false)))
    (fun _ => Ok (text_response "{}")).

Definition env_down : environment :=
  by_kind (fun _ => Ok (text_response "203.0.113.5"))
    (fun _ => Raise (ExternalError "URLError"))
    (fun _ => Ok (json_response (verdict true)))
    (fun _ => Ok (text_response "{}")).

Definition env_aligned : environment :=
  by_kind (fun _ => Ok (text_response "198.51.100.9"))
    (fun _ => Ok (json_response (listing true [record "abc" "198.51.100.9" false])))
    (fun _ => Ok (json_response (verdict true)))
    (fun _ => Ok (text_response "{}")).

(** Same address at the provider, proxy on, writes accepted. *)
Definition env_proxied : environment :=
  by_kind (fun _ => Ok (text_response "203.0.113.5"))
    (fun _ => Ok (json_response (listing true [record "abc" "203.0.113.5" true])))
    (fun _ => Ok (json_response (verdict true)))
    (fun _ => Raise (ExternalError "URLError")).


(** The zone has no such record. *)
Definition env_no_record : environment :=
  by_kind (fun _ => Ok (text_response "203.0.113.5"))
    (fun _ => Ok (json_response (listing true [])))
    (fun _ => Ok (json_response (verdict true)))
    (fun _ => Ok (text_response "{}")).

(** First endpoint unreachable, second one fine. *)
Definition env_fallback : environment :=
  by_kind
    (fun url =>
       if str_eqb url "https://api.ipify.org"
       then Raise (ExternalError "timeout")
       else Ok (text_response ("203.0.113.5" +:+ newline)))
    (fun _ => Raise (ExternalError "URLError"))
    (fun _ => Raise (ExternalError "URLError"))
    (fun _ => Raise (ExternalError "URLError")).

(** No endpoint gives a public address: one times out, one answers with a
    private address, one with a page. *)
Definition env_dark : environment :=
  by_kind
    (fun url =>
       if str_eqb url "https://api.ipify.org"
       then Raise (ExternalError "timeout")
       else if str_eqb url "https://ifconfig.me/ip"
       then Ok (text_response "192.168.1.20")
       else Ok (text_response "<html>"))
    (fun _ => Raise (ExternalError "URLError"))
    (fun _ => Raise (ExternalError "URLError"))
    (fun _ => Raise (ExternalError "URLError")).

(** What an event is, without its details. *)
Inductive action :=
  | Resolve
  | Read
  | Write
  | Notify
  | Pause (seconds : json).

Definition classify (ev : event) : action :=
  match ev with
  | Sleep v => Pause v
  | Request r =>
      if str_eqb (req_method r) "PUT" then Write
      else if str_eqb (req_method r) "POST" then Notify
      else if is_provider_call ev then Read
      else Resolve
  end.

(* ================================================================== *)
(** ** Vocabulary of the statements *)

(** What endpoint [url] answers when it is queried as action number [t]. *)
Definition answer (env : environment) (t : nat) (url : str)
  : result (option str) :=
  urlopen env t (ip_request url) ≫= read_ip.

(** What a run of endpoints answers when queried one after the other,
    starting as action number [t]. *)
Fixpoint answers (env : environment) (t : nat) (urls : list str)
  : list (result (option str)) :=
  match urls with
  | [] => []
  | url :: rest => answer env t url :: answers env (S t) rest
  end.

(** An endpoint that raised, or whose value the validator turned down. *)
Definition unusable (r : result (option str)) : Prop :=
  match r with
  | Ok (Some _) => False
  | _ => True
  end.

(** The exception of the last answer that was one, if any. *)
Definition last_raised (answers : list (result (option str))) : option exn :=
  last (omap (fun r => match r with Raise e => Some e | Ok _ => None end) answers).

(** [m] moves every state along the relation [R]. *)
Definition respects {A} (R : relation state) (m : M A) : Prop :=
  forall s, R s (m s).2.

(** The trace grew by events that all satisfy [P]. *)
Definition grew_by (P : event -> Prop) (s s' : state) : Prop :=
  exists evs, trace s' = trace s ++ evs /\ Forall P evs.

Definition same_last_ip (s s' : state) : Prop := last_ip s' = last_ip s.

(** The trace grew by events that satisfy [P], and [last_ip] stayed. *)
Definition quiet (P : event -> Prop) (s s' : state) : Prop :=
  same_last_ip s s' /\ grew_by P s s'.

(** Everything the program can do to the outside world. *)
Inductive program_event (cfg : gmap str json) : event -> Prop :=
  | resolver_event url :
      program_event cfg (Request (ip_request url))
  | fetch_event token zone name :
      program_event cfg
        (Request (api_request token "GET" (record_url zone name) None))
  | update_event token zone id name ip :
      program_event cfg
        (Request (api_request token "PUT" (update_url zone id)
                    (Some (update_payload name ip false))))
  | notify_event chat_id message :
      program_event cfg
        (Request (telegram_request (dict_get cfg "telegram_bot_token")
                    chat_id message))
  | sleep_event v :
      program_event cfg (Sleep v).

Definition not_write (ev : event) : Prop := is_write ev = false.


(** A loop body that either reaches [break] or leaves [last_ip] alone. *)
Definition keeps_or_breaks (m : M flow) : Prop :=
  forall s, (m s).1 = Ok Break \/ last_ip (m s).2 = last_ip s.

(** The last statement of an iteration: [time.sleep(cfg["check_interval"])]. *)
Definition inter_tick_sleep (env : environment) (cfg : gmap str json)
  : M unit :=
  check_interval ← lift (dict_item cfg "check_interval");
  time_sleep env check_interval.

(** The [try] statement of an iteration. *)
Definition guarded_body (env : environment) (cfg : gmap str json) : M unit :=
  try_except (tick_body env cfg) (fun _ => ret tt).

(** The state [s] after [evs] happened. *)
Definition after (s : state) (evs : list event) : state :=
  {| last_ip := last_ip s; trace := trace s ++ evs |}.

Definition with_last_ip (ip : str) (s : state) : state :=
  {| last_ip := Some ip; trace := trace s |}.

(** The provider's documented answer to a listing: an object whose
    [result], when there is one, is a list of records that each have an
    [id], a [content] and a [proxied] field. *)
Definition is_record (v : json) : bool :=
  match v with
  | JObj r =>
      bool_decide (is_Some (fields r !! "id"))
      && bool_decide (is_Some (fields r !! "content"))
      && bool_decide (is_Some (fields r !! "proxied"))
  | _ => false
  end.

Definition is_listing (data : json) : bool :=
  match data with
  | JObj d =>
      match dict_get (fields d) "result" with
      | JArr records => forallb is_record records
      | JNull => true
      | _ => false
      end
  | _ => false
  end.

(** The [success] indicator of a listing. *)
Definition reports_success (data : json) : bool :=
  match data with
  | JObj d => truthy (dict_get (fields d) "success")
  | _ => false
  end.

(** The result list of a listing. *)
Definition records_of (data : json) : list json :=
  match data with
  | JObj d =>
      match dict_get (fields d) "result" with
      | JArr records => records
      | _ => []
      end
  | _ => []
  end.

(** The fields of a record that the program keeps. *)
Definition triple_of (rec : json) : option (json * json * json) :=
  match rec with
  | JObj r =>
      id ← fields r !! "id";
      content ← fields r !! "content";
      proxied ← fields r !! "proxied";
      Some (id, content, proxied)
  | _ => None
  end.

(* ------------------------------------------------------------------ *)
(** *** Vocabulary for the validator *)

Fixpoint all_digits (s : str) : bool :=
  match s with
  | "" => true
  | StrCons c rest => is_digit c && all_digits rest
  end.

(** One to three decimal digits. *)
Definition is_octet_text (s : str) : bool :=
  all_digits s && (1 <=? str_length s)%nat && (str_length s <=? 3)%nat.

Fixpoint decimal_from (acc : Z) (s : str) : Z :=
  match s with
  | "" => acc
  | StrCons c rest => decimal_from (10 * acc + digit_value c) rest
  end.

(** The number a string of digits denotes. *)
Definition decimal (s : str) : Z := decimal_from 0 s.

(** 10.0.0.0/8, 127.0.0.0/8, 172.16.0.0/12 and 192.168.0.0/16, by the
    first two octets. *)
Definition in_private_ranges (o1 o2 : Z) : Prop :=
  o1 = 10 \/ o1 = 127 \/ (o1 = 172 /\ 16 <= o2 <= 31) \/ (o1 = 192 /\ o2 = 168).

(** The rule on four numbers: each at most 255, and the address outside
    the four ranges. *)
Definition quad_is_public (o1 o2 o3 o4 : Z) : bool :=
  (o1 <=? 255)%Z && (o2 <=? 255)%Z && (o3 <=? 255)%Z && (o4 <=? 255)%Z
  && negb ((o1 =? 10)%Z || (o1 =? 127)%Z
           || ((o1 =? 172)%Z && (16 <=? o2)%Z && (o2 <=? 31)%Z)
           || ((o1 =? 192)%Z && (o2 =? 168)%Z)).

(** If the first [n] characters are digits, what follows them. *)
Fixpoint take_digits (n : nat) (s : str) : option str :=
  match n with
  | O => Some s
  | S n' =>
      match s with
      | StrCons c rest => if is_digit c then take_digits n' rest else None
      | "" => None
      end
  end.

(* ------------------------------------------------------------------ *)
(** *** Vocabulary for the retry budget *)

Definition is_read (ev : event) : bool :=
  match classify ev with Read => true | _ => false end.

(** [m] adds at most [n] events that satisfy [f] to the trace. *)
Definition at_most {A} (f : event -> bool) (n : nat) (m : M A) : Prop :=
  forall s, exists evs,
    trace (m s).2 = trace s ++ evs /\ (length (List.filter f evs) <= n)%nat.

(** The listing request of [get_cloudflare_record]. *)
Definition read_request (token zone name : json) : request :=
  api_request token "GET" (record_url zone name) None.

(** The attempts a configuration allows. *)
Definition budget (cfg : gmap str json) : nat :=
  match dict_item cfg "max_retries" ≫= as_int with
  | Ok n => Z.to_nat n
  | Raise _ => O
  end.

(** The trace of [n] attempts whose read fails by an exception: the reads,
    with the retry delay between them. *)
Fixpoint failed_reads (read : event) (delay : json) (n : nat) : list event :=
  match n with
  | O => []
  | S O => [read]
  | S n' => read :: Sleep delay :: failed_reads read delay n'
  end.

(* ------------------------------------------------------------------ *)
(** *** Vocabulary for whole runs *)

(** A public IPv4 address written as a dotted quad: four groups of one to
    three decimal digits (of any script), each worth at most 255, outside
    the four ranges.  Nothing comes before or after the groups. *)
Definition public_quad (ip : str) : Prop :=
  exists a b c d,
    ip = a +:+ "." +:+ b +:+ "." +:+ c +:+ "." +:+ d /\
    is_octet_text a = true /\ is_octet_text b = true /\
    is_octet_text c = true /\ is_octet_text d = true /\
    decimal a <= 255 /\ decimal b <= 255 /\
    decimal c <= 255 /\ decimal d <= 255 /\
    ~ in_private_ranges (decimal a) (decimal b).

(** [last_ip] is unset or a public dotted quad. *)
Definition last_ip_public (s : state) : Prop :=
  match last_ip s with
  | Some ip => public_quad ip
  | None => True
  end.

Definition keeps_public (s s' : state) : Prop :=
  last_ip_public s -> last_ip_public s'.

Definition is_notify (ev : event) : bool :=
  match classify ev with Notify => true | _ => false end.

(** The headers of [cloudflare_request]. *)
Definition api_headers (token : json) : list (str * fstring) :=
  [ ("Authorization", [Lit "Bearer "; Val token]);
    ("Content-Type", [Lit "application/json"]) ].

(** The request of [update_cloudflare_dns]. *)
Definition write_request (token zone name id : json) (ip : str)
    (proxied : bool) : request :=
  api_request token "PUT" (update_url zone id)
    (Some (update_payload name ip proxied)).

(** The three identity fields of a configuration. *)
Definition identity (cfg : gmap str json) (token zone name : json) : Prop :=
  cfg !! "cloudflare_api_token" = Some token /\
  cfg !! "zone_id" = Some zone /\
  cfg !! "record_name" = Some name.

(** What [send_telegram_message] iterates over. *)
Definition targets_of (cfg : gmap str json) : result (list json) :=
  py_iter (or_empty_list (dict_get cfg "telegram_chat_ids")).

(** The actions of a run, each tied to the configuration that caused it. *)
Inductive configured_event (cfg : gmap str json) : event -> Prop :=
  | configured_resolve url :
      url ∈ methods ->
      configured_event cfg (Request (ip_request url))
  | configured_read token zone name :
      identity cfg token zone name ->
      configured_event cfg (Request (read_request token zone name))
  | configured_write token zone name id ip :
      identity cfg token zone name ->
      public_quad ip ->
      configured_event cfg (Request (write_request token zone name id ip false))
  | configured_notify targets chat_id name ip :
      truthy (dict_get cfg "telegram_bot_token") = true ->
      targets_of cfg = Ok targets ->
      chat_id ∈ targets ->
      cfg !! "record_name" = Some name ->
      public_quad ip ->
      configured_event cfg
        (Request (telegram_request (dict_get cfg "telegram_bot_token") chat_id
                    (update_message name ip)))
  | configured_retry_sleep v :
      cfg !! "retry_delay" = Some v ->
      configured_event cfg (Sleep v)
  | configured_tick_sleep v :
      cfg !! "check_interval" = Some v ->
      configured_event cfg (Sleep v).

(** No notification so far, or a write was sent before the first one. *)
Definition announced (s s' : state) : Prop :=
  exists evs,
    trace s' = trace s ++ evs /\
    (Forall (fun ev => is_notify ev = false) evs \/
     exists before later,
       evs = before ++ later /\
       Forall (fun ev => is_notify ev = false) before /\
       Exists (fun ev => is_write ev = true) before).

(** While [last_ip] is [ip] it stays so and the provider is left alone. *)
Definition rests_at (ip : str) (s s' : state) : Prop :=
  last_ip s = Some ip ->
  last_ip s' = Some ip /\ grew_by (fun ev => is_provider_call ev = false) s s'.

(** [last_ip] stayed or became [ip]. *)
Definition sets_or_keeps (ip : str) (s s' : state) : Prop :=
  last_ip s' = last_ip s \/ last_ip s' = Some ip.

(** The trace grew, by whatever. *)
Definition extends (s s' : state) : Prop := grew_by (fun _ => True) s s'.

(** The parts of [attempt_update]: what follows the write, what follows the
    read, and the handler of its [try]. *)
Definition after_write (env : environment) (cfg : gmap str json)
    (current_ip : str) (success : bool) : M flow :=
  if success then
    record_name ← lift (dict_item cfg "record_name");
    _ ← send_telegram_message env cfg (update_message record_name current_ip);
    _ ← set_last_ip current_ip;
    ret Break
  else ret Next.

Definition after_read (env : environment) (cfg : gmap str json)
    (current_ip : str) (found : json * json * json) : M flow :=
  let '(record_id, cf_ip, cf_proxied) := found in
  if differs current_ip cf_ip || truthy cf_proxied then
    success ← update_cloudflare_dns env cfg record_id current_ip false;
    after_write env cfg current_ip success
  else
    _ ← set_last_ip current_ip;
    ret Break.

Definition retry_handler (env : environment) (cfg : gmap str json)
    (attempt : Z) (e : exn) : M flow :=
  max_retries ← lift (dict_item cfg "max_retries" ≫= as_int);
  if (attempt <? max_retries)%Z then
    retry_delay ← lift (dict_item cfg "retry_delay");
    _ ← time_sleep env retry_delay;
    ret Next
  else ret Next.

(** The [try] block of one attempt. *)
Definition attempt_try (env : environment) (cfg : gmap str json)
    (current_ip : str) : M flow :=
  found ← get_cloudflare_record env cfg;
  after_read env cfg current_ip found.

(** Whether some turn of the loop over [xs], run from [s], reaches
    [break]. *)
Fixpoint reaches_break {A} (body : A -> M flow) (xs : list A) (s : state)
  : bool :=
  match xs with
  | [] => false
  | x :: rest =>
      match body x s with
      | (Ok Break, _) => true
      | (Ok Next, s') => reaches_break body rest s'
      | (Raise _, _) => false
      end
  end.

(** The retry loop of the tick that starts in [s]: the resolved address,
    the values of [attempt] and the state before the first attempt; [None]
    when the tick does not get to its retry loop. *)
Definition attempts_of (env : environment) (cfg : gmap str json) (s : state)
  : option (str * list Z * state) :=
  match get_current_ip env s with
  | (Ok ip, s1) =>
      if changed ip (last_ip s1) then
        match dict_item cfg "max_retries" ≫= as_int with
        | Ok n => Some (ip, py_range 1 (n + 1), s1)
        | Raise _ => None
        end
      else None
  | (Raise _, _) => None
  end.

(** Whether an attempt of the tick that starts in [s] reaches [break]. *)
Definition tick_reaches_break (env : environment) (cfg : gmap str json)
    (s : state) : bool :=
  match attempts_of env cfg s with
  | Some (ip, xs, s1) => reaches_break (attempt_update env cfg ip) xs s1
  | None => false
  end.

(** The state after [n] iterations of the loop. *)
Fixpoint after_ticks (env : environment) (cfg : gmap str json) (n : nat)
    (s : state) : state :=
  match n with
  | O => s
  | S n' => after_ticks env cfg n' (tick env cfg s).2
  end.

(* ================================================================== *)
(** * Properties *)

(** ** Running the monad *)

Ltac run :=
  unfold mbind, M_bind, bind, mret, M_ret, ret, lift, raise, try_except,
    result_bind, bind_result, get_last_ip, set_last_ip in *.

Lemma bind_ok {A B} (m : M A) (k : A -> M B) s a s' :
  m s = (Ok a, s') -> (m ≫= k) s = k a s'.
Proof. intros H. run. by rewrite H. Qed.

Lemma bind_raise {A B} (m : M A) (k : A -> M B) s e s' :
  m s = (Raise e, s') -> (m ≫= k) s = (Raise e, s').
Proof. intros H. run. by rewrite H. Qed.

Lemma try_ok {A} (m : M A) h s a s' :
  m s = (Ok a, s') -> try_except m h s = (Ok a, s').
Proof. intros H. run. by rewrite H. Qed.

Lemma try_raise {A} (m : M A) h s e s' :
  m s = (Raise e, s') -> try_except m h s = h e s'.
Proof. intros H. run. by rewrite H. Qed.

Lemma lift_ok {A B} (r : result A) (k : A -> M B) s a :
  r = Ok a -> (lift r ≫= k) s = k a s.
Proof. intros ->. reflexivity. Qed.

Lemma lift_raise {A B} (r : result A) (k : A -> M B) s e :
  r = Raise e -> (lift r ≫= k) s = (Raise e, s).
Proof. intros ->. reflexivity. Qed.

(** ** Frame rules

    A computation built from pieces that respect a preorder respects it. *)

Section Frame.
Context (R : relation state) `{!PreOrder R}.

Lemma respects_ret {A} (a : A) : respects R (mret a).
Proof. intros s. reflexivity. Qed.

Lemma respects_lift {A} (r : result A) : respects R (lift r).
Proof. intros s. reflexivity. Qed.

Lemma respects_raise {A} e : respects R (raise e : M A).
Proof. intros s. reflexivity. Qed.

Lemma respects_bind {A B} (m : M A) (k : A -> M B) :
  respects R m -> (forall a, respects R (k a)) -> respects R (m ≫= k).
Proof.
  intros Hm Hk s. specialize (Hm s). run.
  destruct (m s) as [[a|e] s1]; simpl in *; [|done].
  etrans; [exact Hm | apply Hk].
Qed.

Lemma respects_try {A} (m : M A) h :
  respects R m -> (forall e, respects R (h e)) -> respects R (try_except m h).
Proof.
  intros Hm Hh s. specialize (Hm s). run.
  destruct (m s) as [[a|e] s1]; simpl in *; [done|].
  etrans; [exact Hm | apply Hh].
Qed.

Lemma respects_for_each {A} (xs : list A) body :
  (forall x, respects R (body x)) -> respects R (for_each xs body).
Proof.
  intros Hb. induction xs as [|x xs IH]; simpl.
  - apply respects_ret.
  - apply respects_bind; [apply Hb|]. intros []; [apply IH | apply respects_ret].
Qed.

End Frame.

#[global] Instance grew_by_preorder P : PreOrder (grew_by P).
Proof.
  split.
  - intros s. exists []. by rewrite app_nil_r.
  - intros s1 s2 s3 (e1 & H1 & F1) (e2 & H2 & F2). exists (e1 ++ e2).
    rewrite H2, H1, app_assoc. split; [done | by apply Forall_app].
Qed.

#[global] Instance same_last_ip_preorder : PreOrder same_last_ip.
Proof.
  split; [by intros s | intros s1 s2 s3 H1 H2]. unfold same_last_ip in *.
  congruence.
Qed.

Lemma grew_by_weaken (P Q : event -> Prop) s s' :
  (forall ev, P ev -> Q ev) -> grew_by P s s' -> grew_by Q s s'.
Proof.
  intros HPQ (evs & Ht & HF). exists evs. split; [done|].
  eapply Forall_impl; eauto.
Qed.

Lemma grew_by_emitted {A} P (m : M A) s :
  grew_by P s (m s).2 -> Forall P (emitted m s).
Proof.
  intros (evs & Ht & HF). unfold emitted. rewrite Ht.
  by rewrite drop_app_length.
Qed.

(* ================================================================== *)
(** ** The validator *)

Lemma not_digit_between lo hi c :
  misses_digits lo hi = true -> (lo <= c <= hi)%N -> is_digit c = false.
Proof.
  unfold misses_digits, is_digit. intros Hmiss Hc.
  induction decimal_runs as [|run runs IH]; [done|]. cbn [forallb existsb] in *.
  apply andb_prop in Hmiss as [Hrun Hruns]. rewrite (IH Hruns), orb_false_r.
  unfold in_run. apply orb_prop in Hrun as [H%N.ltb_lt | H%N.leb_le].
  - replace (run.1 <=? c)%N with false; [done|]. symmetry. apply N.leb_gt. lia.
  - replace (c <? run.1 + run.2)%N with false; [by rewrite andb_false_r|].
    symmetry. apply N.ltb_ge. lia.
Qed.

Lemma not_digit_at c0 c :
  misses_digits c0 c0 = true -> (c =? c0)%N = true -> is_digit c = false.
Proof.
  intros Hmiss ->%N.eqb_eq. apply (not_digit_between c0 c0); [done | lia].
Qed.

Lemma in_range_spec lo hi c : in_range lo hi c = true -> (lo <= c <= hi)%N.
Proof. unfold in_range. intros [?%N.leb_le ?%N.leb_le]%andb_prop. lia. Qed.

Lemma digit_not_space c : is_digit c = true -> is_space c = false.
Proof.
  intros Hd. destruct (is_space c) eqn:Hs; [|done]. unfold is_space in Hs.
  repeat (apply orb_prop in Hs as [Hs|Hs]);
    lazymatch type of Hs with
    | in_range ?lo ?hi c = true =>
        rewrite (not_digit_between lo hi c) in Hd;
          [done | by vm_compute | by apply in_range_spec]
    | (c =? ?c0)%N = true =>
        rewrite (not_digit_at c0 c) in Hd; [done | by vm_compute | done]
    end.
Qed.

Lemma digit_not_int_space c : is_digit c = true -> is_int_space c = false.
Proof. intros Hd. unfold is_int_space. by rewrite (digit_not_space c Hd). Qed.

Lemma digit_is_not c0 c :
  misses_digits c0 c0 = true -> is_digit c = true -> (c =? c0)%N = false.
Proof.
  intros Hmiss Hd. destruct (c =? c0)%N eqn:Hc; [|done].
  by rewrite (not_digit_at _ _ Hmiss Hc) in Hd.
Qed.

Lemma digit_not_dot c : is_digit c = true -> (c =? dot)%N = false.
Proof. by apply digit_is_not. Qed.

Lemma digit_value_range c : 0 <= digit_value c <= 9.
Proof.
  unfold digit_value. destruct (List.find _ _) as [run|]; [|lia].
  pose proof (N.mod_lt (c - run.1) 10 ltac:(done)) as Hlt.
  set (v := ((c - run.1) mod 10)%N) in *. lia.
Qed.

Lemma take_digits_split n s rest :
  take_digits n s = Some rest <->
  exists a, s = a +:+ rest /\ all_digits a = true /\ str_length a = n.
Proof.
  revert s. induction n as [|n IH]; intros s; simpl.
  - split.
    + intros [= ->]. by exists "".
    + intros (a & -> & _ & Hlen). by destruct a.
  - destruct s as [|c s].
    + split; [done|]. intros ([|c a] & Hs & _ & Hlen); done.
    + destruct (is_digit c) eqn:Hc.
      * rewrite IH. split.
        -- intros (a & -> & Ha & <-). exists (StrCons c a). simpl.
           by rewrite Hc, Ha.
        -- intros ([|c' a] & Hs & Ha & Hlen); [done|]. simpl in *.
           injection Hs as <- ->. injection Hlen as <-.
           apply andb_prop in Ha as [_ Ha]. eauto.
      * split; [done|]. intros ([|c' a] & Hs & Ha & Hlen); [done|].
        simpl in *. injection Hs as <- ->. by rewrite Hc in Ha.
Qed.

Lemma iterate_digit n k s :
  iterate (rmatch Digit) n (k, s)
  = match take_digits n s with
    | Some rest => [((n + k)%nat, rest)]
    | None => []
    end.
Proof.
  revert k s. induction n as [|n IH]; intros k s; simpl; [done|].
  destruct s as [|c s]; simpl; [done|].
  destruct (is_digit c); simpl; [|done].
  rewrite IH, app_nil_r. destruct (take_digits n s); [|done].
  do 2 f_equal. lia.
Qed.

(** [\d{1,3}] consumes one, two or three digits. *)
Lemma rmatch_digits k s q :
  q ∈ rmatch (Rep 1 3 Digit) (k, s) <->
  exists a,
    s = a +:+ q.2 /\ is_octet_text a = true /\ q.1 = (str_length a + k)%nat.
Proof.
  cbn [rmatch]. change (rev (seq 1 (3 - 1 + 1))) with [3%nat; 2%nat; 1%nat].
  change (rev (seq 1 (4 - 1))) with [3%nat; 2%nat; 1%nat].
  cbn [flat_map]. rewrite !iterate_digit, app_nil_r. unfold is_octet_text.
  rewrite !elem_of_app. split.
  - intros H.
    assert (exists n, (1 <= n <= 3)%nat /\ take_digits n s = Some q.2 /\
                      q.1 = (n + k)%nat) as (n & Hn & Ht & Hq).
    { destruct H as [H|[H|H]].
      - exists 3%nat. destruct (take_digits 3 s); [|by apply elem_of_nil in H].
        apply list_elem_of_singleton in H as ->. simpl. split; [lia|done].
      - exists 2%nat. destruct (take_digits 2 s); [|by apply elem_of_nil in H].
        apply list_elem_of_singleton in H as ->. simpl. split; [lia|done].
      - exists 1%nat. destruct (take_digits 1 s); [|by apply elem_of_nil in H].
        apply list_elem_of_singleton in H as ->. simpl. split; [lia|done]. }
    apply take_digits_split in Ht as (a & -> & Ha & <-). exists a.
    split; [done|]. split; [|done].
    apply andb_true_intro. split; [apply andb_true_intro; split; [done|]|];
      apply Nat.leb_le; lia.
  - intros (a & Hs & Hoct & Hq).
    apply andb_prop in Hoct as [Hoct Hhi]. apply andb_prop in Hoct as [Ha Hlo].
    apply Nat.leb_le in Hhi, Hlo.
    assert (Ht : take_digits (str_length a) s = Some q.2)
      by (apply take_digits_split; eauto).
    destruct q as [k' rest]. cbn [fst snd] in *. subst k'.
    destruct (str_length a) as [|[|[|[|n]]]] eqn:Hlen; try lia;
      rewrite Ht; rewrite list_elem_of_singleton; auto.
Qed.

Lemma elem_of_flat_map {A B} (f : A -> list B) l y :
  y ∈ flat_map f l <-> exists x, x ∈ l /\ y ∈ f x.
Proof.
  rewrite list_elem_of_In, in_flat_map. split.
  - intros (x & Hx & Hy). exists x. by rewrite !list_elem_of_In.
  - intros (x & Hx & Hy). exists x. by rewrite <- !list_elem_of_In.
Qed.

Lemma rmatch_chr c k s q :
  q ∈ rmatch (Chr c) (k, s) <-> s = StrCons c q.2 /\ q.1 = S k.
Proof.
  cbn [rmatch fst snd]. destruct s as [|c' s].
  - split; [by rewrite elem_of_nil | by intros [? _]].
  - destruct (N.eqb_spec c' c) as [->|Hne].
    + rewrite list_elem_of_singleton. split.
      * by intros ->.
      * intros [[= ->] Hq]. destruct q. simpl in *. by subst.
    + split; [by rewrite elem_of_nil|]. intros [[= -> _] _]. done.
Qed.

(** [\d{1,3}\.] *)
Lemma rmatch_group k s q :
  q ∈ rmatch (Cat (Rep 1 3 Digit) (Chr dot)) (k, s) <->
  exists a,
    s = a +:+ "." +:+ q.2 /\ is_octet_text a = true /\
    q.1 = S (str_length a + k).
Proof.
  cbn [rmatch]. rewrite elem_of_flat_map. split.
  - intros ([k1 s1] & (a & -> & Ha & Hk1)%rmatch_digits & Hq).
    apply rmatch_chr in Hq as [Hs1 Hq]. simpl in *. subst.
    exists a. by rewrite Hq.
  - intros (a & -> & Ha & Hq).
    exists ((str_length a + k)%nat, "." +:+ q.2). split.
    + apply rmatch_digits. eauto.
    + by apply rmatch_chr.
Qed.

Lemma rmatch_eol p q :
  q ∈ rmatch Eol p <-> q = p /\ (p.2 = "" \/ p.2 = newline).
Proof.
  cbn [rmatch]. destruct p as [k [|c [|c' s]]]; cbn [snd].
  - rewrite list_elem_of_singleton.
    split; [intros ->; split; [done | by left] | by intros [-> _]].
  - destruct (N.eqb_spec c line_feed) as [->|Hne].
    + rewrite list_elem_of_singleton.
      split; [intros ->; split; [done | by right] | by intros [-> _]].
    + split; [by rewrite elem_of_nil|].
      intros [_ [|[= ->]]]; done.
  - split; [by rewrite elem_of_nil|]. by intros [_ [|]].
Qed.

Lemma rmatch_cat r1 r2 p q :
  q ∈ rmatch (Cat r1 r2) p <-> exists m, m ∈ rmatch r1 p /\ q ∈ rmatch r2 m.
Proof. cbn [rmatch]. apply elem_of_flat_map. Qed.

Lemma rmatch_bol s q : q ∈ rmatch Bol (O, s) <-> q = (O, s).
Proof. cbn [rmatch fst]. apply list_elem_of_singleton. Qed.

Lemma rmatch_thrice r p q :
  q ∈ rmatch (Rep 3 3 r) p <->
  exists p1 p2, p1 ∈ rmatch r p /\ p2 ∈ rmatch r p1 /\ q ∈ rmatch r p2.
Proof.
  cbn [rmatch]. change (rev (seq 3 (4 - 3))) with [3%nat].
  cbn [flat_map iterate]. rewrite app_nil_r, elem_of_flat_map.
  split.
  - intros (p1 & H1 & H). apply elem_of_flat_map in H as (p2 & H2 & H).
    apply elem_of_flat_map in H as (p3 & H3 & ->%list_elem_of_singleton).
    eauto.
  - intros (p1 & p2 & H1 & H2 & H3). exists p1. split; [done|].
    apply elem_of_flat_map. exists p2. split; [done|].
    apply elem_of_flat_map. exists q. split; [done|].
    by apply list_elem_of_singleton.
Qed.

(** What [re.match] accepts for the pattern: four groups of one to three
    digits with dots between them, then nothing or one newline. *)
Lemma ipv4_pattern_matches s :
  re_match IPV4_PATTERN s = true <->
  exists a b c d tail,
    s = a +:+ "." +:+ b +:+ "." +:+ c +:+ "." +:+ d +:+ tail /\
    is_octet_text a = true /\ is_octet_text b = true /\
    is_octet_text c = true /\ is_octet_text d = true /\
    (tail = "" \/ tail = newline).
Proof.
  assert (Hany : re_match IPV4_PATTERN s = true <->
                 exists q, q ∈ rmatch IPV4_PATTERN (O, s)).
  { unfold re_match. destruct (rmatch _ _) as [|q l].
    - split; [done|]. by intros (q & ?%elem_of_nil).
    - split; [|done]. intros _. exists q. by left. }
  rewrite Hany. clear Hany. unfold IPV4_PATTERN. split.
  - intros (q & Hq).
    apply rmatch_cat in Hq as (p0 & ->%rmatch_bol & Hq).
    apply rmatch_cat in Hq as ([k3 s3] & Hgroups & Hq).
    apply rmatch_thrice in Hgroups as ([k1 s1] & [k2 s2] & H1 & H2 & H3).
    apply rmatch_group in H1 as (a & -> & Ha & _).
    apply rmatch_group in H2 as (b & Hs1 & Hb & _).
    apply rmatch_group in H3 as (c & Hs2 & Hc & _).
    apply rmatch_cat in Hq as ([k4 s4] & H4 & Hq).
    apply rmatch_digits in H4 as (d & Hs3 & Hd & _).
    apply rmatch_eol in Hq as [_ Htail]. cbn [fst snd] in *. subst.
    exists a, b, c, d, s4. done.
  - intros (a & b & c & d & tail & -> & Ha & Hb & Hc & Hd & Htail).
    set (k1 := S (str_length a + 0)).
    set (k2 := S (str_length b + k1)).
    set (k3 := S (str_length c + k2)).
    exists ((str_length d + k3)%nat, tail).
    apply rmatch_cat. eexists. split; [by apply rmatch_bol|].
    apply rmatch_cat. exists (k3, d +:+ tail). split.
    + apply rmatch_thrice.
      exists (k1, b +:+ "." +:+ c +:+ "." +:+ d +:+ tail),
        (k2, c +:+ "." +:+ d +:+ tail).
      rewrite !rmatch_group. cbn [fst snd].
      split; [by exists a|]. split; [by exists b | by exists c].
    + apply rmatch_cat. exists ((str_length d + k3)%nat, tail). split.
      * apply rmatch_digits. cbn [fst snd]. eauto.
      * apply rmatch_eol. done.
Qed.

Lemma split_group a rest :
  all_digits a = true -> split dot (a +:+ "." +:+ rest) = a :: split dot rest.
Proof.
  induction a as [|c a IH]; intros Ha; [done|]. simpl in Ha.
  apply andb_prop in Ha as [Hc Ha].
  change (StrCons c a +:+ "." +:+ rest) with (StrCons c (a +:+ "." +:+ rest)).
  cbn [split]. by rewrite (digit_not_dot _ Hc), (IH Ha).
Qed.

Lemma split_last d tail :
  all_digits d = true -> tail = "" \/ tail = newline ->
  split dot (d +:+ tail) = [d +:+ tail].
Proof.
  intros Hd Htail. induction d as [|c d IH]; [by destruct Htail as [-> | ->]|].
  simpl in Hd. apply andb_prop in Hd as [Hc Hd].
  change (StrCons c d +:+ tail) with (StrCons c (d +:+ tail)).
  cbn [split]. by rewrite (digit_not_dot _ Hc), (IH Hd).
Qed.

Section Stripping.
Context (space : N -> bool).
Context (Hdigit : forall c, is_digit c = true -> space c = false).
Context (Hfeed : space line_feed = true).

Lemma rstrip_digits d tail :
  all_digits d = true -> tail = "" \/ tail = newline ->
  rstrip_by space (d +:+ tail) = d.
Proof.
  intros Hd Htail. induction d as [|c d IH].
  - destruct Htail as [-> | ->]; [done|]. cbn. by rewrite Hfeed.
  - simpl in Hd. apply andb_prop in Hd as [Hc Hd].
    change (StrCons c d +:+ tail) with (StrCons c (d +:+ tail)).
    cbn [rstrip_by]. rewrite (IH Hd), (Hdigit _ Hc).
    by destruct d.
Qed.

Lemma strip_digits d tail :
  all_digits d = true -> tail = "" \/ tail = newline ->
  d <> "" -> strip_by space (d +:+ tail) = d.
Proof.
  intros Hd Htail Hne. unfold strip_by. destruct d as [|c d]; [done|].
  pose proof Hd as Hd'. simpl in Hd'. apply andb_prop in Hd' as [Hc _].
  change (StrCons c d +:+ tail) with (StrCons c (d +:+ tail)).
  cbn [lstrip_by]. rewrite (Hdigit _ Hc).
  by apply (rstrip_digits (StrCons c d)).
Qed.

End Stripping.

Lemma parse_digits_all acc after_digit a :
  all_digits a = true -> a <> "" \/ after_digit = true ->
  parse_digits acc after_digit a = Some (decimal_from acc a).
Proof.
  revert acc after_digit. induction a as [|c a IH]; intros acc b Ha Hb.
  - by destruct Hb as [Hb | ->].
  - simpl in Ha. apply andb_prop in Ha as [Hc Ha]. cbn [parse_digits].
    rewrite Hc. apply IH; auto.
Qed.

Lemma count_digits_all a : all_digits a = true -> count_digits a = str_length a.
Proof.
  induction a as [|c a IH]; [done|]. simpl. intros [Hc Ha]%andb_prop.
  by rewrite Hc, (IH Ha).
Qed.

(** [int] of a group of digits, possibly followed by the final newline. *)
Lemma int_of_octet d tail :
  is_octet_text d = true -> tail = "" \/ tail = newline ->
  int_of_string (d +:+ tail) = Ok (decimal d).
Proof.
  unfold is_octet_text. intros [[Hd Hlo%Nat.leb_le]%andb_prop Hhi%Nat.leb_le]%andb_prop.
  intros Htail. unfold int_of_string.
  assert (Hne : d <> "") by (intros ->; simpl in Hlo; lia).
  rewrite (strip_digits is_int_space digit_not_int_space eq_refl _ _ Hd Htail Hne).
  destruct d as [|c d]; [done|].
  pose proof Hd as Hd'. simpl in Hd'. apply andb_prop in Hd' as [Hc _].
  rewrite (digit_is_not minus_sign c eq_refl Hc),
    (digit_is_not plus_sign c eq_refl Hc). cbn [fst snd].
  rewrite (parse_digits_all _ _ _ Hd) by (by left).
  rewrite (count_digits_all _ Hd).
  replace (int_max_str_digits <? str_length (StrCons c d))%nat with false; [done|].
  symmetry. apply Nat.ltb_ge. unfold int_max_str_digits. lia.
Qed.

Lemma decimal_from_nonneg acc a :
  all_digits a = true -> 0 <= acc -> 0 <= decimal_from acc a.
Proof.
  revert acc. induction a as [|c a IH]; intros acc Ha Hacc; [done|].
  simpl in Ha. apply andb_prop in Ha as [Hc Ha]. cbn [decimal_from].
  apply IH; [done|]. pose proof (digit_value_range c). lia.
Qed.

Lemma octet_text_digits a :
  is_octet_text a = true -> all_digits a = true /\ a <> "".
Proof.
  unfold is_octet_text. intros H. apply andb_prop in H as [H _].
  apply andb_prop in H as [Ha Hlen]. split; [done|]. by intros ->.
Qed.

Lemma append_empty_r (s : str) : s +:+ "" = s.
Proof.
  induction s as [|c s IH]; [done|].
  change (StrCons c s +:+ "") with (StrCons c (s +:+ "")). by rewrite IH.
Qed.

(** What the validator answers on a string of the accepted shape. *)
Lemma validator_on_shape a b c d tail :
  is_octet_text a = true -> is_octet_text b = true ->
  is_octet_text c = true -> is_octet_text d = true ->
  tail = "" \/ tail = newline ->
  is_valid_public_ipv4 (a +:+ "." +:+ b +:+ "." +:+ c +:+ "." +:+ d +:+ tail)
  = Ok (quad_is_public (decimal a) (decimal b) (decimal c) (decimal d)).
Proof.
  intros Ha Hb Hc Hd Htail. unfold is_valid_public_ipv4.
  assert (Hm : re_match IPV4_PATTERN
                 (a +:+ "." +:+ b +:+ "." +:+ c +:+ "." +:+ d +:+ tail) = true).
  { apply ipv4_pattern_matches. exists a, b, c, d, tail. done. }
  rewrite Hm. cbn [negb].
  pose proof (int_of_octet a "" Ha (or_introl eq_refl)) as Hia.
  pose proof (int_of_octet b "" Hb (or_introl eq_refl)) as Hib.
  pose proof (int_of_octet c "" Hc (or_introl eq_refl)) as Hic.
  pose proof (int_of_octet d tail Hd Htail) as Hid.
  apply octet_text_digits in Ha as [Ha Hna], Hb as [Hb Hnb],
    Hc as [Hc Hnc], Hd as [Hd Hnd].
  rewrite !split_group, split_last by done. cbn [map_result].
  rewrite append_empty_r in Hia, Hib, Hic.
  rewrite Hia, Hib, Hic, Hid.
  pose proof (decimal_from_nonneg 0 a Ha ltac:(done)).
  pose proof (decimal_from_nonneg 0 b Hb ltac:(done)).
  pose proof (decimal_from_nonneg 0 c Hc ltac:(done)).
  pose proof (decimal_from_nonneg 0 d Hd ltac:(done)).
  fold (decimal a) (decimal b) (decimal c) (decimal d) in *.
  unfold quad_is_public. cbn [existsb].
  repeat match goal with
         | |- context [(?x <? ?y)%Z] => destruct (Z.ltb_spec x y); try lia
         | |- context [(?x <=? ?y)%Z] => destruct (Z.leb_spec x y); try lia
         | |- context [(?x =? ?y)%Z] => destruct (Z.eqb_spec x y); try lia
         end; cbn; try done.
Qed.

Lemma quad_is_public_spec o1 o2 o3 o4 :
  quad_is_public o1 o2 o3 o4 = true <->
  o1 <= 255 /\ o2 <= 255 /\ o3 <= 255 /\ o4 <= 255 /\
  ~ in_private_ranges o1 o2.
Proof.
  unfold quad_is_public, in_private_ranges.
  rewrite !andb_true_iff, negb_true_iff, !orb_false_iff, !andb_false_iff,
    !Z.leb_le, !Z.eqb_neq, !Z.leb_gt.
  lia.
Qed.

(** The validator never raises. *)
Lemma validator_total s : exists b, is_valid_public_ipv4 s = Ok b.
Proof.
  destruct (re_match IPV4_PATTERN s) eqn:Hm.
  - apply ipv4_pattern_matches in Hm
      as (a & b & c & d & tail & -> & Ha & Hb & Hc & Hd & Htail).
    eexists. by apply validator_on_shape.
  - exists false. unfold is_valid_public_ipv4. by rewrite Hm.
Qed.

(** Exactly what the validator accepts: four groups of one to three digits,
    dots between them, an optional final newline, every group at most 255
    and the address outside the four ranges. *)
Theorem validator_accepts_iff s :
  is_valid_public_ipv4 s = Ok true <->
  exists a b c d tail,
    s = a +:+ "." +:+ b +:+ "." +:+ c +:+ "." +:+ d +:+ tail /\
    (tail = "" \/ tail = newline) /\
    is_octet_text a = true /\ is_octet_text b = true /\
    is_octet_text c = true /\ is_octet_text d = true /\
    decimal a <= 255 /\ decimal b <= 255 /\
    decimal c <= 255 /\ decimal d <= 255 /\
    ~ in_private_ranges (decimal a) (decimal b).
Proof.
  split.
  - intros Hvalid. destruct (re_match IPV4_PATTERN s) eqn:Hm.
    + apply ipv4_pattern_matches in Hm
        as (a & b & c & d & tail & -> & Ha & Hb & Hc & Hd & Htail).
      rewrite validator_on_shape in Hvalid by done.
      injection Hvalid as Hq. apply quad_is_public_spec in Hq.
      exists a, b, c, d, tail. tauto.
    + unfold is_valid_public_ipv4 in Hvalid. by rewrite Hm in Hvalid.
  - intros (a & b & c & d & tail & -> & Htail & Ha & Hb & Hc & Hd & Hrange).
    rewrite validator_on_shape by done. f_equal.
    apply quad_is_public_spec. tauto.
Qed.

Example accepts_public_address : is_valid_public_ipv4 "203.0.113.5" = Ok true.
Proof. vm_compute. reflexivity. Qed.

Example accepts_leading_zeros : is_valid_public_ipv4 "008.08.8.8" = Ok true.
Proof. vm_compute. reflexivity. Qed.

Example accepts_above_private_block : is_valid_public_ipv4 "172.32.0.1" = Ok true.
Proof. vm_compute. reflexivity. Qed.

Example rejects_what_it_should :
  Forall (fun ip => is_valid_public_ipv4 ip = Ok false)
    [ "10.1.2.3"; "127.0.0.1"; "172.16.0.1"; "172.31.255.255"; "192.168.1.1";
      "256.1.1.1"; "1.2.3"; "1.2.3.4.5"; "1.2.3.4 "; " 1.2.3.4"; "a.b.c.d";
      "1..2.3"; "0008.8.8.8"; "+8.8.8.8"; "8.8.8.8." ; "" ].
Proof. repeat constructor. Qed.

Example int_of_string_samples :
  int_of_string " +1_000 " = Ok 1000
  /\ int_of_string "-07" = Ok (-7)
  /\ int_of_string "1__0" = Raise ValueError
  /\ int_of_string "+ 5" = Raise ValueError
  /\ int_of_string "" = Raise ValueError.
Proof. vm_compute. done. Qed.

(** The digits are those of Unicode: [\d] matches them and [int] reads
    them, so an address in fullwidth or Arabic-Indic digits is accepted. *)
Example accepts_digits_of_any_script :
  is_valid_public_ipv4
    (of_code_points [0xff18; 0x2e; 0xff18; 0x2e; 0xff18; 0x2e; 0xff18]%N)
  = Ok true
  /\ is_valid_public_ipv4
       (of_code_points [0x661; 0x2e; 0x662; 0x2e; 0x663; 0x2e; 0x664]%N)
     = Ok true
  /\ is_valid_public_ipv4
       (of_code_points [0xff11; 0xff10; 0x2e; 0x31; 0x2e; 0x31; 0x2e; 0x31]%N)
     = Ok false.
Proof. vm_compute. done. Qed.

(** [int] does not strip the separators U+001C to U+001F, which [strip]
    removes, and refuses more than 4300 digits. *)
Example int_of_string_limits :
  int_of_string (StrCons 0x1c "5") = Raise ValueError
  /\ strip (StrCons 0x1c "5") = "5"
  /\ int_of_string (of_code_points (repeat 0x31%N 4300)) <> Raise ValueError
  /\ int_of_string (of_code_points (repeat 0x31%N 4301)) = Raise ValueError.
Proof. vm_compute. repeat split; done. Qed.

(** C4, at the failing input: the pattern's [$] also matches before a final
    newline and [int] ignores it, so a string that is not a dotted quad is
    accepted. *)
Theorem validator_accepts_trailing_newline :
  is_valid_public_ipv4 ("8.8.8.8" +:+ newline) = Ok true.
Proof. vm_compute. reflexivity. Qed.

Lemma str_eqb_refl s : str_eqb s s = true.
Proof. induction s as [|c s IH]; [done|]. simpl. by rewrite N.eqb_refl, IH. Qed.

Lemma str_eqb_eq s t : str_eqb s t = true <-> s = t.
Proof.
  split; [|intros ->; apply str_eqb_refl]. revert t.
  induction s as [|c s IH]; intros [|d t]; simpl; try done.
  intros [->%N.eqb_eq ->%IH]%andb_prop. done.
Qed.

(* ================================================================== *)
(** ** The resolver *)

Lemma after_trace s evs : trace (after s evs) = trace s ++ evs.
Proof. reflexivity. Qed.

Lemma after_after s e1 e2 : after (after s e1) e2 = after s (e1 ++ e2).
Proof. unfold after; simpl. by rewrite app_assoc. Qed.

Lemma after_nil s : after s [] = s.
Proof. destruct s. unfold after; simpl. by rewrite app_nil_r. Qed.

Lemma length_after_one s ev : length (trace (after s [ev])) = S (length (trace s)).
Proof. simpl. rewrite length_app. simpl. lia. Qed.

Lemma http_run env r s :
  http env r s = (urlopen env (length (trace s)) r, after s [Request r]).
Proof. reflexivity. Qed.

Lemma probe_run env url s :
  probe env url s
  = (answer env (length (trace s)) url, after s [Request (ip_request url)]).
Proof.
  unfold probe, answer. run. rewrite http_run.
  by destruct (urlopen env _ _).
Qed.

(** The validator accepted exactly the stripped body of the response. *)
Lemma answer_accepted env t url ip :
  answer env t url = Ok (Some ip) <->
  exists resp text,
    urlopen env t (ip_request url) = Ok resp /\ body_text resp = Ok text /\
    ip = strip text /\ is_valid_public_ipv4 ip = Ok true.
Proof.
  unfold answer, read_ip. run. split.
  - destruct (urlopen env t _) as [resp|]; [|done].
    destruct (body_text resp) as [text|] eqn:Ht; [|done].
    destruct (is_valid_public_ipv4 (strip text)) as [[]|] eqn:Hv; [|done..].
    intros [= <-]. eauto 6.
  - intros (resp & text & -> & -> & -> & ->). done.
Qed.

Lemma last_raised_cons r outcomes :
  last_raised (r :: outcomes)
  = match last_raised outcomes with
    | Some e => Some e
    | None => match r with Raise e => Some e | Ok _ => None end
    end.
Proof.
  unfold last_raised. destruct r as [o|e]; simpl.
  - by destruct (last _).
  - by rewrite last_cons.
Qed.

(** Unusable endpoints are each queried once, in order, and only the
    exception of the last one that raised is remembered. *)
Lemma query_skip env (before rest : list str) last_error s :
  Forall unusable (answers env (length (trace s)) before) ->
  query env (before ++ rest) last_error s
  = query env rest
      (match last_raised (answers env (length (trace s)) before) with
       | Some e => Some e
       | None => last_error
       end)
      (after s (Request ∘ ip_request <$> before)).
Proof.
  revert last_error s.
  induction before as [|url before IH]; intros last_error s Hbad.
  - simpl. by rewrite after_nil.
  - simpl in Hbad. apply Forall_cons in Hbad as [Hurl Hbad].
    change ((url :: before) ++ rest) with (url :: (before ++ rest)).
    cbn [query]. rewrite probe_run.
    rewrite <- (length_after_one s (Request (ip_request url))) in Hbad.
    cbn [answers]. rewrite last_raised_cons.
    destruct (answer env (length (trace s)) url) as [[ip|]|e]; [done| |];
      rewrite (IH _ _ Hbad), after_after, length_after_one;
      by destruct (last_raised _).
Qed.

Lemma answers_take env t k us :
  take k (answers env t us) = answers env t (take k us).
Proof.
  revert t k. induction us as [|u us IH]; intros t [|k]; simpl; auto.
  by rewrite IH.
Qed.

Lemma answers_lookup env t k us r :
  answers env t us !! k = Some r ->
  exists url, us !! k = Some url /\ r = answer env (t + k) url.
Proof.
  revert t k. induction us as [|u us IH]; intros t [|k]; simpl; try done.
  - intros [= <-]. exists u. by rewrite Nat.add_0_r.
  - intros H. apply IH in H as (url & ? & ->). exists url.
    split; [done|]. f_equal. lia.
Qed.

(** C5. Ordered fallback of the resolver.  For every list of endpoints and
    every way the environment answers them: when the first [k] endpoints
    each raise or return a value the validator rejects and the next one
    returns an accepted address, the resolver returns that address, having
    queried exactly the first [k+1] endpoints once each in order and none
    after them; when every endpoint is unusable, the resolver has queried
    each once and raises the error that carries the exception of the last
    endpoint that raised.  [get_current_ip] is [query] on [methods]. *)
Theorem resolver_ordered_fallback env (urls : list str) (s : state) :
  let outcomes := answers env (length (trace s)) urls in
  (forall k ip,
     outcomes !! k = Some (Ok (Some ip)) ->
     Forall unusable (take k outcomes) ->
     query env urls None s
     = (Ok ip, after s (Request ∘ ip_request <$> take (S k) urls)))
  /\ (Forall unusable outcomes ->
      query env urls None s
      = (Raise (NoPublicIP (last_raised outcomes)),
         after s (Request ∘ ip_request <$> urls))).
Proof.
  intros outcomes. split.
  - intros k ip Hk Hbad. subst outcomes.
    apply answers_lookup in Hk as (url & Hurl & Hans).
    rewrite answers_take in Hbad.
    rewrite <- (take_drop_middle urls k url Hurl) at 1.
    rewrite (query_skip _ _ _ _ _ Hbad). cbn [query]. rewrite probe_run.
    rewrite after_trace, length_app, length_fmap, length_take.
    apply lookup_lt_Some in Hurl as Hlt.
    replace (k `min` length urls)%nat with k by lia.
    rewrite <- Hans, after_after. do 2 f_equal.
    rewrite (take_S_r _ _ _ Hurl), fmap_app. done.
  - intros Hbad. subst outcomes.
    rewrite <- (app_nil_r urls) at 1.
    rewrite (query_skip _ _ _ _ _ Hbad). simpl.
    by destruct (last_raised _).
Qed.

(* ================================================================== *)
(** ** The provider client *)

Lemma dict_item_Some (d : gmap str json) k v :
  d !! k = Some v -> dict_item d k = Ok v.
Proof. unfold dict_item. by intros ->. Qed.

Lemma dict_item_ok (d : gmap str json) k v :
  dict_item d k = Ok v -> d !! k = Some v.
Proof. unfold dict_item. destruct (d !! k); [by intros [= ->] | done]. Qed.

Lemma dict_get_Some (d : gmap str json) k v :
  d !! k = Some v -> dict_get d k = v.
Proof. unfold dict_get. by intros ->. Qed.

Lemma cloudflare_request_run env cfg token method url data s :
  cfg !! "cloudflare_api_token" = Some token ->
  cloudflare_request env cfg method url data s
  = (urlopen env (length (trace s)) (api_request token method url data)
       ≫= body_json,
     after s [Request (api_request token method url data)]).
Proof.
  intros Htok. unfold cloudflare_request.
  rewrite (lift_ok _ _ _ _ (dict_item_Some _ _ _ Htok)).
  run. rewrite http_run. by destruct (urlopen env _ _).
Qed.

Lemma get_cloudflare_record_run env cfg token zone name s :
  cfg !! "cloudflare_api_token" = Some token ->
  cfg !! "zone_id" = Some zone ->
  cfg !! "record_name" = Some name ->
  get_cloudflare_record env cfg s
  = ((urlopen env (length (trace s))
        (api_request token "GET" (record_url zone name) None)
        ≫= body_json) ≫= first_record,
     after s [Request (api_request token "GET" (record_url zone name) None)]).
Proof.
  intros Htok Hzone Hname. unfold get_cloudflare_record.
  rewrite (lift_ok _ _ _ _ (dict_item_Some _ _ _ Hzone)).
  rewrite (lift_ok _ _ _ _ (dict_item_Some _ _ _ Hname)).
  run. rewrite (cloudflare_request_run _ _ _ _ _ _ _ Htok). run.
  destruct (urlopen env _ _) as [resp|]; [|done].
  by destruct (body_json resp).
Qed.

Lemma update_cloudflare_dns_run env cfg token zone name id ip proxied s :
  cfg !! "cloudflare_api_token" = Some token ->
  cfg !! "zone_id" = Some zone ->
  cfg !! "record_name" = Some name ->
  let req := api_request token "PUT" (update_url zone id)
               (Some (update_payload name ip proxied)) in
  update_cloudflare_dns env cfg id ip proxied s
  = (data ← urlopen env (length (trace s)) req ≫= body_json;
     success ← py_get data "success";
     Ok (truthy success),
     after s [Request req]).
Proof.
  intros Htok Hzone Hname req. unfold update_cloudflare_dns.
  rewrite (lift_ok _ _ _ _ (dict_item_Some _ _ _ Hzone)).
  rewrite (lift_ok _ _ _ _ (dict_item_Some _ _ _ Hname)).
  run. rewrite (cloudflare_request_run _ _ _ _ _ _ _ Htok). run.
  fold req. destruct (urlopen env _ req) as [resp|]; [|done].
  destruct (body_json resp) as [data|]; [|done].
  by destruct (py_get data "success").
Qed.

(** What [first_record] does on a listing of the documented shape. *)
Lemma first_record_listing data :
  is_listing data = true ->
  first_record data
  = if reports_success data
    then match records_of data with
         | rec :: _ =>
             match triple_of rec with
             | Some t => Ok t
             | None => Raise RecordNotFound
             end
         | [] => Raise RecordNotFound
         end
    else Raise RecordNotFound.
Proof.
  destruct data as [| | | | | |d]; try done. intros Hshape.
  unfold first_record, reports_success, records_of. simpl in *. run. simpl.
  destruct (truthy (dict_get (fields d) "success")); simpl; [|done].
  unfold dict_item, dict_get in *.
  destruct (fields d !! "result") as [[| | | | |records|]|] eqn:Hres; simpl in *;
    try done.
  destruct records as [|rec rest]; simpl in *; [done|].
  apply andb_prop in Hshape as [Hrec _].
  destruct rec as [| | | | | |r]; try done. simpl in *.
  apply andb_prop in Hrec as [Hrec Hp]. apply andb_prop in Hrec as [Hi Hc].
  apply bool_decide_eq_true in Hi as [? Hi], Hc as [? Hc], Hp as [? Hp].
  unfold dict_item. rewrite Hi, Hc, Hp. simpl. done.
Qed.

Lemma is_record_triple rec : is_record rec = true -> is_Some (triple_of rec).
Proof.
  destruct rec as [| | | | | |r]; try done. simpl. intros H.
  apply andb_prop in H as [H Hp]. apply andb_prop in H as [Hi Hc].
  apply bool_decide_eq_true in Hi as [? ->], Hc as [? ->], Hp as [? ->].
  simpl. eauto.
Qed.

Lemma is_listing_head data rec rest :
  is_listing data = true -> records_of data = rec :: rest ->
  is_record rec = true.
Proof.
  destruct data as [| | | | | |d]; try done. simpl.
  destruct (dict_get (fields d) "result") as [| | | | |records|]; try done.
  intros H ->. simpl in H. by apply andb_prop in H as [? _].
Qed.

(** C9. Result and failure condition of [get_cloudflare_record].  When the
    configuration holds the three identity fields and the provider's answer
    decodes to a listing of the documented shape, the function sends the one
    listing request and: returns the (id, content, proxied) of the first
    record when the listing reports success and its result list is not
    empty; raises "record not found" exactly when the listing does not report
    success or its result list is empty. *)
Theorem fetch_record_result env cfg s token zone name resp data :
  cfg !! "cloudflare_api_token" = Some token ->
  cfg !! "zone_id" = Some zone ->
  cfg !! "record_name" = Some name ->
  urlopen env (length (trace s))
    (api_request token "GET" (record_url zone name) None) = Ok resp ->
  body_json resp = Ok data ->
  is_listing data = true ->
  let outcome := (get_cloudflare_record env cfg s).1 in
  (forall rec rest,
     reports_success data = true -> records_of data = rec :: rest ->
     exists triple, triple_of rec = Some triple /\ outcome = Ok triple)
  /\ (outcome = Raise RecordNotFound <->
      reports_success data = false \/ records_of data = [])
  /\ (get_cloudflare_record env cfg s).2
     = after s [Request (api_request token "GET" (record_url zone name) None)].
Proof.
  intros Htok Hzone Hname Hresp Hdata Hshape outcome. subst outcome.
  rewrite (get_cloudflare_record_run _ _ _ _ _ _ Htok Hzone Hname).
  rewrite Hresp. simpl. run. rewrite Hdata.
  rewrite (first_record_listing _ Hshape). split; [|split; [|done]].
  - intros rec rest -> Hrecs. rewrite Hrecs.
    destruct (is_record_triple rec) as [t Ht];
      [by eapply is_listing_head|].
    exists t. by rewrite Ht.
  - destruct (reports_success data); [|by split; auto].
    destruct (records_of data) as [|rec rest] eqn:Hrecs; [by split; auto|].
    destruct (is_record_triple rec) as [t Ht];
      [by eapply is_listing_head|].
    rewrite Ht. split; [done | by intros [|]].
Qed.

(* ================================================================== *)
(** ** Configuration *)

Lemma map_result_raises {A B} (f : A -> result B) xs x :
  x ∈ xs -> is_ok (f x) = false -> is_ok (map_result f xs) = false.
Proof.
  induction xs as [|y xs IH]; intros Hin Hx; [by apply elem_of_nil in Hin|].
  apply elem_of_cons in Hin as [<-|Hin]; simpl.
  - by destruct (f x).
  - destruct (f y); [|done]. specialize (IH Hin Hx).
    by destruct (map_result f xs).
Qed.

Lemma or_empty_list_arr items : or_empty_list (JArr items) = JArr items.
Proof. by destruct items. Qed.

(** A loaded configuration is the file's object over the defaults, with the
    notification targets replaced by a list of integers. *)
Lemma load_config_ok file cfg :
  load_config file = Ok cfg ->
  exists raw ids,
    file = Parsed (JObj raw) /\
    check_required (fields raw ∪ defaults) required_keys = Ok tt /\
    cfg = <["telegram_chat_ids" := JArr (JInt <$> ids)]> (fields raw ∪ defaults).
Proof.
  destruct file as [| |[| | | | | |raw]]; try done. unfold load_config. run.
  destruct (check_required (fields raw ∪ defaults) required_keys) as [[]|] eqn:Hreq;
    [|done].
  destruct (py_iter _) as [targets|]; [|done].
  destruct (map_result py_int targets) as [ids|]; [|done].
  intros [= <-]. eauto.
Qed.

Lemma load_config_targets file cfg :
  load_config file = Ok cfg ->
  exists ids, cfg !! "telegram_chat_ids" = Some (JArr (JInt <$> ids)).
Proof.
  intros (raw & ids & _ & _ & ->)%load_config_ok. exists ids.
  apply lookup_insert_eq.
Qed.

(** C10. Notification targets at configuration load.  For every
    configuration object whose target list holds an entry that [int] does
    not convert, [load_config] raises, and so does [main] before its first
    tick; when the target list is absent or null and the required keys are
    there, [load_config] succeeds with the targets normalized to the empty
    list. *)
Theorem load_config_notification_targets (raw : list (str * json)) :
  (forall targets x,
     fields raw !! "telegram_chat_ids" = Some (JArr targets) ->
     x ∈ targets -> is_ok (py_int x) = false ->
     is_ok (load_config (Parsed (JObj raw))) = false
     /\ forall env n,
          exists e, main env (Parsed (JObj raw)) n = (Raise e, initial_state))
  /\ (fields raw !! "telegram_chat_ids" = None \/
      fields raw !! "telegram_chat_ids" = Some JNull ->
      check_required (fields raw ∪ defaults) required_keys = Ok tt ->
      load_config (Parsed (JObj raw))
      = Ok (<["telegram_chat_ids" := JArr []]> (fields raw ∪ defaults))).
Proof.
  split.
  - intros targets x Hraw Hin Hbad.
    assert (Hload : is_ok (load_config (Parsed (JObj raw))) = false).
    { unfold load_config. run.
      destruct (check_required (fields raw ∪ defaults) required_keys) as [[]|];
        [|done].
      rewrite (dict_get_Some _ _ (JArr targets)), or_empty_list_arr
        by (by apply lookup_union_Some_l).
      simpl. pose proof (map_result_raises py_int targets x Hin Hbad).
      by destruct (map_result py_int targets). }
    split; [done|]. intros env n. unfold main.
    destruct (load_config _) as [|e]; [done|]. by exists e.
  - intros Hraw Hreq. unfold load_config. run. rewrite Hreq.
    assert (Hget : or_empty_list (dict_get (fields raw ∪ defaults) "telegram_chat_ids")
                   = JArr []).
    { unfold dict_get. destruct Hraw as [Hraw|Hraw].
      - rewrite lookup_union_r by done. done.
      - by rewrite (lookup_union_Some_l _ _ _ _ Hraw). }
    rewrite Hget. done.
Qed.

(* ================================================================== *)
(** ** The notifier *)

(** A delivery always goes on to the next target, whatever the answer. *)
Lemma deliver_run env bot_token message chat_id s :
  deliver env bot_token message chat_id s
  = (Ok Next, after s [Request (telegram_request bot_token chat_id message)]).
Proof.
  unfold deliver. run. rewrite http_run.
  destruct (urlopen env _ _) as [resp|]; [|done].
  destruct (getcode resp =? 200)%Z; [done|].
  by destruct (body_text resp).
Qed.

Lemma deliver_all env bot_token message targets s :
  for_each targets (deliver env bot_token message) s
  = (Ok tt, after s ((fun chat_id =>
                        Request (telegram_request bot_token chat_id message))
                     <$> targets)).
Proof.
  revert s. induction targets as [|chat_id targets IH]; intros s; simpl.
  - run. by rewrite after_nil.
  - rewrite (bind_ok _ _ _ _ _ (deliver_run _ _ _ _ _)).
    by rewrite IH, after_after.
Qed.

Lemma send_telegram_message_gated env cfg message s :
  truthy (dict_get cfg "telegram_bot_token") = false \/
  truthy (or_empty_list (dict_get cfg "telegram_chat_ids")) = false ->
  send_telegram_message env cfg message s = (Ok tt, s).
Proof.
  intros H. unfold send_telegram_message.
  destruct H as [-> | ->]; [done|]. by rewrite orb_true_r.
Qed.

Lemma send_telegram_message_list env cfg message targets s :
  cfg !! "telegram_chat_ids" = Some (JArr targets) ->
  send_telegram_message env cfg message s
  = (Ok tt,
     after s
       (if truthy (dict_get cfg "telegram_bot_token")
        then (fun chat_id =>
                Request (telegram_request (dict_get cfg "telegram_bot_token")
                           chat_id message)) <$> targets
        else [])).
Proof.
  intros Hids. unfold send_telegram_message.
  rewrite (dict_get_Some _ _ _ Hids), or_empty_list_arr.
  destruct (truthy (dict_get cfg "telegram_bot_token")); simpl.
  - destruct targets as [|t targets]; simpl; [by rewrite after_nil|].
    rewrite (lift_ok _ _ _ (t :: targets)) by done. apply deliver_all.
  - by rewrite after_nil.
Qed.

(** C8. Contract of the notifier.  When either the bot token or the target
    list is missing, empty or otherwise falsy, [send_telegram_message]
    returns without touching the network, whatever the message.  On a loaded
    configuration it never raises, whatever the message and whatever each
    delivery meets: it sends one request per configured target, in order,
    each carrying the message, and returns normally. *)
Theorem notifier_contract env (cfg : gmap str json) (message : fstring) s :
  (truthy (dict_get cfg "telegram_bot_token") = false \/
   truthy (or_empty_list (dict_get cfg "telegram_chat_ids")) = false ->
   send_telegram_message env cfg message s = (Ok tt, s)
   /\ List.filter is_network_call
        (emitted (send_telegram_message env cfg message) s) = [])
  /\ (forall file,
        load_config file = Ok cfg ->
        exists ids,
          cfg !! "telegram_chat_ids" = Some (JArr (JInt <$> ids)) /\
          send_telegram_message env cfg message s
          = (Ok tt,
             after s
               (if truthy (dict_get cfg "telegram_bot_token")
                then (fun id =>
                        Request (telegram_request
                                   (dict_get cfg "telegram_bot_token")
                                   (JInt id) message)) <$> ids
                else []))).
Proof.
  split.
  - intros H. rewrite (send_telegram_message_gated _ _ _ _ H). split; [done|].
    unfold emitted. rewrite send_telegram_message_gated by done. simpl.
    by rewrite drop_all.
  - intros file (ids & Hids)%load_config_targets. exists ids.
    split; [done|]. rewrite (send_telegram_message_list _ _ _ _ _ Hids).
    by rewrite <- list_fmap_compose.
Qed.

(* ================================================================== *)
(** ** What each function may do to the state *)

#[global] Instance quiet_preorder P : PreOrder (quiet P).
Proof.
  split.
  - intros s. split; reflexivity.
  - intros s1 s2 s3 [L1 G1] [L2 G2]. split; etrans; eauto.
Qed.

Lemma quiet_after (P : event -> Prop) s evs : Forall P evs -> quiet P s (after s evs).
Proof. intros H. split; [done|]. by exists evs. Qed.

Lemma quiet_grew_by {A} P (m : M A) :
  respects (quiet P) m -> respects (grew_by P) m.
Proof. intros H s. apply H. Qed.

Lemma quiet_same_last_ip {A} P (m : M A) s :
  respects (quiet P) m -> last_ip (m s).2 = last_ip s.
Proof. intros H. apply H. Qed.

Ltac frame_step :=
  lazymatch goal with
  | |- PreOrder _ => apply _
  | |- respects _ (mret _) => apply respects_ret
  | |- respects _ (ret _) => apply respects_ret
  | |- respects _ (lift _) => apply respects_lift
  | |- respects _ (raise _) => apply respects_raise
  | |- respects _ (mbind _ _) => apply respects_bind; [| |intros ?]
  | |- respects _ (try_except _ _) => apply respects_try; [| |intros ?]
  | |- respects _ (for_each _ _) => apply respects_for_each; [|intros ?]
  | |- respects _ (if ?b then _ else _) => destruct b
  | |- respects _ (match ?x with _ => _ end) => destruct x
  end.

Ltac frame := repeat frame_step.

Section Quiet.
Context (env : environment) (P : event -> Prop).

Lemma http_quiet r : P (Request r) -> respects (quiet P) (http env r).
Proof. intros H s. rewrite http_run. apply quiet_after. by constructor. Qed.

Lemma time_sleep_quiet v : P (Sleep v) -> respects (quiet P) (time_sleep env v).
Proof.
  intros H s. unfold time_sleep. destruct (sleep_error env v); simpl.
  - reflexivity.
  - apply (quiet_after P s [Sleep v]). by constructor.
Qed.

Lemma query_quiet urls last_error :
  Forall (fun url => P (Request (ip_request url))) urls ->
  respects (quiet P) (query env urls last_error).
Proof.
  intros HP. revert last_error.
  induction HP as [|url urls Hurl _ IH]; intros last_error s.
  - reflexivity.
  - cbn [query]. rewrite probe_run.
    assert (quiet P s (after s [Request (ip_request url)]))
      by (apply quiet_after; by constructor).
    destruct (answer env _ url) as [[ip|]|e]; [done|..];
      (etrans; [eassumption | apply IH]).
Qed.

Lemma get_cloudflare_record_quiet cfg :
  (forall token zone name,
     P (Request (api_request token "GET" (record_url zone name) None))) ->
  respects (quiet P) (get_cloudflare_record env cfg).
Proof.
  intros HP. unfold get_cloudflare_record, cloudflare_request. frame.
  by apply http_quiet.
Qed.

Lemma update_cloudflare_dns_quiet cfg id ip proxied :
  (forall token zone name,
     P (Request (api_request token "PUT" (update_url zone id)
                   (Some (update_payload name ip proxied))))) ->
  respects (quiet P) (update_cloudflare_dns env cfg id ip proxied).
Proof.
  intros HP. unfold update_cloudflare_dns, cloudflare_request. frame.
  by apply http_quiet.
Qed.

Lemma send_telegram_message_quiet cfg message :
  (forall chat_id,
     P (Request (telegram_request (dict_get cfg "telegram_bot_token")
                   chat_id message))) ->
  respects (quiet P) (send_telegram_message env cfg message).
Proof.
  intros HP. unfold send_telegram_message, deliver. frame.
  by apply http_quiet.
Qed.

End Quiet.

Lemma set_last_ip_grew P ip : respects (grew_by P) (set_last_ip ip).
Proof. intros s. exists []. simpl. by rewrite app_nil_r. Qed.

Lemma get_last_ip_respects R `{!PreOrder R} : respects R get_last_ip.
Proof. intros s. reflexivity. Qed.

(** Whatever the environment does, a tick only ever performs the actions
    listed in [program_event]. *)
Lemma attempt_update_events env cfg ip attempt :
  respects (grew_by (program_event cfg)) (attempt_update env cfg ip attempt).
Proof.
  unfold attempt_update. frame; try apply set_last_ip_grew.
  - apply quiet_grew_by, get_cloudflare_record_quiet. constructor.
  - apply quiet_grew_by, update_cloudflare_dns_quiet. constructor.
  - apply quiet_grew_by, send_telegram_message_quiet. constructor.
  - apply quiet_grew_by, time_sleep_quiet. constructor.
Qed.

Lemma tick_events env cfg :
  respects (grew_by (program_event cfg)) (tick env cfg).
Proof.
  unfold tick, tick_body. frame.
  - apply quiet_grew_by, query_quiet. repeat constructor.
  - apply get_last_ip_respects, _.
  - apply attempt_update_events.
  - apply quiet_grew_by, time_sleep_quiet. constructor.
Qed.

Lemma main_loop_events env cfg n :
  respects (grew_by (program_event cfg)) (main_loop env cfg n).
Proof.
  induction n as [|n IH]; cbn [main_loop]; frame;
    [apply tick_events | apply IH].
Qed.

(* ================================================================== *)
(** ** The reconciliation loop *)

Lemma filter_none {A} (f : A -> bool) l :
  Forall (fun x => f x = false) l -> List.filter f l = [].
Proof.
  induction 1 as [|x l Hx _ IH]; simpl; [done|]. by rewrite Hx.
Qed.

Lemma emitted_grew {A} (m : M A) s evs :
  trace (m s).2 = trace s ++ evs -> emitted m s = evs.
Proof. intros H. unfold emitted. by rewrite H, drop_app_length. Qed.

Lemma changed_same ip : changed ip (Some ip) = false.
Proof. simpl. by rewrite str_eqb_refl. Qed.

Lemma differs_same ip : differs ip (JStr ip) = false.
Proof. simpl. by rewrite str_eqb_refl. Qed.

Lemma py_range_first n :
  1 <= n -> py_range 1 (n + 1) = 1 :: py_range 2 (n + 1).
Proof.
  intros Hn. unfold py_range.
  replace (Z.to_nat (n + 1 - 1)) with (S (Z.to_nat (n + 1 - 2))) by lia.
  reflexivity.
Qed.

Lemma tick_unfold env cfg s :
  tick env cfg s = inter_tick_sleep env cfg (guarded_body env cfg s).2.
Proof.
  unfold tick, guarded_body, inter_tick_sleep. run.
  by destruct (tick_body env cfg s) as [[[]|e] s'].
Qed.

Lemma inter_tick_sleep_quiet env cfg P :
  (forall v, P (Sleep v)) -> respects (quiet P) (inter_tick_sleep env cfg).
Proof. intros HP. unfold inter_tick_sleep. frame. by apply time_sleep_quiet. Qed.

Lemma inter_tick_sleep_run env cfg interval s :
  cfg !! "check_interval" = Some interval ->
  sleep_error env interval = None ->
  inter_tick_sleep env cfg s = (Ok tt, after s [Sleep interval]).
Proof.
  intros Hcfg Hsleep. unfold inter_tick_sleep.
  rewrite (lift_ok _ _ _ _ (dict_item_Some _ _ _ Hcfg)).
  unfold time_sleep. by rewrite Hsleep.
Qed.

Lemma get_current_ip_quiet env P :
  Forall (fun url => P (Request (ip_request url))) methods ->
  respects (quiet P) (get_current_ip env).
Proof. apply query_quiet. Qed.

Lemma tick_body_unchanged env cfg s ip s1 :
  get_current_ip env s = (Ok ip, s1) -> last_ip s = Some ip ->
  tick_body env cfg s = (Ok tt, s1).
Proof.
  intros Hres Hlast. unfold tick_body. rewrite (bind_ok _ _ _ _ _ Hres).
  assert (Hkeep : last_ip (get_current_ip env s).2 = last_ip s).
  { apply (quiet_same_last_ip (fun _ => True)), get_current_ip_quiet.
    by repeat constructor. }
  rewrite Hres in Hkeep. simpl in Hkeep. run.
  by rewrite Hkeep, Hlast, changed_same.
Qed.

(** C6. Local short-circuit.  In every tick whose resolved address equals
    [last_ip], the iteration goes from the resolver straight to the
    inter-tick sleep: it sends no request to the provider, neither read nor
    write, and leaves [last_ip] as it was. *)
Theorem local_short_circuit env cfg s ip s1 :
  get_current_ip env s = (Ok ip, s1) ->
  last_ip s = Some ip ->
  tick env cfg s = inter_tick_sleep env cfg s1
  /\ last_ip (tick env cfg s).2 = last_ip s
  /\ List.filter is_provider_call (emitted (tick env cfg) s) = [].
Proof.
  intros Hres Hlast.
  assert (Htick : tick env cfg s = inter_tick_sleep env cfg s1).
  { rewrite tick_unfold. unfold guarded_body.
    by rewrite (try_ok _ _ _ _ _ (tick_body_unchanged _ _ _ _ _ Hres Hlast)). }
  set (P := fun ev => is_provider_call ev = false).
  assert (Hq : quiet P s (tick env cfg s).2).
  { rewrite Htick. trans s1.
    - replace s1 with (get_current_ip env s).2 by (by rewrite Hres).
      apply get_current_ip_quiet. by repeat constructor.
    - by apply inter_tick_sleep_quiet. }
  split; [done|]. split; [apply Hq|].
  apply filter_none. apply (grew_by_emitted P), Hq.
Qed.

(** *** Where [last_ip] can change *)

Lemma quiet_keeps {A} P (m : M A) :
  respects (quiet P) m -> respects same_last_ip m.
Proof. intros H s. apply H. Qed.

Lemma keeps_or_breaks_bind {A} (m : M A) (k : A -> M flow) :
  respects same_last_ip m -> (forall a, keeps_or_breaks (k a)) ->
  keeps_or_breaks (m ≫= k).
Proof.
  intros Hm Hk s. specialize (Hm s). run.
  destruct (m s) as [[a|e] s1]; simpl in *; [|by right].
  destruct (Hk a s1) as [?|Hs]; [by left|]. right. by rewrite Hs.
Qed.

Lemma keeps_or_breaks_try (m : M flow) h :
  keeps_or_breaks m -> (forall e, respects same_last_ip (h e)) ->
  keeps_or_breaks (try_except m h).
Proof.
  intros Hm Hh s. specialize (Hm s). run.
  destruct (m s) as [[a|e] s1]; simpl in *; [done|].
  destruct Hm as [?|Hs]; [done|]. right. rewrite <- Hs. apply Hh.
Qed.

Lemma keeps_or_breaks_same (m : M flow) :
  respects same_last_ip m -> keeps_or_breaks m.
Proof. intros H s. right. apply H. Qed.

Lemma attempt_update_keeps_or_breaks env cfg ip attempt :
  keeps_or_breaks (attempt_update env cfg ip attempt).
Proof.
  set (any := fun _ : event => True).
  unfold attempt_update. apply keeps_or_breaks_try.
  - apply keeps_or_breaks_bind.
    { by apply (quiet_keeps any), get_cloudflare_record_quiet. }
    intros [[id cf_ip] cf_proxied]. destruct (_ || _).
    + apply keeps_or_breaks_bind.
      { by apply (quiet_keeps any), update_cloudflare_dns_quiet. }
      intros [].
      * apply keeps_or_breaks_bind; [frame|]. intros name.
        apply keeps_or_breaks_bind.
        { by apply (quiet_keeps any), send_telegram_message_quiet. }
        intros _ s. by left.
      * apply keeps_or_breaks_same. frame.
    + intros s. by left.
  - intros e. frame. by apply (quiet_keeps any), time_sleep_quiet.
Qed.

Lemma for_each_raise_keeps {A} (body : A -> M flow) xs s e s' :
  (forall x, keeps_or_breaks (body x)) ->
  for_each xs body s = (Raise e, s') -> last_ip s' = last_ip s.
Proof.
  intros Hb. revert s. induction xs as [|x xs IH]; intros s; simpl; [done|].
  specialize (Hb x s). run.
  destruct (body x s) as [[[]|e1] s1]; simpl in *.
  - intros H. destruct Hb as [|Hs]; [done|]. rewrite <- Hs. by apply IH.
  - done.
  - intros [= _ <-]. by destruct Hb.
Qed.

(** An exception that leaves the [try] block leaves [last_ip] as it was. *)
Lemma tick_body_raise_keeps env cfg s e s' :
  tick_body env cfg s = (Raise e, s') -> last_ip s' = last_ip s.
Proof.
  unfold tick_body.
  assert (Hkeep : last_ip (get_current_ip env s).2 = last_ip s).
  { apply (quiet_same_last_ip (fun _ => True)), get_current_ip_quiet.
    by repeat constructor. }
  run. destruct (get_current_ip env s) as [[ip|e1] s1]; simpl in *.
  - destruct (changed ip (last_ip s1)); [|done].
    destruct (_ : result Z) as [n|e2]; simpl.
    + intros H. rewrite <- Hkeep. eapply for_each_raise_keeps; [|exact H].
      intros x. apply attempt_update_keeps_or_breaks.
    + by intros [= _ <-].
  - by intros [= _ <-].
Qed.

Lemma guarded_body_ok env cfg s : (guarded_body env cfg s).1 = Ok tt.
Proof.
  unfold guarded_body. run. by destruct (tick_body env cfg s) as [[[]|e] s'].
Qed.

Lemma tick_ok env cfg s interval :
  cfg !! "check_interval" = Some interval ->
  sleep_error env interval = None ->
  tick env cfg s = (Ok tt, after (guarded_body env cfg s).2 [Sleep interval]).
Proof.
  intros Hcfg Hsleep. rewrite tick_unfold.
  by apply inter_tick_sleep_run.
Qed.

Lemma main_loop_ok env cfg interval n s :
  cfg !! "check_interval" = Some interval ->
  sleep_error env interval = None ->
  (main_loop env cfg n s).1 = Ok tt.
Proof.
  intros Hcfg Hsleep. revert s. induction n as [|n IH]; intros s; [done|].
  cbn [main_loop]. rewrite (bind_ok _ _ _ _ _ (tick_ok _ _ s _ Hcfg Hsleep)).
  apply IH.
Qed.

(** *** One attempt *)

Lemma respects_bind_ok (R : relation state) `{!PreOrder R} {A B}
    (m : M A) (k : A -> M B) :
  respects R m ->
  (forall s a s1, m s = (Ok a, s1) -> R s1 (k a s1).2) ->
  respects R (m ≫= k).
Proof.
  intros Hm Hk s. specialize (Hm s). run.
  destruct (m s) as [[a|e] s1] eqn:Hms; simpl in *; [|done].
  etrans; [exact Hm | by eapply Hk].
Qed.

Lemma for_each_break {A} (body : A -> M flow) x xs s s' :
  body x s = (Ok Break, s') -> for_each (x :: xs) body s = (Ok tt, s').
Proof. intros H. cbn [for_each]. by rewrite (bind_ok _ _ _ _ _ H). Qed.

Lemma for_each_next {A} (body : A -> M flow) x xs s s' :
  body x s = (Ok Next, s') -> for_each (x :: xs) body s = for_each xs body s'.
Proof. intros H. cbn [for_each]. by rewrite (bind_ok _ _ _ _ _ H). Qed.

(** The record already matches: no write, [last_ip] set, [break]. *)
Lemma attempt_aligned env cfg ip attempt s id content proxied s2 :
  get_cloudflare_record env cfg s = (Ok (id, content, proxied), s2) ->
  differs ip content = false -> truthy proxied = false ->
  attempt_update env cfg ip attempt s = (Ok Break, with_last_ip ip s2).
Proof.
  intros Hfetch Hsame Hoff. unfold attempt_update.
  erewrite try_ok; [done|].
  rewrite (bind_ok _ _ _ _ _ Hfetch). by rewrite Hsame, Hoff.
Qed.


Lemma get_cloudflare_record_ok env cfg s t s2 :
  get_cloudflare_record env cfg s = (Ok t, s2) ->
  exists token zone name,
    s2 = after s [Request (api_request token "GET" (record_url zone name) None)].
Proof.
  unfold get_cloudflare_record, cloudflare_request. run.
  destruct (dict_item cfg "zone_id") as [zone|]; [|done].
  destruct (dict_item cfg "record_name") as [name|]; [|done].
  destruct (dict_item cfg "cloudflare_api_token") as [token|]; [|done].
  rewrite http_run.
  destruct (urlopen env _ _) as [resp|]; [|done].
  destruct (body_json resp) as [data|]; [|done].
  destruct (first_record data); [|done]. intros [= _ <-]. eauto.
Qed.

Lemma update_cloudflare_dns_ok env cfg id ip proxied s b s3 :
  update_cloudflare_dns env cfg id ip proxied s = (Ok b, s3) ->
  exists token zone name,
    cfg !! "record_name" = Some name /\
    s3 = after s [Request (api_request token "PUT" (update_url zone id)
                             (Some (update_payload name ip proxied)))].
Proof.
  unfold update_cloudflare_dns, cloudflare_request. run.
  destruct (dict_item cfg "zone_id") as [zone|]; [|done].
  destruct (dict_item cfg "record_name") as [name|] eqn:Hname; [|done].
  destruct (dict_item cfg "cloudflare_api_token") as [token|]; [|done].
  rewrite http_run.
  destruct (urlopen env _ _) as [resp|]; [|done].
  destruct (body_json resp) as [data|]; [|done].
  destruct (py_get data "success"); [|done]. intros [= _ <-].
  apply dict_item_ok in Hname. eauto 6.
Qed.

Lemma tick_body_changed env cfg s ip s1 n :
  get_current_ip env s = (Ok ip, s1) ->
  changed ip (last_ip s) = true ->
  dict_item cfg "max_retries" ≫= as_int = Ok n ->
  tick_body env cfg s
  = for_each (py_range 1 (n + 1)) (attempt_update env cfg ip) s1.
Proof.
  intros Hres Hchanged Hn. unfold tick_body.
  rewrite (bind_ok _ _ _ _ _ Hres).
  assert (Hkeep : last_ip (get_current_ip env s).2 = last_ip s).
  { apply (quiet_same_last_ip (fun _ => True)), get_current_ip_quiet.
    by repeat constructor. }
  rewrite Hres in Hkeep. simpl in Hkeep.
  unfold get_last_ip. rewrite (bind_ok _ _ s1 (last_ip s1) s1) by done.
  rewrite Hkeep, Hchanged. by rewrite (lift_ok _ _ _ _ Hn).
Qed.

Lemma resolver_not_write env s :
  quiet not_write s (get_current_ip env s).2.
Proof. apply get_current_ip_quiet. by repeat constructor. Qed.

(** Where the provider shows the record already correct whenever it
    answers, an attempt writes nothing. *)
Lemma attempt_update_no_write env cfg ip attempt :
  (forall s id content proxied s2,
     get_cloudflare_record env cfg s = (Ok (id, content, proxied), s2) ->
     content = JStr ip /\ truthy proxied = false) ->
  respects (grew_by not_write) (attempt_update env cfg ip attempt).
Proof.
  intros Hcorrect. unfold attempt_update. apply respects_try; [apply _| |].
  - apply respects_bind_ok; [apply _| |].
    + by apply quiet_grew_by, get_cloudflare_record_quiet.
    + intros s [[id content] proxied] s2 Hfetch.
      destruct (Hcorrect _ _ _ _ _ Hfetch) as [-> ->].
      rewrite differs_same. simpl. exists []. simpl. by rewrite app_nil_r.
  - intros e. frame. by apply quiet_grew_by, time_sleep_quiet.
Qed.

Lemma tick_no_write env cfg ip :
  (forall s ip' s1, get_current_ip env s = (Ok ip', s1) -> ip' = ip) ->
  (forall s id content proxied s2,
     get_cloudflare_record env cfg s = (Ok (id, content, proxied), s2) ->
     content = JStr ip /\ truthy proxied = false) ->
  respects (grew_by not_write) (tick env cfg).
Proof.
  intros Hsame Hcorrect. unfold tick. frame.
  - unfold tick_body. apply respects_bind_ok; [apply _| |].
    + intros s. apply resolver_not_write.
    + intros s ip' s1 ->%Hsame.
      assert (respects (grew_by not_write)
                (last ← get_last_ip;
                 if changed ip last
                 then max_retries ← lift (dict_item cfg "max_retries" ≫= as_int);
                      for_each (py_range 1 (max_retries + 1))
                        (attempt_update env cfg ip)
                 else ret tt)) as H; [|apply H].
      frame; [apply get_last_ip_respects, _|].
      by apply attempt_update_no_write.
  - by apply quiet_grew_by, time_sleep_quiet.
Qed.

(** C1. Idempotence of reconciliation.  In every tick where the resolver
    returns [ip], at least one attempt is configured, and the provider's
    record read by the first attempt has content [ip] and a proxy flag that
    is off: the [try] block ends right after that one read (or right after
    the resolver when [ip] is already [last_ip]), [last_ip] is [ip]
    afterwards, and the tick sends no write.  And over any number of
    consecutive ticks in which the resolver, whenever it answers, returns
    [ip] and the provider, whenever it answers, shows content [ip] with the
    proxy flag off, no write is ever sent. *)
Theorem reconciliation_idempotent env cfg ip :
  (forall s s1 n id proxied s2,
     get_current_ip env s = (Ok ip, s1) ->
     dict_item cfg "max_retries" ≫= as_int = Ok n -> 1 <= n ->
     get_cloudflare_record env cfg s1 = (Ok (id, JStr ip, proxied), s2) ->
     truthy proxied = false ->
     guarded_body env cfg s
     = (Ok tt, if changed ip (last_ip s) then with_last_ip ip s2 else s1)
     /\ last_ip (tick env cfg s).2 = Some ip
     /\ List.filter is_write (emitted (tick env cfg) s) = []
     /\ (length (List.filter is_provider_call (emitted (tick env cfg) s))
         <= 1)%nat)
  /\ ((forall s ip' s1, get_current_ip env s = (Ok ip', s1) -> ip' = ip) ->
      (forall s id content proxied s2,
         get_cloudflare_record env cfg s = (Ok (id, content, proxied), s2) ->
         content = JStr ip /\ truthy proxied = false) ->
      forall n s, List.filter is_write (emitted (main_loop env cfg n) s) = []).
Proof.
  split.
  - intros s s1 n id proxied s2 Hres Hn Hpos Hfetch Hoff.
    pose proof (resolver_not_write env s) as [Hk1 Hg1].
    rewrite Hres in Hk1, Hg1. simpl in Hk1, Hg1. unfold same_last_ip in Hk1.
    destruct (get_cloudflare_record_ok _ _ _ _ _ Hfetch)
      as (token & zone & name & Hs2).
    assert (Hbody : guarded_body env cfg s
              = (Ok tt, if changed ip (last_ip s)
                        then with_last_ip ip s2 else s1)).
    { unfold guarded_body. erewrite try_ok; [done|].
      destruct (changed ip (last_ip s)) eqn:Hch.
      - rewrite (tick_body_changed _ _ _ _ _ _ Hres Hch Hn).
        rewrite (py_range_first _ Hpos). apply for_each_break.
        eapply attempt_aligned; eauto using differs_same.
      - apply (tick_body_unchanged _ _ _ ip); [done|].
        destruct (last_ip s) as [last|]; [|done]. simpl in Hch.
        apply negb_false_iff, str_eqb_eq in Hch. by subst. }
    split; [done|]. rewrite tick_unfold, Hbody. simpl.
    set (mid := if changed ip (last_ip s) then with_last_ip ip s2 else s1).
    assert (Hmid_ip : last_ip mid = Some ip).
    { subst mid. destruct (changed ip (last_ip s)) eqn:Hch; [done|].
      rewrite Hk1. destruct (last_ip s) as [last|]; [|done]. simpl in Hch.
      apply negb_false_iff, str_eqb_eq in Hch. by subst. }
    destruct Hg1 as (ev1 & Ht1 & Hf1).
    assert (Hmid : exists evs,
               trace mid = trace s ++ evs /\ Forall not_write evs /\
               (length (List.filter is_provider_call evs) <= 1)%nat).
    { subst mid. destruct (changed ip (last_ip s)).
      - exists (ev1 ++ [Request (api_request token "GET"
                                  (record_url zone name) None)]).
        simpl. rewrite Hs2. simpl. rewrite Ht1, app_assoc. split; [done|].
        split; [apply Forall_app; split; [done | by repeat constructor]|].
        rewrite List.filter_app, length_app. simpl.
        rewrite (filter_none is_provider_call ev1); [simpl; lia|].
        pose proof (get_current_ip_quiet env
                      (fun ev => is_provider_call ev = false)) as Hnp.
        destruct (Hnp ltac:(by repeat constructor) s) as [_ Hg].
        rewrite Hres in Hg. simpl in Hg. destruct Hg as (ev1' & Ht1' & Hf1').
        rewrite Ht1 in Ht1'. by apply app_inv_head in Ht1' as ->.
      - exists ev1. split; [done|]. split; [done|].
        rewrite (filter_none is_provider_call ev1); [simpl; lia|].
        pose proof (get_current_ip_quiet env
                      (fun ev => is_provider_call ev = false)) as Hnp.
        destruct (Hnp ltac:(by repeat constructor) s) as [_ Hg].
        rewrite Hres in Hg. simpl in Hg. destruct Hg as (ev1' & Ht1' & Hf1').
        rewrite Ht1 in Ht1'. by apply app_inv_head in Ht1' as ->. }
    destruct Hmid as (evs & Htm & Hnw & Hcount).
    pose proof (inter_tick_sleep_quiet env cfg
                  (fun ev => not_write ev /\ is_provider_call ev = false)
                  ltac:(done) mid) as [Hk3 (ev3 & Ht3 & Hf3)].
    unfold same_last_ip in Hk3. split; [by rewrite Hk3|].
    assert (Hem : emitted (tick env cfg) s = evs ++ ev3).
    { apply emitted_grew. rewrite tick_unfold, Hbody. simpl. fold mid.
      by rewrite Ht3, Htm, app_assoc. }
    rewrite Hem, !List.filter_app, length_app.
    rewrite (filter_none is_write evs) by done.
    rewrite (filter_none is_write ev3)
      by (eapply Forall_impl; [exact Hf3 | by intros ? []]).
    rewrite (filter_none is_provider_call ev3)
      by (eapply Forall_impl; [exact Hf3 | by intros ? []]).
    split; [done | simpl; lia].
  - intros Hsame Hcorrect n s. apply filter_none.
    apply (grew_by_emitted not_write).
    revert s. induction n as [|n IH]; intros s; [by exists []; rewrite app_nil_r|].
    cbn [main_loop].
    apply (respects_bind (grew_by not_write)); [by eapply tick_no_write|].
    intros _ s'. apply IH.
Qed.

(** *** Writes *)



(* ================================================================== *)
(** ** The retry budget *)

Section Budget.
Context (f : event -> bool).

Lemma at_most_weaken {A} (m : M A) a b :
  (a <= b)%nat -> at_most f a m -> at_most f b m.
Proof.
  intros Hab Hm s. destruct (Hm s) as (evs & Ht & Hn). exists evs.
  split; [done | lia].
Qed.

Lemma at_most_quiet {A} (m : M A) :
  respects (grew_by (fun ev => f ev = false)) m -> at_most f 0 m.
Proof.
  intros Hm s. destruct (Hm s) as (evs & Ht & Hf). exists evs.
  split; [done|]. by rewrite filter_none.
Qed.

Lemma at_most_seq s1 s2 s3 e1 e2 a b :
  trace s2 = trace s1 ++ e1 -> (length (List.filter f e1) <= a)%nat ->
  trace s3 = trace s2 ++ e2 -> (length (List.filter f e2) <= b)%nat ->
  exists evs,
    trace s3 = trace s1 ++ evs /\ (length (List.filter f evs) <= a + b)%nat.
Proof.
  intros H1 L1 H2 L2. exists (e1 ++ e2).
  rewrite H2, H1, app_assoc, List.filter_app, length_app. split; [done | lia].
Qed.

Lemma at_most_bind {A B} (m : M A) (k : A -> M B) a b n :
  (a + b <= n)%nat ->
  at_most f a m -> (forall x, at_most f b (k x)) -> at_most f n (m ≫= k).
Proof.
  intros Hn Hm Hk. apply (at_most_weaken _ (a + b)); [done|].
  intros s. destruct (Hm s) as (e1 & H1 & L1). run.
  destruct (m s) as [[x|e] s1]; simpl in *.
  - destruct (Hk x s1) as (e2 & H2 & L2). by eapply at_most_seq.
  - exists e1. split; [done | lia].
Qed.

Lemma at_most_try {A} (m : M A) h a b n :
  (a + b <= n)%nat ->
  at_most f a m -> (forall e, at_most f b (h e)) ->
  at_most f n (try_except m h).
Proof.
  intros Hn Hm Hh. apply (at_most_weaken _ (a + b)); [done|].
  intros s. destruct (Hm s) as (e1 & H1 & L1). run.
  destruct (m s) as [[x|e] s1]; simpl in *.
  - exists e1. split; [done | lia].
  - destruct (Hh e s1) as (e2 & H2 & L2). by eapply at_most_seq.
Qed.

Lemma at_most_for_each {A} (xs : list A) body :
  (forall x, at_most f 1 (body x)) ->
  at_most f (length xs) (for_each xs body).
Proof.
  intros Hb. induction xs as [|x xs IH]; cbn [for_each length].
  - intros s. exists []. simpl. by rewrite app_nil_r.
  - apply (at_most_bind _ _ 1 (length xs)); [lia | apply Hb|].
    intros []; [apply IH|]. apply (at_most_weaken _ 0); [lia|].
    apply at_most_quiet. apply respects_ret. apply _.
Qed.

Lemma at_most_http env r : at_most f 1 (http env r).
Proof.
  intros s. rewrite http_run. exists [Request r]. split; [done|].
  simpl. destruct (f _); simpl; lia.
Qed.

Lemma at_most_lift_bind {A B} (r : result A) (k : A -> M B) n :
  (forall x, r = Ok x -> at_most f n (k x)) -> at_most f n (lift r ≫= k).
Proof.
  intros Hk s. destruct r as [x|e].
  - apply (Hk x eq_refl).
  - exists []. simpl. by rewrite app_nil_r; split; [|lia].
Qed.

End Budget.

Lemma get_cloudflare_record_at_most f env cfg :
  at_most f 1 (get_cloudflare_record env cfg).
Proof.
  unfold get_cloudflare_record, cloudflare_request.
  apply at_most_lift_bind. intros zone _.
  apply at_most_lift_bind. intros name _.
  apply (at_most_bind f _ _ 1 0); [lia| |].
  - apply at_most_lift_bind. intros token _.
    apply (at_most_bind f _ _ 1 0); [lia | apply at_most_http|].
    intros resp. apply at_most_quiet. frame.
  - intros data. apply at_most_quiet. frame.
Qed.

Lemma update_cloudflare_dns_at_most f env cfg id ip proxied :
  at_most f 1 (update_cloudflare_dns env cfg id ip proxied).
Proof.
  unfold update_cloudflare_dns, cloudflare_request.
  apply at_most_lift_bind. intros zone _.
  apply at_most_lift_bind. intros name _.
  apply (at_most_bind f _ _ 1 0); [lia| |].
  - apply at_most_lift_bind. intros token _.
    apply (at_most_bind f _ _ 1 0); [lia | apply at_most_http|].
    intros resp. apply at_most_quiet. frame.
  - intros data. apply at_most_quiet. frame.
Qed.

(** One attempt reads the record at most once and writes it at most once. *)
Lemma attempt_update_at_most env cfg ip attempt :
  at_most is_read 1 (attempt_update env cfg ip attempt)
  /\ at_most is_write 1 (attempt_update env cfg ip attempt).
Proof.
  unfold attempt_update. split.
  - apply (at_most_try _ _ _ 1 0); [lia| |].
    + apply (at_most_bind _ _ _ 1 0); [lia | apply get_cloudflare_record_at_most|].
      intros [[id cf_ip] cf_proxied]. apply at_most_quiet.
      frame; try apply set_last_ip_grew.
      * by apply quiet_grew_by, update_cloudflare_dns_quiet.
      * by apply quiet_grew_by, send_telegram_message_quiet.
    + intros e. apply at_most_quiet. frame.
      by apply quiet_grew_by, time_sleep_quiet.
  - apply (at_most_try _ _ _ 1 0); [lia| |].
    + apply (at_most_bind _ _ _ 0 1); [lia| |].
      { by apply at_most_quiet, quiet_grew_by, get_cloudflare_record_quiet. }
      intros [[id cf_ip] cf_proxied]. destruct (_ || _).
      * apply (at_most_bind _ _ _ 1 0);
          [lia | apply update_cloudflare_dns_at_most|].
        intros success. apply at_most_quiet.
        frame; try apply set_last_ip_grew.
        by apply quiet_grew_by, send_telegram_message_quiet.
      * apply (at_most_weaken _ _ 0); [lia|]. apply at_most_quiet.
        frame. apply set_last_ip_grew.
    + intros e. apply at_most_quiet. frame.
      by apply quiet_grew_by, time_sleep_quiet.
Qed.

Lemma count_from_length lo n : length (count_from lo n) = n.
Proof. revert lo. induction n as [|n IH]; intros lo; simpl; auto. Qed.

(** Whatever the environment does, a tick reads the record at most
    [max_retries] times and writes it at most [max_retries] times. *)
Lemma tick_at_most env cfg f :
  (forall ip attempt, at_most f 1 (attempt_update env cfg ip attempt)) ->
  Forall (fun url => f (Request (ip_request url)) = false) methods ->
  (forall v, f (Sleep v) = false) ->
  at_most f (budget cfg) (tick env cfg).
Proof.
  intros Hattempt Hres Hsleep. unfold tick, tick_body.
  apply (at_most_bind _ _ _ (budget cfg) 0); [lia| |].
  - apply (at_most_try _ _ _ (budget cfg) 0); [lia| |].
    + apply (at_most_bind _ _ _ 0 (budget cfg)); [lia| |].
      { by apply at_most_quiet, quiet_grew_by, get_current_ip_quiet. }
      intros ip. apply (at_most_bind _ _ _ 0 (budget cfg)); [lia| |].
      { apply at_most_quiet, get_last_ip_respects, _. }
      intros last. destruct (changed ip last).
      * apply at_most_lift_bind. intros n Hn. unfold budget. rewrite Hn.
        replace (Z.to_nat n) with (length (py_range 1 (n + 1))).
        -- by apply at_most_for_each.
        -- unfold py_range. rewrite count_from_length. lia.
      * apply (at_most_weaken _ _ 0); [lia|]. apply at_most_quiet. frame.
    + intros e. apply at_most_quiet. frame.
  - intros _. apply at_most_quiet. frame.
    by apply quiet_grew_by, time_sleep_quiet.
Qed.

(** X18. The retry budget.  Whatever the environment answers, one tick
    sends at most [max_retries] reads and at most [max_retries] writes to
    the provider (none when [max_retries] is not a positive integer): the
    attempts of the [for] loop are the only place where the provider is
    called, and each calls it at most once for a read and once for a
    write. *)
Lemma attempts_bounded env cfg s :
  (length (List.filter is_read (emitted (tick env cfg) s)) <= budget cfg)%nat
  /\ (length (List.filter is_write (emitted (tick env cfg) s)) <= budget cfg)%nat.
Proof.
  split.
  - destruct (tick_at_most env cfg is_read) with (s := s) as (evs & Ht & Hn);
      [apply attempt_update_at_most | by repeat constructor | done |].
    by rewrite (emitted_grew _ _ _ Ht).
  - destruct (tick_at_most env cfg is_write) with (s := s) as (evs & Ht & Hn);
      [apply attempt_update_at_most | by repeat constructor | done |].
    by rewrite (emitted_grew _ _ _ Ht).
Qed.

(** *** Exhaustion by exceptions *)

Section Exhaustion.
Context (env : environment) (cfg : gmap str json).
Context (token zone name delay : json) (n : Z).
Context (Htoken : cfg !! "cloudflare_api_token" = Some token).
Context (Hzone : cfg !! "zone_id" = Some zone).
Context (Hname : cfg !! "record_name" = Some name).
Context (Hretries : cfg !! "max_retries" = Some (JInt n)).
Context (Hdelay : cfg !! "retry_delay" = Some delay).
Context (Hsleep : sleep_error env delay = None).

(** Every read fails: the request raises, the body is not JSON, or the
    listing has no usable record. *)
Context (Hfail : forall t,
           is_ok ((urlopen env t (read_request token zone name) ≫= body_json)
                  ≫= first_record) = false).

Lemma attempt_read_fails ip attempt s :
  attempt_update env cfg ip attempt s
  = (Ok Next,
     after s (Request (read_request token zone name)
              :: if (attempt <? n)%Z then [Sleep delay] else [])).
Proof.
  unfold attempt_update.
  pose proof (get_cloudflare_record_run env cfg _ _ _ s Htoken Hzone Hname)
    as Hrun.
  fold (read_request token zone name) in Hrun.
  specialize (Hfail (length (trace s))).
  destruct ((urlopen env _ (read_request token zone name) ≫= body_json)
            ≫= first_record) as [|e]; [done|].
  erewrite try_raise by (rewrite (bind_raise _ _ _ _ _ Hrun); done).
  rewrite (lift_ok _ _ _ n).
  2:{ unfold dict_item. by rewrite Hretries. }
  destruct (attempt <? n)%Z.
  - rewrite (lift_ok _ _ _ _ (dict_item_Some _ _ _ Hdelay)).
    unfold time_sleep. run. rewrite Hsleep. unfold after. simpl.
    by rewrite <- app_assoc.
  - done.
Qed.

Lemma attempts_read_fail ip k attempt s :
  attempt = n + 1 - Z.of_nat k ->
  for_each (count_from attempt k) (attempt_update env cfg ip) s
  = (Ok tt,
     after s (failed_reads (Request (read_request token zone name)) delay k)).
Proof.
  revert attempt s. induction k as [|k IH]; intros attempt s Hk.
  - cbn. by rewrite after_nil.
  - cbn [count_from].
    rewrite (for_each_next _ _ _ _ _ (attempt_read_fails _ _ _)).
    rewrite IH by lia. rewrite after_after. destruct k as [|k].
    + replace (attempt <? n)%Z with false by lia. done.
    + replace (attempt <? n)%Z with true by lia. done.
Qed.

(** X19. Exhaustion by failed reads.  When every read fails by an
    exception (the request raises, the body is not JSON, or the listing has
    no usable record), a tick whose address changed makes exactly
    [max_retries] attempts, sleeps [retry_delay] between them and not after
    the last, and gives up with [last_ip] as it was. *)
Lemma retry_exhaustion_on_failed_reads s ip s1 :
  get_current_ip env s = (Ok ip, s1) ->
  changed ip (last_ip s) = true ->
  guarded_body env cfg s
  = (Ok tt,
     after s1 (failed_reads (Request (read_request token zone name)) delay
                 (Z.to_nat n)))
  /\ last_ip (tick env cfg s).2 = last_ip s.
Proof.
  intros Hres Hch.
  assert (Hbody :
            guarded_body env cfg s
            = (Ok tt,
               after s1 (failed_reads (Request (read_request token zone name))
                           delay (Z.to_nat n)))).
  { unfold guarded_body. erewrite try_ok; [done|].
    rewrite (tick_body_changed _ _ _ _ _ n Hres Hch).
    2:{ unfold dict_item. by rewrite Hretries. }
    unfold py_range. replace (n + 1 - 1) with n by lia.
    destruct (Z.to_nat n) as [|k] eqn:Hk; [cbn; by rewrite after_nil|].
    rewrite <- Hk. apply attempts_read_fail. lia. }
  split; [done|]. rewrite tick_unfold, Hbody. simpl.
  rewrite (quiet_same_last_ip (fun _ => True))
    by (by apply inter_tick_sleep_quiet).
  simpl. pose proof (resolver_not_write env s) as [Hk _].
  by rewrite Hres in Hk.
Qed.

End Exhaustion.

(** C2, at the failing input: two attempts are configured, the record has
    drifted and the provider turns both writes down with [success: false].
    The tick makes both attempts back to back: the only sleep is the
    inter-tick one, and [last_ip] stays unset. *)
Theorem refused_write_is_retried_without_delay :
  let end_of_tick := tick env_refused sample_cfg initial_state in
  end_of_tick.1 = Ok tt
  /\ last_ip end_of_tick.2 = None
  /\ classify <$> trace end_of_tick.2
     = [Resolve; Read; Write; Read; Write; Pause (JInt 30)].
Proof. vm_compute. done. Qed.

(** The sibling path: when the provider cannot be reached, the same two
    attempts are separated by the configured delay. *)
Lemma failed_read_is_retried_after_delay :
  classify <$> trace (tick env_down sample_cfg initial_state).2
  = [Resolve; Read; Pause (JInt 5); Read; Pause (JInt 30)].
Proof. vm_compute. done. Qed.

(* ================================================================== *)
(** * More of the program *)

(** ** Loading the configuration *)

Lemma check_required_ok cfg keys :
  check_required cfg keys = Ok tt <->
  Forall (fun key => truthy (dict_get cfg key) = true) keys.
Proof.
  induction keys as [|key keys IH]; cbn [check_required].
  - split; [by constructor | done].
  - destruct (truthy (dict_get cfg key)) eqn:Hkey; cbn [negb].
    + rewrite IH. split; [by constructor|]. by intros [_ ?]%Forall_cons.
    + split; [done|]. intros [Hk _]%Forall_cons. congruence.
Qed.

Lemma check_required_outcome cfg keys :
  check_required cfg keys = Ok tt \/ check_required cfg keys = Raise ValueError.
Proof.
  induction keys as [|key keys IH]; cbn [check_required]; [by left|].
  destruct (negb _); [by right | done].
Qed.

Lemma required_not_defaulted (raw : gmap str json) key :
  key ∈ required_keys -> dict_get (raw ∪ defaults) key = dict_get raw key.
Proof.
  intros Hkey. unfold dict_get. rewrite lookup_union.
  assert (defaults !! key = None) as ->.
  { unfold required_keys in Hkey.
    repeat (apply elem_of_cons in Hkey as [->|Hkey]; [done|]).
    by apply elem_of_nil in Hkey. }
  by destruct (raw !! key).
Qed.

(** X1. Defaults and overrides.  In a configuration that loads, every key
    other than the notification targets reads as the file gives it, and as
    the default when the file does not give it: [check_interval] 30,
    [max_retries] 5, [retry_delay] 5, [log_level] "INFO"; keys the program
    does not know pass through. *)
Theorem load_config_defaults (raw : list (str * json)) (cfg : gmap str json) key :
  load_config (Parsed (JObj raw)) = Ok cfg ->
  key <> "telegram_chat_ids" ->
  cfg !! key
  = match fields raw !! key with
    | Some v => Some v
    | None => defaults !! key
    end
  /\ (fields raw !! "check_interval" = None -> cfg !! "check_interval" = Some (JInt 30))
  /\ (fields raw !! "max_retries" = None -> cfg !! "max_retries" = Some (JInt 5))
  /\ (fields raw !! "retry_delay" = None -> cfg !! "retry_delay" = Some (JInt 5))
  /\ (fields raw !! "log_level" = None -> cfg !! "log_level" = Some (JStr "INFO")).
Proof.
  intros (raw' & ids & [= <-] & _ & ->)%load_config_ok Hkey.
  assert (Hlook : forall k, k <> "telegram_chat_ids" ->
            (<["telegram_chat_ids" := JArr (JInt <$> ids)]> (fields raw ∪ defaults)
               : gmap str json) !! k
            = match fields raw !! k with Some v => Some v | None => defaults !! k end).
  { intros k Hk. rewrite lookup_insert_ne by done. rewrite lookup_union.
    destruct (fields raw !! k), (defaults !! k); done. }
  split; [by apply Hlook|].
  repeat split; intros Hnone; rewrite Hlook, Hnone by done; reflexivity.
Qed.

(** X2. Required keys.  A configuration object loads only if
    [cloudflare_api_token], [zone_id] and [record_name] are all present and
    truthy; when one of them is missing, null, empty or zero the load raises
    [ValueError], whatever the rest of the file holds, the notification
    targets included. *)
Theorem load_config_required_keys (raw : list (str * json)) :
  (forall cfg,
     load_config (Parsed (JObj raw)) = Ok cfg ->
     Forall (fun key => truthy (dict_get (fields raw) key) = true
                        /\ cfg !! key = fields raw !! key) required_keys)
  /\ (Exists (fun key => truthy (dict_get (fields raw) key) = false) required_keys ->
      load_config (Parsed (JObj raw)) = Raise ValueError).
Proof.
  split.
  - intros cfg (raw' & ids & [= <-] & Hreq & ->)%load_config_ok.
    apply check_required_ok in Hreq. rewrite Forall_forall in Hreq.
    apply Forall_forall. intros key Hkey. specialize (Hreq key Hkey).
    rewrite required_not_defaulted in Hreq by done. split; [done|].
    assert (key <> "telegram_chat_ids") as Hne.
    { intros ->. unfold required_keys in Hkey.
      repeat (apply elem_of_cons in Hkey as [Hkey|Hkey]; [done|]).
      by apply elem_of_nil in Hkey. }
    rewrite lookup_insert_ne by done. rewrite lookup_union.
    unfold dict_get in Hreq. destruct (fields raw !! key); [|done].
    by destruct (defaults !! key).
  - intros Hmissing. unfold load_config. unfold mbind, result_bind, bind_result.
    destruct (check_required_outcome (fields raw ∪ defaults) required_keys)
      as [Hok | ->]; [|done].
    apply check_required_ok in Hok. rewrite Forall_forall in Hok.
    apply Exists_exists in Hmissing as (key & Hkey & Hfalsy).
    specialize (Hok key Hkey). rewrite required_not_defaulted in Hok by done.
    congruence.
Qed.

Lemma map_result_JInt ids : map_result py_int (JInt <$> ids) = Ok ids.
Proof.
  induction ids as [|n ids IH]; [done|].
  rewrite fmap_cons. cbn [map_result py_int]. by rewrite IH.
Qed.

(** X3. Loading is idempotent.  A configuration that [load_config] returned
    is unchanged by a second load, from any object that holds its fields:
    the defaults are already in it and its notification targets are already
    integers. *)
Theorem load_config_idempotent file (cfg : gmap str json) items :
  load_config file = Ok cfg ->
  fields items = cfg ->
  load_config (Parsed (JObj items)) = Ok cfg.
Proof.
  intros Hload Hitems. unfold load_config at 1. rewrite Hitems. clear items Hitems.
  destruct (load_config_ok _ _ Hload) as (raw & ids & -> & Hreq & Hcfg).
  assert (Hids : cfg !! "telegram_chat_ids" = Some (JArr (JInt <$> ids)))
    by (subst cfg; apply lookup_insert_eq).
  assert (Hunion : cfg ∪ defaults = cfg).
  { apply map_eq. intros k. rewrite lookup_union.
    destruct (cfg !! k) as [v|] eqn:Hk; [by destruct (defaults !! k)|].
    destruct (defaults !! k) as [d|] eqn:Hd; [|done].
    exfalso. subst cfg.
    destruct (decide (k = "telegram_chat_ids")) as [->|Hne];
      [by rewrite lookup_insert_eq in Hk|].
    rewrite lookup_insert_ne, lookup_union, Hd in Hk by done.
    by destruct (fields raw !! k). }
  rewrite Hunion.
  unfold mbind, result_bind, bind_result.
  assert (check_required cfg required_keys = Ok tt) as ->.
  { apply check_required_ok. apply check_required_ok in Hreq.
    rewrite Forall_forall in Hreq. apply Forall_forall. intros key Hkey.
    specialize (Hreq key Hkey). subst cfg. unfold dict_get in *.
    rewrite lookup_insert_ne; [done|]. intros <-. unfold required_keys in Hkey.
    repeat (apply elem_of_cons in Hkey as [Hkey|Hkey]; [done|]).
    by apply elem_of_nil in Hkey. }
  rewrite (dict_get_Some _ _ _ Hids), or_empty_list_arr. cbn [py_iter].
  rewrite map_result_JInt. f_equal. by apply insert_id.
Qed.

(** X4. A log level that is not a string is fatal.  When the configuration
    loads but its [log_level] is a number, a boolean, null, a list or an
    object, [main] raises [AttributeError] in [setup_logging], before the
    loop and before any request. *)
Theorem non_string_log_level_is_fatal env file (cfg : gmap str json) level n :
  load_config file = Ok cfg ->
  cfg !! "log_level" = Some level ->
  (forall name, level <> JStr name) ->
  main env file n = (Raise AttributeError, initial_state).
Proof.
  intros Hload Hlevel Hnot. unfold main. rewrite Hload.
  rewrite (dict_item_Some _ _ _ Hlevel).
  unfold mbind, result_bind, bind_result.
  destruct level as [| | | |name| |]; try done. by destruct (Hnot name).
Qed.

(** ** What the resolver returns *)

Lemma append_assoc (u v w : str) : (u +:+ v) +:+ w = u +:+ (v +:+ w).
Proof.
  induction u as [|c u IH]; [done|].
  change ((StrCons c u +:+ v) +:+ w) with (StrCons c ((u +:+ v) +:+ w)).
  by rewrite IH.
Qed.

(** [rstrip] leaves no whitespace at the end. *)
Lemma rstrip_ends space y x c :
  rstrip_by space y = x +:+ StrCons c "" -> space c = false.
Proof.
  revert x. induction y as [|c' y IH]; intros x; cbn [rstrip_by].
  - by destruct x.
  - destruct (rstrip_by space y) as [|r0 r] eqn:Hr.
    + destruct (space c') eqn:Hc'; [by destruct x|].
      destruct x as [|c'' x]; [by intros [= <-]|].
      intros [= _ H]. by destruct x.
    + destruct x as [|c'' x]; [done|].
      change (StrCons c'' x +:+ StrCons c "")
        with (StrCons c'' (x +:+ StrCons c "")).
      intros [= _ H]. by apply (IH x).
Qed.

(** A stripped string that the validator accepts is a public dotted quad
    (four groups of decimal digits, of any script): the final newline that
    the pattern tolerates cannot be there. *)
Lemma accepted_stripped_is_quad text :
  is_valid_public_ipv4 (strip text) = Ok true -> public_quad (strip text).
Proof.
  intros (a & b & c & d & tail & Hs & Htail & Hrest)%validator_accepts_iff.
  exists a, b, c, d. split; [|tauto]. destruct Htail as [-> | ->].
  - by rewrite append_empty_r in Hs.
  - exfalso. unfold newline in Hs.
    rewrite <- !append_assoc in Hs. unfold strip, strip_by in Hs.
    by apply rstrip_ends in Hs.
Qed.

Lemma accepted_answer env t url ip :
  answer env t url = Ok (Some ip) -> public_quad ip.
Proof.
  intros (resp & text & _ & _ & -> & Hvalid)%answer_accepted.
  by apply accepted_stripped_is_quad.
Qed.

(** The two ways a run over the endpoints can end. *)
Lemma query_outcome env urls last_error s :
  (exists k url ip,
     urls !! k = Some url /\
     answer env (length (trace s) + k) url = Ok (Some ip) /\
     Forall unusable (take k (answers env (length (trace s)) urls)) /\
     query env urls last_error s
     = (Ok ip, after s (Request ∘ ip_request <$> take (S k) urls)))
  \/ (Forall unusable (answers env (length (trace s)) urls) /\
      query env urls last_error s
      = (Raise (NoPublicIP
                  (match last_raised (answers env (length (trace s)) urls) with
                   | Some e => Some e
                   | None => last_error
                   end)),
         after s (Request ∘ ip_request <$> urls))).
Proof.
  revert last_error s. induction urls as [|url urls IH]; intros last_error s.
  - right. split; [constructor|]. cbn. by rewrite after_nil.
  - cbn [query answers]. rewrite probe_run.
    destruct (answer env (length (trace s)) url) as [[ip|]|e] eqn:Hans.
    + left. exists O, url, ip. rewrite Nat.add_0_r. done.
    + destruct (IH last_error (after s [Request (ip_request url)]))
        as [(k & u & ip & Hk & Hip & Hbad & Hq) | [Hbad Hq]];
        rewrite length_after_one in *.
      * left. exists (S k), u, ip. rewrite Hq, after_after.
        replace (length (trace s) + S k)%nat with (S (length (trace s)) + k)%nat
          by lia.
        repeat split; try done. cbn [take]. by constructor.
      * right. split; [by constructor|]. rewrite Hq, after_after.
        rewrite last_raised_cons. by destruct (last_raised _).
    + destruct (IH (Some e) (after s [Request (ip_request url)]))
        as [(k & u & ip & Hk & Hip & Hbad & Hq) | [Hbad Hq]];
        rewrite length_after_one in *.
      * left. exists (S k), u, ip. rewrite Hq, after_after.
        replace (length (trace s) + S k)%nat with (S (length (trace s)) + k)%nat
          by lia.
        repeat split; try done. cbn [take]. by constructor.
      * right. split; [by constructor|]. rewrite Hq, after_after.
        rewrite last_raised_cons. by destruct (last_raised _).
Qed.

Lemma get_current_ip_public env s ip s' :
  get_current_ip env s = (Ok ip, s') -> public_quad ip.
Proof.
  unfold get_current_ip.
  destruct (query_outcome env methods None s)
    as [(k & url & ip' & _ & Hip & _ & ->) | [_ ->]]; [|done].
  intros [= <- _]. by eapply accepted_answer.
Qed.

(** X5. Soundness of the resolver.  Whenever [get_current_ip] returns an
    address, that address is the stripped body of the response of one of the
    three endpoints, queried in this call after every endpoint before it
    proved unusable; it is a dotted quad, four groups of one to three decimal
    digits of any script (the digits that [\d] matches and [int] reads),
    each worth at most 255, outside the private and loopback ranges, with no
    surrounding whitespace and no final newline; and the call sent exactly
    the requests up to that endpoint. *)
Theorem resolver_soundness env s ip s' :
  get_current_ip env s = (Ok ip, s') ->
  exists k url resp text,
    methods !! k = Some url /\
    Forall unusable (take k (answers env (length (trace s)) methods)) /\
    urlopen env (length (trace s) + k) (ip_request url) = Ok resp /\
    body_text resp = Ok text /\
    ip = strip text /\
    public_quad ip /\
    s' = after s (Request ∘ ip_request <$> take (S k) methods).
Proof.
  unfold get_current_ip.
  destruct (query_outcome env methods None s)
    as [(k & url & ip' & Hk & Hip & Hbad & ->) | [_ ->]]; [|done].
  intros [= <- <-].
  pose proof (accepted_answer _ _ _ _ Hip) as Hquad.
  apply answer_accepted in Hip as (resp & text & Hresp & Htext & -> & _).
  exists k, url, resp, text. done.
Qed.

(** X6. Effects and failure of the resolver.  Every call of
    [get_current_ip] sends between one and three requests, to the first
    endpoints of the list in order, and leaves [last_ip] alone.  It raises
    only after all three were queried, and then always the one error that
    carries the exception of the last endpoint that raised: no exception of
    an endpoint escapes as it is. *)
Theorem resolver_effects env s :
  exists k,
    (1 <= k <= 3)%nat /\
    (get_current_ip env s).2
    = after s (Request ∘ ip_request <$> take k methods) /\
    forall e,
      (get_current_ip env s).1 = Raise e ->
      k = 3%nat /\
      e = NoPublicIP (last_raised (answers env (length (trace s)) methods)).
Proof.
  unfold get_current_ip.
  destruct (query_outcome env methods None s)
    as [(k & url & ip & Hk & _ & _ & ->) | [_ ->]].
  - exists (S k). apply lookup_lt_Some in Hk. unfold methods in Hk.
    simpl in Hk. split; [lia|]. split; [done|]. done.
  - exists 3%nat. split; [lia|]. split; [done|]. cbn [fst].
    intros e [= <-]. split; [done|]. by destruct (last_raised _).
Qed.

(** ** What the provider client returns *)

Lemma first_record_ok data id content proxied :
  first_record data = Ok (id, content, proxied) ->
  exists d r rest,
    data = JObj d /\
    truthy (dict_get (fields d) "success") = true /\
    fields d !! "result" = Some (JArr (JObj r :: rest)) /\
    fields r !! "id" = Some id /\ fields r !! "content" = Some content /\
    fields r !! "proxied" = Some proxied.
Proof.
  unfold first_record. run. destruct data as [| | | | | |d]; try done.
  cbn [py_get py_item].
  destruct (truthy (dict_get (fields d) "success")) eqn:Hsuccess; [|done].
  destruct (truthy (dict_get (fields d) "result")) eqn:Hresult; [|done].
  cbn [andb]. unfold dict_item, dict_get in *.
  destruct (fields d !! "result") as [result|] eqn:Hres; [|done].
  destruct result as [| | | |text|[|rec rest]|obj]; try done.
  - by destruct text.
  - cbn [py_first]. destruct rec as [| | | | | |r]; try done.
    cbn [py_item]. unfold dict_item.
    destruct (fields r !! "id") as [i|] eqn:Hi; [|done].
    destruct (fields r !! "content") as [c|] eqn:Hc; [|done].
    destruct (fields r !! "proxied") as [p|] eqn:Hp; [|done].
    intros [= <- <- <-]. exists d, r, rest. done.
Qed.

(** X7. What a successful read means.  [get_cloudflare_record] returns a
    triple only when the configuration holds the three identity fields, the
    one listing request was answered, the answer decoded to an object with a
    truthy [success] whose [result] is a list that starts with an object
    holding [id], [content] and [proxied]; the triple is exactly these three
    fields of that first record.  Any other answer raises. *)
Theorem read_returns_only_first_record env cfg s id content proxied s' :
  get_cloudflare_record env cfg s = (Ok (id, content, proxied), s') ->
  exists token zone name resp d r rest,
    identity cfg token zone name /\
    urlopen env (length (trace s)) (read_request token zone name) = Ok resp /\
    body_json resp = Ok (JObj d) /\
    truthy (dict_get (fields d) "success") = true /\
    fields d !! "result" = Some (JArr (JObj r :: rest)) /\
    fields r !! "id" = Some id /\ fields r !! "content" = Some content /\
    fields r !! "proxied" = Some proxied /\
    s' = after s [Request (read_request token zone name)].
Proof.
  unfold get_cloudflare_record, cloudflare_request. run.
  destruct (dict_item cfg "zone_id") as [zone|] eqn:Hzone; [|done].
  destruct (dict_item cfg "record_name") as [name|] eqn:Hname; [|done].
  destruct (dict_item cfg "cloudflare_api_token") as [token|] eqn:Htoken;
    [|done].
  rewrite http_run. fold (read_request token zone name).
  destruct (urlopen env _ _) as [resp|] eqn:Hresp; [|done].
  destruct (body_json resp) as [data|] eqn:Hdata; [|done].
  destruct (first_record data) as [[[i c] p]|] eqn:Hfirst; [|done].
  intros [= <- <- <- <-].
  apply first_record_ok in Hfirst as (d & r & rest & -> & Hrest).
  apply dict_item_ok in Hzone, Hname, Htoken.
  exists token, zone, name, resp, d, r, rest. unfold identity. tauto.
Qed.

(** X8. What a reported success means.  [update_cloudflare_dns] returns
    [True] only when the one [PUT] that replaces the record was answered and
    the answer decoded to an object with a truthy [success]; the request
    carries type A, the configured name, the given address, TTL 1 and the
    given proxy flag.  An object without [success] gives [False], an answer
    that is no object raises. *)
Theorem write_success_is_the_providers env cfg s id ip proxied :
  (forall s',
     update_cloudflare_dns env cfg id ip proxied s = (Ok true, s') ->
     exists token zone name resp d,
       identity cfg token zone name /\
       urlopen env (length (trace s))
         (write_request token zone name id ip proxied) = Ok resp /\
       body_json resp = Ok (JObj d) /\
       truthy (dict_get (fields d) "success") = true /\
       s' = after s [Request (write_request token zone name id ip proxied)])
  /\ (forall token zone name resp data,
        identity cfg token zone name ->
        urlopen env (length (trace s))
          (write_request token zone name id ip proxied) = Ok resp ->
        body_json resp = Ok data ->
        (update_cloudflare_dns env cfg id ip proxied s).1
        = match data with
          | JObj d => Ok (truthy (default JNull (fields d !! "success")))
          | _ => Raise AttributeError
          end).
Proof.
  split.
  - intros s'. unfold update_cloudflare_dns, cloudflare_request. run.
    destruct (dict_item cfg "zone_id") as [zone|] eqn:Hzone; [|done].
    destruct (dict_item cfg "record_name") as [name|] eqn:Hname; [|done].
    destruct (dict_item cfg "cloudflare_api_token") as [token|] eqn:Htoken;
      [|done].
    rewrite http_run. fold (write_request token zone name id ip proxied).
    destruct (urlopen env _ _) as [resp|] eqn:Hresp; [|done].
    destruct (body_json resp) as [data|] eqn:Hdata; [|done].
    destruct data as [| | | | | |d]; try done. cbn [py_get].
    intros [= Hsuccess <-].
    apply dict_item_ok in Hzone, Hname, Htoken.
    exists token, zone, name, resp, d. unfold identity. tauto.
  - intros token zone name resp data (Htoken & Hzone & Hname) Hresp Hdata.
    rewrite (update_cloudflare_dns_run _ _ _ _ _ _ _ _ _ Htoken Hzone Hname).
    cbn [fst]. unfold write_request in Hresp. rewrite Hresp. run. rewrite Hdata.
    by destruct data.
Qed.

(** ** Invariants of a run *)

Lemma attempt_update_parts env cfg ip attempt :
  attempt_update env cfg ip attempt
  = try_except (get_cloudflare_record env cfg ≫= after_read env cfg ip)
      (retry_handler env cfg attempt).
Proof. reflexivity. Qed.

Lemma try_bind_ok {A B} (m : M A) (k : A -> M B) h s x s1 :
  m s = (Ok x, s1) -> try_except (m ≫= k) h s = try_except (k x) h s1.
Proof. intros H. run. by rewrite H. Qed.

Lemma try_bind_raise {A B} (m : M A) (k : A -> M B) h s e s1 :
  m s = (Raise e, s1) -> try_except (m ≫= k) h s = h e s1.
Proof. intros H. run. by rewrite H. Qed.

Lemma respects_lift_bind (R : relation state) `{!PreOrder R} {A B}
    (r : result A) (k : A -> M B) :
  (forall x, r = Ok x -> respects R (k x)) -> respects R (lift r ≫= k).
Proof.
  intros Hk s. destruct r as [x|e]; [apply (Hk x eq_refl) | reflexivity].
Qed.

Lemma respects_for_each_in (R : relation state) `{!PreOrder R} {A}
    (xs : list A) body :
  (forall x, x ∈ xs -> respects R (body x)) -> respects R (for_each xs body).
Proof.
  induction xs as [|x xs IH]; intros Hb; cbn [for_each].
  - by apply respects_ret.
  - apply respects_bind; [done | apply Hb; by left|].
    intros []; [|by apply respects_ret].
    apply IH. intros y Hy. apply Hb. by right.
Qed.

(** *** Every action comes from the configuration *)

Section Configured.
Context (env : environment) (cfg : gmap str json).

Lemma get_cloudflare_record_configured :
  respects (quiet (configured_event cfg)) (get_cloudflare_record env cfg).
Proof.
  unfold get_cloudflare_record, cloudflare_request.
  apply respects_lift_bind; [apply _|]. intros zone Hzone%dict_item_ok.
  apply respects_lift_bind; [apply _|]. intros name Hname%dict_item_ok.
  apply respects_bind; [apply _| |intros ?; frame].
  apply respects_lift_bind; [apply _|]. intros token Htoken%dict_item_ok.
  apply respects_bind; [apply _| |intros ?; frame].
  apply http_quiet. by apply (configured_read cfg token zone name).
Qed.

Lemma update_cloudflare_dns_configured id ip :
  public_quad ip ->
  respects (quiet (configured_event cfg))
    (update_cloudflare_dns env cfg id ip false).
Proof.
  intros Hip. unfold update_cloudflare_dns, cloudflare_request.
  apply respects_lift_bind; [apply _|]. intros zone Hzone%dict_item_ok.
  apply respects_lift_bind; [apply _|]. intros name Hname%dict_item_ok.
  apply respects_bind; [apply _| |intros ?; frame].
  apply respects_lift_bind; [apply _|]. intros token Htoken%dict_item_ok.
  apply respects_bind; [apply _| |intros ?; frame].
  apply http_quiet. by apply (configured_write cfg token zone name id ip).
Qed.

Lemma send_telegram_message_configured name ip :
  cfg !! "record_name" = Some name -> public_quad ip ->
  respects (quiet (configured_event cfg))
    (send_telegram_message env cfg (update_message name ip)).
Proof.
  intros Hname Hip. unfold send_telegram_message.
  destruct (truthy (dict_get cfg "telegram_bot_token")) eqn:Htoken;
    [|apply respects_ret, _].
  destruct (truthy (or_empty_list _)); [|apply respects_ret, _].
  cbn [negb orb].
  apply respects_lift_bind; [apply _|]. intros targets Htargets.
  apply respects_for_each_in; [apply _|]. intros chat_id Hin.
  unfold deliver. apply respects_try; [apply _| |intros ?; frame].
  apply respects_bind; [apply _| |intros ?; frame].
  apply http_quiet. by eapply configured_notify.
Qed.

Lemma retry_handler_configured attempt e :
  respects (quiet (configured_event cfg)) (retry_handler env cfg attempt e).
Proof.
  unfold retry_handler.
  apply respects_lift_bind; [apply _|]. intros n _.
  destruct (attempt <? n)%Z; [|apply respects_ret, _].
  apply respects_lift_bind; [apply _|]. intros delay Hdelay%dict_item_ok.
  apply respects_bind; [apply _| |intros ?; frame].
  apply time_sleep_quiet. by apply configured_retry_sleep.
Qed.

Lemma attempt_update_configured ip attempt :
  public_quad ip ->
  respects (grew_by (configured_event cfg)) (attempt_update env cfg ip attempt).
Proof.
  intros Hip. rewrite attempt_update_parts.
  apply respects_try; [apply _| |].
  - apply respects_bind; [apply _| |].
    + apply quiet_grew_by, get_cloudflare_record_configured.
    + intros [[id cf_ip] cf_proxied]. unfold after_read.
      destruct (_ || _).
      * apply respects_bind; [apply _| |].
        -- by apply quiet_grew_by, update_cloudflare_dns_configured.
        -- intros []; unfold after_write; [|apply respects_ret, _].
           apply respects_lift_bind; [apply _|].
           intros name Hname%dict_item_ok.
           apply respects_bind; [apply _| |intros ?; frame].
           ++ by apply quiet_grew_by, send_telegram_message_configured.
           ++ apply set_last_ip_grew.
      * frame. apply set_last_ip_grew.
  - intros e. apply quiet_grew_by, retry_handler_configured.
Qed.

Lemma tick_configured : respects (grew_by (configured_event cfg)) (tick env cfg).
Proof.
  unfold tick. apply respects_bind; [apply _| |].
  - apply respects_try; [apply _| |intros ?; frame].
    unfold tick_body. apply respects_bind_ok; [apply _| |].
    + apply quiet_grew_by, get_current_ip_quiet.
      unfold methods. repeat constructor; apply configured_resolve;
        unfold methods; rewrite !elem_of_cons; auto.
    + intros s ip s1 Hip%get_current_ip_public.
      assert (respects (grew_by (configured_event cfg))
                (last ← get_last_ip;
                 if changed ip last
                 then max_retries ← lift (dict_item cfg "max_retries" ≫= as_int);
                      for_each (py_range 1 (max_retries + 1))
                        (attempt_update env cfg ip)
                 else ret tt)) as H; [|apply H].
      frame; [apply get_last_ip_respects, _|].
      by apply attempt_update_configured.
  - intros _. apply respects_lift_bind; [apply _|].
    intros interval Hinterval%dict_item_ok.
    apply quiet_grew_by, time_sleep_quiet. by apply configured_tick_sleep.
Qed.

Lemma main_loop_configured n s :
  Forall (configured_event cfg) (emitted (main_loop env cfg n) s).
Proof.
  apply grew_by_emitted. revert s.
  induction n as [|n IH]; intros s; cbn [main_loop].
  - reflexivity.
  - apply (respects_bind (grew_by (configured_event cfg)));
      [apply tick_configured | intros _ s'; apply IH].
Qed.

End Configured.

(** X9. What gets written.  In any run of the loop, with any configuration
    and any environment, every [PUT] is the update of the configured zone
    with the configured token, for the configured record name, with type A,
    TTL 1, the proxy flag off, and as content an address that the resolver
    validated: a dotted quad of decimal digits (of any script, as [\d] and
    [int] take them), each group worth at most 255, outside the private and
    loopback ranges. *)
Theorem every_write_is_a_validated_update env cfg n s r :
  Request r ∈ emitted (main_loop env cfg n) s ->
  req_method r = "PUT" ->
  exists token zone name id ip,
    identity cfg token zone name /\
    public_quad ip /\
    r = write_request token zone name id ip false.
Proof.
  intros Hin Hput.
  pose proof (main_loop_configured env cfg n s) as Hall.
  rewrite Forall_forall in Hall. specialize (Hall _ Hin).
  inversion Hall; subst; try discriminate Hput. eauto 8.
Qed.

(** X10. Where the credentials go.  In any run of the loop, every request
    to the provider carries exactly the bearer header built from the
    configured API token and the JSON content type, and no other request
    carries an [Authorization] header: the resolver's requests have no
    headers and no body, the notifier's only a content type. *)
Theorem credentials_go_only_to_the_provider env cfg n s r :
  Request r ∈ emitted (main_loop env cfg n) s ->
  if is_provider_call (Request r)
  then exists token,
         cfg !! "cloudflare_api_token" = Some token /\
         req_headers r = api_headers token
  else "Authorization" ∉ (req_headers r).*1.
Proof.
  intros Hin.
  pose proof (main_loop_configured env cfg n s) as Hall.
  rewrite Forall_forall in Hall. specialize (Hall _ Hin).
  inversion Hall as [url Hurl | token zone name (Htoken & _) Heq
                     | token zone name id ip (Htoken & _) _ Heq
                     | targets chat_id name ip _ _ _ _ _ Heq | |]; subst.
  - unfold methods in Hurl.
    repeat (apply elem_of_cons in Hurl as [->|Hurl];
            [cbn; apply not_elem_of_nil|]).
    by apply elem_of_nil in Hurl.
  - cbn. eauto.
  - cbn. eauto.
  - cbn. rewrite elem_of_cons, elem_of_nil. by intros [|].
Qed.

(** X11. Who gets notified, and of what.  In any run of the loop, every
    request to the messaging service uses the configured bot token, goes to
    one of the configured targets, and its text is the update message for the
    configured record name and an address that the resolver validated (a
    public dotted quad of decimal digits, of any script). *)
Theorem notifications_are_configured env cfg n s r :
  Request r ∈ emitted (main_loop env cfg n) s ->
  req_method r = "POST" ->
  exists targets chat_id name ip,
    truthy (dict_get cfg "telegram_bot_token") = true /\
    targets_of cfg = Ok targets /\ chat_id ∈ targets /\
    cfg !! "record_name" = Some name /\ public_quad ip /\
    r = telegram_request (dict_get cfg "telegram_bot_token") chat_id
          (update_message name ip).
Proof.
  intros Hin Hpost.
  pose proof (main_loop_configured env cfg n s) as Hall.
  rewrite Forall_forall in Hall. specialize (Hall _ Hin).
  inversion Hall; subst; try discriminate Hpost. eauto 10.
Qed.

(** *** The applied address *)

#[global] Instance keeps_public_preorder : PreOrder keeps_public.
Proof.
  split; [intros s H; exact H | intros s1 s2 s3 H1 H2 H; exact (H2 (H1 H))].
Qed.

#[global] Instance sets_or_keeps_preorder ip : PreOrder (sets_or_keeps ip).
Proof.
  split; [by left|]. intros s1 s2 s3 [H1|H1] [H2|H2]; unfold sets_or_keeps;
    rewrite ?H2, ?H1; auto.
Qed.

Lemma quiet_keeps_public {A} P (m : M A) :
  respects (quiet P) m -> respects keeps_public m.
Proof.
  intros H s. destruct (H s) as [Hsame _]. unfold keeps_public, last_ip_public.
  by rewrite Hsame.
Qed.

Lemma quiet_sets_or_keeps {A} P ip (m : M A) :
  respects (quiet P) m -> respects (sets_or_keeps ip) m.
Proof. intros H s. left. apply H. Qed.

Lemma attempt_update_keeps_public env cfg ip attempt :
  public_quad ip -> respects keeps_public (attempt_update env cfg ip attempt).
Proof.
  intros Hip. set (any := fun _ : event => True).
  assert (Hset : respects keeps_public (set_last_ip ip)) by (by intros s _).
  unfold attempt_update. frame; try exact Hset.
  - by apply (quiet_keeps_public any), get_cloudflare_record_quiet.
  - by apply (quiet_keeps_public any), update_cloudflare_dns_quiet.
  - by apply (quiet_keeps_public any), send_telegram_message_quiet.
  - by apply (quiet_keeps_public any), time_sleep_quiet.
Qed.

Lemma tick_keeps_public env cfg : respects keeps_public (tick env cfg).
Proof.
  set (any := fun _ : event => True).
  unfold tick. apply respects_bind; [apply _| |].
  - apply respects_try; [apply _| |intros ?; frame].
    unfold tick_body. apply respects_bind_ok; [apply _| |].
    + apply (quiet_keeps_public any), get_current_ip_quiet.
      by repeat constructor.
    + intros s ip s1 Hip%get_current_ip_public.
      assert (respects keeps_public
                (last ← get_last_ip;
                 if changed ip last
                 then max_retries ← lift (dict_item cfg "max_retries" ≫= as_int);
                      for_each (py_range 1 (max_retries + 1))
                        (attempt_update env cfg ip)
                 else ret tt)) as H; [|apply H].
      frame; [apply get_last_ip_respects, _|].
      by apply attempt_update_keeps_public.
  - intros _. frame. by apply (quiet_keeps_public any), time_sleep_quiet.
Qed.

(** X12. The applied address is always a validated one.  Whatever the
    configuration file and the environment, after any number of iterations
    of [main] the loop variable [last_ip] is unset or a dotted quad of
    decimal digits (of any script, as [\d] and [int] take them), each group
    worth at most 255, outside the private and loopback ranges; the loop
    keeps this from any state that has it. *)
Theorem last_ip_is_always_public env n :
  (forall cfg s,
     last_ip_public s -> last_ip_public (main_loop env cfg n s).2)
  /\ (forall file, last_ip_public (main env file n).2).
Proof.
  assert (Hloop : forall cfg, respects keeps_public (main_loop env cfg n)).
  { intros cfg. induction n as [|k IH]; cbn [main_loop]; frame;
      [apply tick_keeps_public | apply IH]. }
  split; [intros cfg s; apply Hloop|].
  intros file. unfold main. destruct (load_config file) as [cfg|]; [|done].
  destruct (_ ≫= setup_logging); [|done]. by apply Hloop.
Qed.

(** *** The parts of an attempt *)

Lemma retry_handler_quiet env cfg attempt e P :
  (forall v, P (Sleep v)) -> respects (quiet P) (retry_handler env cfg attempt e).
Proof. intros HP. unfold retry_handler. frame. by apply time_sleep_quiet. Qed.

Lemma after_read_tail env cfg ip attempt found :
  respects extends
    (try_except (after_read env cfg ip found) (retry_handler env cfg attempt))
  /\ respects (sets_or_keeps ip)
       (try_except (after_read env cfg ip found)
          (retry_handler env cfg attempt)).
Proof.
  set (any := fun _ : event => True).
  destruct found as [[id cf_ip] cf_proxied]. unfold after_read, after_write.
  split.
  - unfold extends. frame; try apply set_last_ip_grew.
    + by apply quiet_grew_by, update_cloudflare_dns_quiet.
    + by apply quiet_grew_by, send_telegram_message_quiet.
    + by apply quiet_grew_by, retry_handler_quiet.
  - assert (Hset : respects (sets_or_keeps ip) (set_last_ip ip))
      by (by intros s; right).
    frame; try exact Hset.
    + by apply (quiet_sets_or_keeps any), update_cloudflare_dns_quiet.
    + by apply (quiet_sets_or_keeps any), send_telegram_message_quiet.
    + by apply (quiet_sets_or_keeps any), retry_handler_quiet.
Qed.

(** *** Notifications *)

#[global] Instance announced_preorder : PreOrder announced.
Proof.
  split.
  - intros s. exists []. rewrite app_nil_r. split; [done|]. by left.
  - intros s1 s2 s3 (e1 & T1 & H1) (e2 & T2 & H2). exists (e1 ++ e2).
    rewrite T2, T1, app_assoc. split; [done|].
    destruct H1 as [H1 | (b1 & l1 & -> & Hb1 & Hw1)].
    + destruct H2 as [H2 | (b2 & l2 & -> & Hb2 & Hw2)].
      * left. by apply Forall_app.
      * right. exists (e1 ++ b2), l2. rewrite app_assoc. split; [done|].
        split; [by apply Forall_app|]. apply Exists_app. by right.
    + right. exists b1, (l1 ++ e2). by rewrite app_assoc.
Qed.

Lemma quiet_announced {A} (m : M A) :
  respects (quiet (fun ev => is_notify ev = false)) m -> respects announced m.
Proof.
  intros H s. destruct (H s) as [_ (evs & Ht & Hf)]. exists evs. auto.
Qed.

Lemma write_then s1 s3 s' token zone name id ip :
  s3 = after s1 [Request (write_request token zone name id ip false)] ->
  extends s3 s' -> announced s1 s'.
Proof.
  intros -> (post & Ht & _).
  exists ([Request (write_request token zone name id ip false)] ++ post).
  rewrite Ht. simpl. rewrite <- app_assoc. split; [done|]. right.
  exists [Request (write_request token zone name id ip false)], post.
  split; [done|]. split; [by repeat constructor|]. by apply Exists_cons_hd.
Qed.

Lemma after_write_tail env cfg ip attempt success :
  respects extends
    (try_except (after_write env cfg ip success) (retry_handler env cfg attempt)).
Proof.
  unfold after_write, extends. frame; try apply set_last_ip_grew.
  - by apply quiet_grew_by, send_telegram_message_quiet.
  - by apply quiet_grew_by, retry_handler_quiet.
Qed.

Lemma attempt_update_announced env cfg ip attempt :
  respects announced (attempt_update env cfg ip attempt).
Proof.
  set (silent := fun ev => is_notify ev = false).
  assert (Hhandler : forall e, respects announced (retry_handler env cfg attempt e))
    by (intros e; by apply quiet_announced, retry_handler_quiet).
  intros s. rewrite attempt_update_parts.
  assert (Hread : announced s (get_cloudflare_record env cfg s).2)
    by (by apply quiet_announced, get_cloudflare_record_quiet).
  destruct (get_cloudflare_record env cfg s) as [[found|e] s1] eqn:Hfetch.
  - rewrite (try_bind_ok _ _ _ _ _ _ Hfetch). etrans; [exact Hread|].
    destruct found as [[id cf_ip] cf_proxied]. unfold after_read.
    destruct (_ || _).
    + assert (Hput : announced s1 (update_cloudflare_dns env cfg id ip false s1).2)
        by (by apply quiet_announced, update_cloudflare_dns_quiet).
      destruct (update_cloudflare_dns env cfg id ip false s1)
        as [[success|e] s3] eqn:Hupdate.
      * rewrite (try_bind_ok _ _ _ _ _ _ Hupdate).
        destruct (update_cloudflare_dns_ok _ _ _ _ _ _ _ _ Hupdate)
          as (token & zone & name & _ & Hs3).
        eapply write_then; [exact Hs3 | apply after_write_tail].
      * rewrite (try_bind_raise _ _ _ _ _ _ Hupdate).
        etrans; [exact Hput | apply Hhandler].
    + exists []. simpl. rewrite app_nil_r. split; [done|]. by left.
  - rewrite (try_bind_raise _ _ _ _ _ _ Hfetch).
    etrans; [exact Hread | apply Hhandler].
Qed.

Lemma tick_announced env cfg : respects announced (tick env cfg).
Proof.
  unfold tick, tick_body. frame.
  - apply quiet_announced, get_current_ip_quiet. by repeat constructor.
  - apply get_last_ip_respects, _.
  - apply attempt_update_announced.
  - by apply quiet_announced, time_sleep_quiet.
Qed.

Lemma silent_prefix {A} (P : A -> Prop) (quiet_part rest before later : list A) x :
  quiet_part ++ rest = before ++ x :: later ->
  Forall P quiet_part -> ~ P x ->
  exists middle, before = quiet_part ++ middle.
Proof.
  revert before. induction quiet_part as [|y ys IH]; intros before Heq Hall Hx.
  - by exists before.
  - apply Forall_cons in Hall as [Hy Hall]. destruct before as [|b before].
    + simpl in Heq. injection Heq as -> _. done.
    + simpl in Heq. injection Heq as -> Heq.
      destruct (IH _ Heq Hall Hx) as (middle & ->). by exists middle.
Qed.

(** X14. No notification without a write.  In every tick, whatever comes
    before a request to the messaging service includes a [PUT] to the
    provider sent in the same tick: operators are never told of an address
    that the tick did not first write. *)
Theorem notification_follows_a_write env cfg s before r later :
  emitted (tick env cfg) s = before ++ Request r :: later ->
  req_method r = "POST" ->
  Exists (fun ev => is_write ev = true) before.
Proof.
  intros Hsplit Hpost.
  assert (Hnotify : is_notify (Request r) = true).
  { unfold is_notify, classify. by rewrite Hpost. }
  destruct (tick_announced env cfg s) as (evs & Ht & Hcases).
  rewrite (emitted_grew _ _ _ Ht) in Hsplit. subst evs.
  destruct Hcases as [Hsilent | (quiet_part & rest & Heq & Hsilent & Hwrite)].
  - apply Forall_app in Hsilent as [_ Hr]. apply Forall_cons in Hr as [Hr _].
    congruence.
  - destruct (silent_prefix _ _ _ _ _ _ (eq_sym Heq) Hsilent) as (middle & ->);
      [congruence|].
    apply Exists_app. by left.
Qed.

(** *** When the provider is consulted *)

#[global] Instance rests_at_preorder ip : PreOrder (rests_at ip).
Proof.
  split.
  - intros s Hs. split; [done | reflexivity].
  - intros s1 s2 s3 H1 H2 Hs. destruct (H1 Hs) as [Hs2 G1].
    destruct (H2 Hs2) as [Hs3 G2]. split; [done | by etrans].
Qed.

Lemma tick_rests env cfg ip :
  (forall s ip' s1, get_current_ip env s = (Ok ip', s1) -> ip' = ip) ->
  respects (rests_at ip) (tick env cfg).
Proof.
  set (away := fun ev => is_provider_call ev = false).
  intros Hsame s Hlast. rewrite tick_unfold. unfold guarded_body.
  assert (Hres : quiet away s (get_current_ip env s).2)
    by (apply get_current_ip_quiet; by repeat constructor).
  assert (Hbody : quiet away s
                    (try_except (tick_body env cfg) (fun _ => ret tt) s).2).
  { destruct (get_current_ip env s) as [[ip'|e] s1] eqn:Hip.
    - pose proof (Hsame _ _ _ Hip) as ->.
      by rewrite (try_ok _ _ _ _ _ (tick_body_unchanged _ _ _ _ _ Hip Hlast)).
    - unfold tick_body. by rewrite (try_bind_raise _ _ _ _ _ _ Hip). }
  assert (Hall : quiet away s
                   (inter_tick_sleep env cfg
                      (try_except (tick_body env cfg) (fun _ => ret tt) s).2).2).
  { etrans; [exact Hbody|]. by apply inter_tick_sleep_quiet. }
  destruct Hall as [Hkeep Hgrew]. split; [|done].
  unfold same_last_ip in Hkeep. by rewrite Hkeep.
Qed.

(** X15. A settled address keeps the provider out.  Once [last_ip] is
    [ip], for as long as the resolver returns [ip] whenever it returns
    anything, no tick sends any request to the provider and [last_ip] stays
    [ip]; what the record at the provider holds by then plays no part. *)
Theorem provider_is_left_alone_once_settled env cfg ip n s :
  (forall s0 ip' s1, get_current_ip env s0 = (Ok ip', s1) -> ip' = ip) ->
  last_ip s = Some ip ->
  last_ip (main_loop env cfg n s).2 = Some ip
  /\ List.filter is_provider_call (emitted (main_loop env cfg n) s) = [].
Proof.
  intros Hsame Hlast.
  assert (Hloop : respects (rests_at ip) (main_loop env cfg n)).
  { induction n as [|k IH]; cbn [main_loop]; frame;
      [by apply tick_rests | apply IH]. }
  destruct (Hloop s Hlast) as [Hkeep Hgrew]. split; [done|].
  apply filter_none. by apply (grew_by_emitted _ _ _ Hgrew).
Qed.

Lemma attempt_update_extends env cfg ip attempt :
  respects extends (attempt_update env cfg ip attempt).
Proof.
  unfold attempt_update, extends. frame; try apply set_last_ip_grew.
  - by apply quiet_grew_by, get_cloudflare_record_quiet.
  - by apply quiet_grew_by, update_cloudflare_dns_quiet.
  - by apply quiet_grew_by, send_telegram_message_quiet.
  - by apply quiet_grew_by, time_sleep_quiet.
Qed.

Lemma attempt_update_begins_with_read env cfg ip attempt token zone name s :
  identity cfg token zone name ->
  extends (after s [Request (read_request token zone name)])
    (attempt_update env cfg ip attempt s).2.
Proof.
  intros (Htoken & Hzone & Hname). rewrite attempt_update_parts.
  pose proof (get_cloudflare_record_run env cfg _ _ _ s Htoken Hzone Hname)
    as Hrun.
  fold (read_request token zone name) in Hrun.
  destruct ((urlopen env _ (read_request token zone name) ≫= body_json)
            ≫= first_record) as [found|e].
  - rewrite (try_bind_ok _ _ _ _ _ _ Hrun).
    apply (proj1 (after_read_tail env cfg ip attempt found)).
  - rewrite (try_bind_raise _ _ _ _ _ _ Hrun).
    by apply quiet_grew_by, retry_handler_quiet.
Qed.

(** X16. A changed address always reaches the provider.  In every tick
    whose resolved address differs from [last_ip], in particular in the
    first tick after a start, with at least one attempt configured and the
    identity fields in place, the first thing the tick does after the
    resolver is to read the record from the provider. *)
Theorem changed_address_reaches_the_provider
    env cfg s ip s1 n token zone name :
  get_current_ip env s = (Ok ip, s1) ->
  changed ip (last_ip s) = true ->
  dict_item cfg "max_retries" ≫= as_int = Ok n -> 1 <= n ->
  identity cfg token zone name ->
  exists later,
    trace (tick env cfg s).2
    = trace s1 ++ Request (read_request token zone name) :: later.
Proof.
  intros Hip Hch Hn Hpos Hid.
  assert (Htail : extends (after s1 [Request (read_request token zone name)])
                    (tick env cfg s).2).
  { rewrite tick_unfold. unfold guarded_body.
    etrans; [|by apply (quiet_grew_by _ _ (inter_tick_sleep_quiet env cfg _
                                              (fun _ => I)))].
    assert (Hbody : extends (after s1 [Request (read_request token zone name)])
                      (tick_body env cfg s).2).
    { rewrite (tick_body_changed _ _ _ _ _ _ Hip Hch Hn).
      rewrite (py_range_first _ Hpos). cbn [for_each].
      pose proof (attempt_update_begins_with_read env cfg ip 1 _ _ _ s1 Hid)
        as Hfirst.
      unfold mbind, M_bind, bind.
      destruct (attempt_update env cfg ip 1 s1) as [[[]|e] s2]; try done.
      etrans; [exact Hfirst|].
      apply (respects_for_each extends). intros x.
      apply attempt_update_extends. }
    unfold try_except.
    destruct (tick_body env cfg s) as [[[]|e] s2]; exact Hbody. }
  destruct Htail as (later & Ht & _). exists later.
  rewrite Ht. simpl. by rewrite <- app_assoc.
Qed.

(* ================================================================== *)
(** ** Attempts that fail, attempts that complete *)

(** The handler of an attempt never breaks out of the loop. *)
Lemma retry_handler_next env cfg attempt e s :
  (retry_handler env cfg attempt e s).1 <> Ok Break.
Proof.
  unfold retry_handler.
  destruct (dict_item cfg "max_retries" ≫= as_int) as [n|]; [|done].
  rewrite (lift_ok _ _ _ n) by done.
  destruct (attempt <? n); [|done].
  destruct (dict_item cfg "retry_delay") as [delay|] eqn:Hdelay; [|done].
  rewrite (lift_ok _ _ _ delay) by done. run. unfold time_sleep.
  by destruct (sleep_error env delay).
Qed.



(** What an attempt that reaches [break] has done: it read the record, and
    either found it aligned or wrote it with success. *)
Lemma attempt_break_inv env cfg ip attempt s s' :
  attempt_update env cfg ip attempt s = (Ok Break, s') ->
  exists id content proxied s_r,
    get_cloudflare_record env cfg s = (Ok (id, content, proxied), s_r) /\
    last_ip s' = Some ip /\
    extends s_r s' /\
    ((differs ip content = false /\ truthy proxied = false)
     \/ exists s_w,
          update_cloudflare_dns env cfg id ip false s_r = (Ok true, s_w)).
Proof.
  rewrite attempt_update_parts.
  destruct (get_cloudflare_record env cfg s)
    as [[[[id content] proxied]|e] s_r] eqn:Hread.
  - rewrite (try_bind_ok _ _ _ _ _ _ Hread). intros Hbreak.
    exists id, content, proxied, s_r. split; [done|].
    assert (Hext : extends s_r s').
    { replace s' with
        (try_except (after_read env cfg ip (id, content, proxied))
           (retry_handler env cfg attempt) s_r).2 by (by rewrite Hbreak).
      apply (proj1 (after_read_tail env cfg ip attempt (id, content, proxied))). }
    unfold after_read in Hbreak.
    destruct (differs ip content || truthy proxied) eqn:Hdrift.
    + destruct (update_cloudflare_dns env cfg id ip false s_r)
        as [[[]|e] s_w] eqn:Hput.
      * rewrite (try_bind_ok _ _ _ _ _ _ Hput) in Hbreak.
        split; [|split; [done | right; by exists s_w]].
        unfold after_write in Hbreak.
        destruct (dict_item cfg "record_name") as [name|err] eqn:Hname.
        -- rewrite (try_bind_ok _ _ _ _ _ _ (eq_refl : lift (Ok name) s_w = _))
             in Hbreak.
           destruct (send_telegram_message env cfg (update_message name ip) s_w)
             as [[[]|e] s4] eqn:Hsend.
           ++ rewrite (try_bind_ok _ _ _ _ _ _ Hsend) in Hbreak.
              by injection Hbreak as <-.
           ++ rewrite (try_bind_raise _ _ _ _ _ _ Hsend) in Hbreak.
              destruct (retry_handler_next env cfg attempt e s4).
              by rewrite Hbreak.
        -- rewrite (try_bind_raise _ _ _ _ _ _
                      (eq_refl : lift (Raise err) s_w = _)) in Hbreak.
           destruct (retry_handler_next env cfg attempt err s_w).
           by rewrite Hbreak.
      * rewrite (try_bind_ok _ _ _ _ _ _ Hput) in Hbreak. done.
      * rewrite (try_bind_raise _ _ _ _ _ _ Hput) in Hbreak.
        destruct (retry_handler_next env cfg attempt e s_w). by rewrite Hbreak.
    + apply orb_false_elim in Hdrift. injection Hbreak as <-.
      split; [done|]. split; [done | by left].
  - rewrite (try_bind_raise _ _ _ _ _ _ Hread). intros Hbreak.
    destruct (retry_handler_next env cfg attempt e s_r). by rewrite Hbreak.
Qed.

(** An exception in the [try] block of an attempt goes to the retry
    handler: the attempt does not reach [break] and leaves [last_ip]. *)
Lemma attempt_raise_handled env cfg ip attempt s e s' :
  attempt_try env cfg ip s = (Raise e, s') ->
  attempt_update env cfg ip attempt s = retry_handler env cfg attempt e s'
  /\ (attempt_update env cfg ip attempt s).1 <> Ok Break
  /\ last_ip (attempt_update env cfg ip attempt s).2 = last_ip s.
Proof.
  intros Hraise.
  assert (Hrun : attempt_update env cfg ip attempt s
                 = retry_handler env cfg attempt e s')
    by (rewrite attempt_update_parts; by apply try_raise).
  assert (Hnext : (attempt_update env cfg ip attempt s).1 <> Ok Break)
    by (rewrite Hrun; apply retry_handler_next).
  split; [done|]. split; [done|].
  by destruct (attempt_update_keeps_or_breaks env cfg ip attempt s).
Qed.

(** Where [last_ip] stands after the retry loop. *)
Lemma attempts_last_ip env cfg ip xs s :
  last_ip (for_each xs (attempt_update env cfg ip) s).2
  = if reaches_break (attempt_update env cfg ip) xs s then Some ip
    else last_ip s.
Proof.
  revert s. induction xs as [|x xs IH]; intros s; [done|].
  cbn [for_each reaches_break]. run.
  pose proof (attempt_update_keeps_or_breaks env cfg ip x s) as Hkeep.
  destruct (attempt_update env cfg ip x s) as [[[]|e] s1] eqn:Hx; simpl in *.
  - rewrite IH. destruct Hkeep as [|Hkeep]; [done|]. by rewrite Hkeep.
  - by destruct (attempt_break_inv _ _ _ _ _ _ Hx) as (? & ? & ? & ? & _ & ? & _).
  - by destruct Hkeep.
Qed.

(** The attempt that reaches [break], if one does. *)
Lemma reaches_break_inv {A} (body : A -> M flow) xs s :
  (forall x, respects extends (body x)) ->
  reaches_break body xs s = true ->
  exists x s_a s_b,
    x ∈ xs /\ extends s s_a /\ body x s_a = (Ok Break, s_b) /\
    for_each xs body s = (Ok tt, s_b).
Proof.
  intros Hext. revert s. induction xs as [|x xs IH]; intros s; [done|].
  cbn [reaches_break for_each]. run. pose proof (Hext x s) as Hx.
  destruct (body x s) as [[[]|e] s1] eqn:Hbody; simpl in *; [| |done].
  - intros (y & s_a & s_b & Hy & Ha & Hb & Hrun)%IH.
    exists y, s_a, s_b. split; [by right|]. split; [by etrans|]. done.
  - intros _. exists x, s, s1. split; [by left|]. split; [reflexivity|]. done.
Qed.

Lemma last_ip_after_resolver env s :
  last_ip (get_current_ip env s).2 = last_ip s.
Proof.
  apply (quiet_same_last_ip (fun _ => True)), get_current_ip_quiet.
  by repeat constructor.
Qed.

Lemma attempts_of_run env cfg s ip xs s1 :
  attempts_of env cfg s = Some (ip, xs, s1) ->
  get_current_ip env s = (Ok ip, s1) /\
  last_ip s1 = last_ip s /\
  tick_body env cfg s = for_each xs (attempt_update env cfg ip) s1.
Proof.
  unfold attempts_of. pose proof (last_ip_after_resolver env s) as Hkeep.
  destruct (get_current_ip env s) as [[ip'|e] s1'] eqn:Hip; [|done].
  simpl in Hkeep. destruct (changed ip' (last_ip s1')) eqn:Hch; [|done].
  destruct (dict_item cfg "max_retries" ≫= as_int) as [n|] eqn:Hn; [|done].
  intros [= <- <- <-]. split; [done|]. split; [done|].
  rewrite Hkeep in Hch. by apply tick_body_changed.
Qed.

Lemma attempts_of_none env cfg s :
  attempts_of env cfg s = None ->
  last_ip (guarded_body env cfg s).2 = last_ip s.
Proof.
  unfold attempts_of, guarded_body, tick_body.
  pose proof (last_ip_after_resolver env s) as Hkeep. run.
  destruct (get_current_ip env s) as [[ip|e] s1]; simpl in *; [|done].
  destruct (changed ip (last_ip s1)); [|done].
  destruct (dict_item cfg "max_retries") as [v|]; simpl; [|done].
  by destruct (as_int v).
Qed.

Lemma last_ip_after_sleep env cfg s :
  last_ip (inter_tick_sleep env cfg s).2 = last_ip s.
Proof.
  apply (quiet_same_last_ip (fun _ => True)). by apply inter_tick_sleep_quiet.
Qed.

(** Where [last_ip] stands after a tick. *)
Lemma tick_last_ip env cfg s :
  last_ip (tick env cfg s).2
  = match attempts_of env cfg s with
    | Some (ip, xs, s1) =>
        if reaches_break (attempt_update env cfg ip) xs s1 then Some ip
        else last_ip s
    | None => last_ip s
    end.
Proof.
  rewrite tick_unfold, last_ip_after_sleep.
  destruct (attempts_of env cfg s) as [[[ip xs] s1]|] eqn:Hattempts;
    [|by apply attempts_of_none].
  destruct (attempts_of_run _ _ _ _ _ _ Hattempts) as (_ & Hkeep & Hbody).
  unfold guarded_body, try_except. rewrite Hbody, <- Hkeep.
  pose proof (attempts_last_ip env cfg ip xs s1) as Hlast.
  by destruct (for_each xs (attempt_update env cfg ip) s1) as [[[]|e] s2].
Qed.

Lemma tick_without_break env cfg s :
  tick_reaches_break env cfg s = false ->
  last_ip (tick env cfg s).2 = last_ip s.
Proof.
  unfold tick_reaches_break. rewrite tick_last_ip.
  destruct (attempts_of env cfg s) as [[[ip xs] s1]|]; [|done]. by intros ->.
Qed.

Lemma tick_extends_body env cfg s :
  extends (tick_body env cfg s).2 (tick env cfg s).2.
Proof.
  rewrite tick_unfold. unfold guarded_body, try_except.
  assert (Hsleep : forall s0, extends s0 (inter_tick_sleep env cfg s0).2)
    by (intros s0; by apply (quiet_grew_by _ _ (inter_tick_sleep_quiet env cfg _
                                                  (fun _ => I)))).
  destruct (tick_body env cfg s) as [[[]|e] s1]; apply Hsleep.
Qed.

(** The tick that breaks: the attempt that did it, with what it read. *)
Lemma tick_with_break env cfg s :
  tick_reaches_break env cfg s = true ->
  exists ip s1 s_a id content proxied s_r,
    get_current_ip env s = (Ok ip, s1) /\
    last_ip (tick env cfg s).2 = Some ip /\
    extends s1 s_a /\
    get_cloudflare_record env cfg s_a = (Ok (id, content, proxied), s_r) /\
    extends s_r (tick env cfg s).2 /\
    ((differs ip content = false /\ truthy proxied = false)
     \/ exists s_w,
          update_cloudflare_dns env cfg id ip false s_r = (Ok true, s_w)).
Proof.
  intros Hbreak. pose proof (tick_last_ip env cfg s) as Hlast.
  pose proof (tick_extends_body env cfg s) as Htail.
  unfold tick_reaches_break in Hbreak.
  destruct (attempts_of env cfg s) as [[[ip xs] s1]|] eqn:Hattempts; [|done].
  rewrite Hbreak in Hlast.
  destruct (attempts_of_run _ _ _ _ _ _ Hattempts) as (Hip & _ & Hbody).
  apply reaches_break_inv in Hbreak
      as (x & s_a & s_b & _ & Hext & Hturn & Hloop);
    [|intros y; apply attempt_update_extends].
  destruct (attempt_break_inv _ _ _ _ _ _ Hturn)
    as (id & content & proxied & s_r & Hread & _ & Hrest & Hwhy).
  rewrite Hbody, Hloop in Htail. simpl in Htail.
  exists ip, s1, s_a, id, content, proxied, s_r.
  repeat (split; [done|]). split; [by etrans|]. done.
Qed.

(** X13. The applied address changes only after the record was read.  In
    every tick, either [last_ip] is the same after the tick as before, or
    the resolver returned an address in this tick, [last_ip] is now that
    address, and an attempt of this tick got the record from the provider
    and then either found it aligned (same content, proxy off) or replaced
    it with a write that reported success. *)
Theorem last_ip_changes_only_after_a_read env cfg s :
  last_ip (tick env cfg s).2 = last_ip s
  \/ exists ip s1 s_a id content proxied s_r,
       get_current_ip env s = (Ok ip, s1) /\
       last_ip (tick env cfg s).2 = Some ip /\
       extends s1 s_a /\
       get_cloudflare_record env cfg s_a = (Ok (id, content, proxied), s_r) /\
       extends s_r (tick env cfg s).2 /\
       ((differs ip content = false /\ truthy proxied = false)
        \/ exists s_w,
             update_cloudflare_dns env cfg id ip false s_r = (Ok true, s_w)).
Proof.
  destruct (tick_reaches_break env cfg s) eqn:Hbreak.
  - right. by apply tick_with_break.
  - left. by apply tick_without_break.
Qed.

(** X20. No break, no new address.  A tick none of whose attempts reaches
    [break], whether they fail by an exception or by a refused write (or
    because the tick never gets to an attempt), leaves [last_ip] as it was;
    a tick one of whose attempts reaches [break] leaves [last_ip] at the
    address that the resolver returned. *)
Theorem tick_without_break_keeps env cfg s :
  (tick_reaches_break env cfg s = false ->
   last_ip (tick env cfg s).2 = last_ip s)
  /\ (tick_reaches_break env cfg s = true ->
      exists ip s1,
        get_current_ip env s = (Ok ip, s1) /\
        last_ip (tick env cfg s).2 = Some ip).
Proof.
  split; [apply tick_without_break|].
  intros (ip & s1 & _ & _ & _ & _ & _ & Hip & Hlast & _)%tick_with_break.
  by exists ip, s1.
Qed.

(* ================================================================== *)
(** ** Containment *)

Lemma main_loop_run env cfg interval n s :
  cfg !! "check_interval" = Some interval ->
  sleep_error env interval = None ->
  main_loop env cfg n s = (Ok tt, after_ticks env cfg n s).
Proof.
  intros Hcfg Hsleep. revert s. induction n as [|n IH]; intros s; [done|].
  cbn [main_loop after_ticks].
  rewrite (bind_ok _ _ _ _ _ (tick_ok _ _ s _ Hcfg Hsleep)), IH.
  by rewrite (tick_ok _ _ s _ Hcfg Hsleep).
Qed.

(** C7. Error containment at the tick boundary.  With an inter-tick interval
    that [time.sleep] accepts, whatever the resolver, the provider and the
    notifier do:
    - the [try] block of every iteration ends normally and the iteration
      ends with the inter-tick sleep;
    - an exception that leaves the [try] block (the resolver's, say) is
      swallowed there and [last_ip] is what it was before the iteration;
    - an exception inside an attempt (the provider client's, say) goes to
      the retry handler: that attempt does not reach [break] and leaves
      [last_ip] as it was;
    - a tick none of whose attempts reaches [break] leaves [last_ip] as it
      was;
    - on a loaded configuration the notifier returns normally, with
      [last_ip] untouched, whatever its requests meet;
    - and the loop goes on: after [n] iterations it has not raised, and its
      state is that of [n] ticks run one after the other. *)
Theorem tick_error_containment env cfg s interval :
  cfg !! "check_interval" = Some interval ->
  sleep_error env interval = None ->
  (exists s',
     guarded_body env cfg s = (Ok tt, s') /\
     tick env cfg s = (Ok tt, after s' [Sleep interval]))
  /\ (forall e s',
        tick_body env cfg s = (Raise e, s') ->
        tick env cfg s = (Ok tt, after s' [Sleep interval])
        /\ last_ip (tick env cfg s).2 = last_ip s)
  /\ (forall ip attempt s0 e s',
        attempt_try env cfg ip s0 = (Raise e, s') ->
        attempt_update env cfg ip attempt s0
        = retry_handler env cfg attempt e s'
        /\ (attempt_update env cfg ip attempt s0).1 <> Ok Break
        /\ last_ip (attempt_update env cfg ip attempt s0).2 = last_ip s0)
  /\ (tick_reaches_break env cfg s = false ->
      last_ip (tick env cfg s).2 = last_ip s)
  /\ (forall file message s0,
        load_config file = Ok cfg ->
        exists evs,
          send_telegram_message env cfg message s0 = (Ok tt, after s0 evs))
  /\ (forall n, main_loop env cfg n s = (Ok tt, after_ticks env cfg n s)).
Proof.
  intros Hcfg Hsleep. repeat apply conj.
  - exists (guarded_body env cfg s).2. split; [|by apply tick_ok].
    pose proof (guarded_body_ok env cfg s).
    by destruct (guarded_body env cfg s) as [[[]|] s'].
  - intros e s' Hraise.
    assert (Htick : tick env cfg s = (Ok tt, after s' [Sleep interval])).
    { rewrite (tick_ok _ _ _ _ Hcfg Hsleep). unfold guarded_body.
      by rewrite (try_raise _ _ _ _ _ Hraise). }
    split; [done|]. rewrite Htick. simpl.
    by eapply tick_body_raise_keeps.
  - intros ip attempt s0 e s'. apply attempt_raise_handled.
  - apply tick_without_break.
  - intros file message s0 (ids & Hids)%load_config_targets.
    eexists. by apply send_telegram_message_list.
  - intros n. by eapply main_loop_run.
Qed.

(* ================================================================== *)
(** ** Forced writes *)



Section Forced.
Context (env : environment) (cfg : gmap str json).
Context (s s1 s2 : state) (ip : str) (n : Z) (id proxied : json).
Context (token zone name : json).
Context (Hres : get_current_ip env s = (Ok ip, s1)).
Context (Hch : changed ip (last_ip s) = true).
Context (Hn : dict_item cfg "max_retries" ≫= as_int = Ok n).
Context (Hpos : 1 <= n).
Context (Hfetch : get_cloudflare_record env cfg s1
                  = (Ok (id, JStr ip, proxied), s2)).
Context (Hon : truthy proxied = true).
Context (Hid : identity cfg token zone name).








End Forced.



(* ================================================================== *)
(** ** Worked runs *)

(** A drifted, proxied record: one read, one write, one notification per
    target, and [last_ip] becomes the resolved address. *)
Example scenario_drift :
  let end_of_tick := tick env_drift sample_cfg initial_state in
  end_of_tick.1 = Ok tt
  /\ last_ip end_of_tick.2 = Some "203.0.113.5"
  /\ classify <$> trace end_of_tick.2
     = [Resolve; Read; Write; Notify; Notify; Pause (JInt 30)]
  /\ List.filter is_write (trace end_of_tick.2)
     = [Request (api_request (JStr "token") "PUT"
                   (update_url (JStr "zone") (JStr "abc"))
                   (Some (update_payload (JStr "home.example.org")
                            "203.0.113.5" false)))].
Proof. vm_compute. done. Qed.

(** The same address on two ticks with the provider already correct: one
    read on the first tick, nothing but the resolver on the second. *)
Example scenario_unchanged :
  let end_of_run := main_loop env_aligned sample_cfg 2 initial_state in
  end_of_run.1 = Ok tt
  /\ last_ip end_of_run.2 = Some "198.51.100.9"
  /\ classify <$> trace end_of_run.2
     = [Resolve; Read; Pause (JInt 30); Resolve; Pause (JInt 30)].
Proof. vm_compute. done. Qed.

(** [setup_logging] looks the level up after [upper()]: an unknown name
    falls back to [INFO], the name of another upper-case attribute of
    [logging] is no level, and only a string has [upper]. *)
Example setup_logging_samples :
  setup_logging (JStr "debug") = Ok tt
  /\ setup_logging (JStr "verbose") = Ok tt
  /\ setup_logging (JStr "basic_format") = Raise ValueError
  /\ setup_logging (JStr "_styles") = Raise TypeError
  /\ setup_logging (JInt 20) = Raise AttributeError.
Proof. vm_compute. done. Qed.

(** What the sample machine's [time.sleep] takes: integers, booleans and
    floats (here 0.5) within range. *)
Example sleep_samples :
  py_sleep_error sample_clock (JInt 30) = None
  /\ py_sleep_error sample_clock (JBool true) = None
  /\ py_sleep_error sample_clock
       (JFloat (S754_finite false 4503599627370496 (-53))) = None
  /\ py_sleep_error sample_clock (JInt (-1)) = Some ValueError
  /\ py_sleep_error sample_clock (JInt 1000000000000) = Some OverflowError
  /\ py_sleep_error sample_clock (JInt 9223372036)
     = Some (ExternalError "OSError")
  /\ py_sleep_error sample_clock (JStr "30") = Some TypeError.
Proof. vm_compute. done. Qed.

(** A dict iterates over its keys in insertion order and reads the last
    value given for a key. *)
Example dict_samples :
  let d := JObj [ ("b", JInt 1); ("a", JInt 2); ("b", JInt 3) ] in
  py_iter d = Ok [JStr "b"; JStr "a"] /\ py_item d "b" = Ok (JInt 3).
Proof. vm_compute. done. Qed.

Lemma sample_cfg_loads : load_config (Parsed (JObj sample_file)) = Ok sample_cfg.
Proof. vm_compute. reflexivity. Qed.

Lemma resolver_ordered_fallback_witness :
  get_current_ip env_fallback initial_state
  = (Ok "203.0.113.5",
     after initial_state
       [ Request (ip_request "https://api.ipify.org");
         Request (ip_request "https://ifconfig.me/ip") ])
  /\ get_current_ip env_dark initial_state
     = (Raise (NoPublicIP (Some (ExternalError "timeout"))),
        after initial_state (Request ∘ ip_request <$> methods)).
Proof.
  split.
  - apply (proj1 (resolver_ordered_fallback env_fallback methods initial_state)
             1%nat "203.0.113.5").
    + vm_compute. reflexivity.
    + vm_compute. repeat constructor.
  - apply (proj2 (resolver_ordered_fallback env_dark methods initial_state)).
    vm_compute. repeat constructor.
Defined.

Lemma fetch_record_result_witness :
  (get_cloudflare_record env_drift sample_cfg initial_state).1
  = Ok (JStr "abc", JStr "203.0.113.4", JBool true)
  /\ (get_cloudflare_record env_no_record sample_cfg initial_state).1
     = Raise RecordNotFound.
Proof.
  split.
  - destruct (proj1 (fetch_record_result env_drift sample_cfg initial_state
                       (JStr "token") (JStr "zone") (JStr "home.example.org")
                       (json_response
                          (listing true [record "abc" "203.0.113.4" true]))
                       (listing true [record "abc" "203.0.113.4" true])
                       eq_refl eq_refl eq_refl eq_refl eq_refl eq_refl)
                (record "abc" "203.0.113.4" true) [] eq_refl eq_refl)
      as (triple & Htriple & ->).
    vm_compute in Htriple. by injection Htriple as <-.
  - apply (proj1 (proj2 (fetch_record_result env_no_record sample_cfg
                           initial_state
                           (JStr "token") (JStr "zone")
                           (JStr "home.example.org")
                           (json_response (listing true []))
                           (listing true [])
                           eq_refl eq_refl eq_refl eq_refl eq_refl eq_refl))).
    right. reflexivity.
Defined.

Lemma load_config_notification_targets_witness :
  is_ok (load_config
           (Parsed (JObj (("telegram_chat_ids",
                           JArr [JInt 1; JStr (StrCons 0x1c "5")])
                          :: minimal_file)))) = false
  /\ load_config (Parsed (JObj minimal_file))
     = Ok (<["telegram_chat_ids" := JArr []]> (fields minimal_file ∪ defaults)).
Proof.
  split.
  - apply (proj1 (load_config_notification_targets _)
             [JInt 1; JStr (StrCons 0x1c "5")] (JStr (StrCons 0x1c "5"))).
    + vm_compute. reflexivity.
    + apply elem_of_cons. right. apply elem_of_cons. by left.
    + vm_compute. reflexivity.
  - apply (proj2 (load_config_notification_targets _)).
    + left. vm_compute. reflexivity.
    + vm_compute. reflexivity.
Defined.

Lemma notifier_contract_witness :
  send_telegram_message env_proxied (delete "telegram_bot_token" sample_cfg)
    [Lit "hello"] initial_state = (Ok tt, initial_state)
  /\ send_telegram_message env_proxied sample_cfg [Lit "hello"] initial_state
     = (Ok tt,
        after initial_state
          [ Request (telegram_request (JStr "bot") (JInt 7) [Lit "hello"]);
            Request (telegram_request (JStr "bot") (JInt 8) [Lit "hello"]) ]).
Proof.
  split.
  - apply (proj1 (notifier_contract env_proxied
                    (delete "telegram_bot_token" sample_cfg)
                    [Lit "hello"] initial_state)).
    left. vm_compute. reflexivity.
  - destruct (proj2 (notifier_contract env_proxied sample_cfg
                       [Lit "hello"] initial_state)
                (Parsed (JObj sample_file)) sample_cfg_loads)
      as (ids & Hids & ->).
    vm_compute in Hids. injection Hids as Hids.
    destruct ids as [|a [|b [|c ids]]]; try discriminate.
    injection Hids as <- <-. reflexivity.
Defined.

Lemma tick_error_containment_witness :
  (tick env_dark sample_cfg initial_state).1 = Ok tt
  /\ last_ip (tick env_dark sample_cfg initial_state).2 = None
  /\ last_ip (tick env_down sample_cfg initial_state).2 = None
  /\ (send_telegram_message env_proxied sample_cfg [Lit "hello"]
        initial_state).1 = Ok tt
  /\ main_loop env_down sample_cfg 3 initial_state
     = (Ok tt, after_ticks env_down sample_cfg 3 initial_state).
Proof.
  pose proof (tick_error_containment env_dark sample_cfg initial_state
                (JInt 30) eq_refl eq_refl) as (_ & Hraise & _).
  pose proof (tick_error_containment env_down sample_cfg initial_state
                (JInt 30) eq_refl eq_refl) as (_ & _ & _ & Hfailed & _ & Hloop).
  pose proof (tick_error_containment env_proxied sample_cfg initial_state
                (JInt 30) eq_refl eq_refl) as (_ & _ & _ & _ & Hnotify & _).
  destruct (Hraise (NoPublicIP (Some (ExternalError "timeout")))
              (after initial_state (Request ∘ ip_request <$> methods)))
    as [Htick Hlast].
  { vm_compute. reflexivity. }
  destruct (Hnotify (Parsed (JObj sample_file)) [Lit "hello"] initial_state
              sample_cfg_loads) as (evs & Hsent).
  split; [by rewrite Htick|]. split; [exact Hlast|].
  split; [apply Hfailed; vm_compute; reflexivity|].
  split; [by rewrite Hsent | apply Hloop].
Defined.

Lemma local_short_circuit_witness :
  let s := {| last_ip := Some "198.51.100.9"; trace := [] |} in
  last_ip (tick env_aligned sample_cfg s).2 = Some "198.51.100.9"
  /\ List.filter is_provider_call (emitted (tick env_aligned sample_cfg) s) = [].
Proof.
  intros s.
  destruct (local_short_circuit env_aligned sample_cfg s "198.51.100.9"
              (after s [Request (ip_request "https://api.ipify.org")]))
    as (_ & Hlast & Hnone).
  - vm_compute. reflexivity.
  - reflexivity.
  - split; [exact Hlast | exact Hnone].
Defined.

Lemma env_aligned_resolves s ip' s1 :
  get_current_ip env_aligned s = (Ok ip', s1) -> ip' = "198.51.100.9".
Proof.
  unfold get_current_ip, methods. cbn [query]. rewrite probe_run.
  change (answer env_aligned (length (trace s)) "https://api.ipify.org")
    with (Ok (Some "198.51.100.9") : result (option str)).
  by intros [= <- _].
Qed.

Lemma env_aligned_provider s id content proxied s2 :
  get_cloudflare_record env_aligned sample_cfg s
  = (Ok (id, content, proxied), s2) ->
  content = JStr "198.51.100.9" /\ truthy proxied = false.
Proof.
  rewrite (get_cloudflare_record_run _ _ (JStr "token") (JStr "zone")
             (JStr "home.example.org")) by reflexivity.
  set (r := (_ ≫= first_record)). vm_compute in r. subst r.
  by intros [= <- <- <- _].
Qed.

Lemma reconciliation_idempotent_witness :
  last_ip (tick env_aligned sample_cfg initial_state).2 = Some "198.51.100.9"
  /\ List.filter is_write (emitted (tick env_aligned sample_cfg) initial_state)
     = []
  /\ List.filter is_write
       (emitted (main_loop env_aligned sample_cfg 3) initial_state) = [].
Proof.
  pose proof (reconciliation_idempotent env_aligned sample_cfg "198.51.100.9")
    as [Htick Hloop].
  destruct (Htick initial_state
              (after initial_state
                 [Request (ip_request "https://api.ipify.org")])
              2 (JStr "abc") (JBool false)
              (after initial_state
                 [Request (ip_request "https://api.ipify.org");
                  Request (api_request (JStr "token") "GET"
                             (record_url (JStr "zone")
                                (JStr "home.example.org")) None)]))
    as (_ & Hlast & Hnone & _).
  - vm_compute. reflexivity.
  - vm_compute. reflexivity.
  - lia.
  - vm_compute. reflexivity.
  - reflexivity.
  - split; [exact Hlast|]. split; [exact Hnone|].
    apply Hloop; [apply env_aligned_resolves | apply env_aligned_provider].
Defined.



(** *** The validator, in full *)

(** X17. What the validator decides.  [is_valid_public_ipv4] never raises:
    the [int] conversions only see digits.  It returns [True] exactly on the
    dotted quads of decimal digits (of any script: [\d] and [int] take the
    decimal digits of Unicode), each group of one to three digits worth at
    most 255, outside the private and loopback ranges, and on those followed
    by one newline; on every other string it returns [False]. *)
Theorem validator_decides_public_quads s :
  (exists b, is_valid_public_ipv4 s = Ok b)
  /\ (is_valid_public_ipv4 s = Ok true <->
      exists ip tail,
        s = ip +:+ tail /\ (tail = "" \/ tail = newline) /\ public_quad ip).
Proof.
  split; [apply validator_total|]. rewrite validator_accepts_iff. split.
  - intros (a & b & c & d & tail & -> & Htail & Hrest).
    exists (a +:+ "." +:+ b +:+ "." +:+ c +:+ "." +:+ d), tail.
    split; [by rewrite !append_assoc|]. split; [done|].
    by exists a, b, c, d.
  - intros (ip & tail & -> & Htail & a & b & c & d & -> & Hrest).
    exists a, b, c, d, tail. split; [by rewrite !append_assoc|]. done.
Qed.

(* ================================================================== *)
(** ** The properties above, at sample inputs *)

Lemma load_config_defaults_witness :
  let cfg := <["telegram_chat_ids" := JArr []]>
               (fields minimal_file ∪ defaults) in
  load_config (Parsed (JObj minimal_file)) = Ok cfg
  /\ cfg !! "zone_id" = Some (JStr "zone")
  /\ cfg !! "max_retries" = Some (JInt 5).
Proof.
  intros cfg.
  assert (Hload : load_config (Parsed (JObj minimal_file)) = Ok cfg)
    by (vm_compute; reflexivity).
  destruct (load_config_defaults minimal_file cfg "zone_id" Hload)
    as (Hkey & _ & Hretries & _); [done|].
  split; [exact Hload|]. split; [exact Hkey | by apply Hretries].
Defined.

Lemma load_config_idempotent_witness :
  let cfg := <["telegram_chat_ids" := JArr []]>
               (fields minimal_file ∪ defaults) in
  load_config
    (Parsed (JObj [ ("log_level", JStr "INFO"); ("retry_delay", JInt 5);
                    ("max_retries", JInt 5); ("check_interval", JInt 30);
                    ("telegram_chat_ids", JArr []);
                    ("record_name", JStr "home.example.org");
                    ("zone_id", JStr "zone");
                    ("cloudflare_api_token", JStr "token") ]))
  = Ok cfg.
Proof.
  intros cfg.
  apply (load_config_idempotent (Parsed (JObj minimal_file)) cfg).
  - vm_compute. reflexivity.
  - vm_compute. reflexivity.
Defined.

Lemma non_string_log_level_is_fatal_witness :
  main env_drift (Parsed (JObj (minimal_file ++ [("log_level", JInt 3)]))) 1
  = (Raise AttributeError, initial_state).
Proof.
  apply (non_string_log_level_is_fatal env_drift _
           (<["telegram_chat_ids" := JArr []]>
              (fields (minimal_file ++ [("log_level", JInt 3)]) ∪ defaults))
           (JInt 3) 1).
  - vm_compute. reflexivity.
  - reflexivity.
  - intros name. discriminate.
Defined.

Lemma resolver_soundness_witness :
  exists k url resp text,
    methods !! k = Some url /\
    Forall unusable (take k (answers env_fallback 0 methods)) /\
    urlopen env_fallback (0 + k) (ip_request url) = Ok resp /\
    body_text resp = Ok text /\
    "203.0.113.5" = strip text /\
    public_quad "203.0.113.5" /\
    (get_current_ip env_fallback initial_state).2
    = after initial_state (Request ∘ ip_request <$> take (S k) methods).
Proof.
  apply (resolver_soundness env_fallback initial_state "203.0.113.5").
  vm_compute. reflexivity.
Defined.

Lemma read_returns_only_first_record_witness :
  exists token zone name resp d r rest,
    identity sample_cfg token zone name /\
    urlopen env_drift 0 (read_request token zone name) = Ok resp /\
    body_json resp = Ok (JObj d) /\
    truthy (dict_get (fields d) "success") = true /\
    fields d !! "result" = Some (JArr (JObj r :: rest)) /\
    fields r !! "id" = Some (JStr "abc") /\
    fields r !! "content" = Some (JStr "203.0.113.4") /\
    fields r !! "proxied" = Some (JBool true) /\
    (get_cloudflare_record env_drift sample_cfg initial_state).2
    = after initial_state [Request (read_request token zone name)].
Proof.
  apply (read_returns_only_first_record env_drift sample_cfg initial_state).
  vm_compute. reflexivity.
Defined.

Lemma every_write_is_a_validated_update_witness :
  exists token zone name id ip,
    identity sample_cfg token zone name /\
    public_quad ip /\
    write_request (JStr "token") (JStr "zone") (JStr "home.example.org")
      (JStr "abc") "203.0.113.5" false
    = write_request token zone name id ip false.
Proof.
  apply (every_write_is_a_validated_update env_drift sample_cfg 1
           initial_state).
  - apply (list_elem_of_lookup_2 _ 2%nat). vm_compute. reflexivity.
  - reflexivity.
Defined.

Lemma credentials_go_only_to_the_provider_witness :
  (exists token,
     sample_cfg !! "cloudflare_api_token" = Some token /\
     req_headers (read_request (JStr "token") (JStr "zone")
                    (JStr "home.example.org"))
     = api_headers token)
  /\ "Authorization"
     ∉ (req_headers (telegram_request (JStr "bot") (JInt 7)
                       (update_message (JStr "home.example.org")
                          "203.0.113.5"))).*1.
Proof.
  split.
  - apply (credentials_go_only_to_the_provider env_drift sample_cfg 1
             initial_state
             (read_request (JStr "token") (JStr "zone")
                (JStr "home.example.org"))).
    apply (list_elem_of_lookup_2 _ 1%nat). vm_compute. reflexivity.
  - apply (credentials_go_only_to_the_provider env_drift sample_cfg 1
             initial_state
             (telegram_request (JStr "bot") (JInt 7)
                (update_message (JStr "home.example.org") "203.0.113.5"))).
    apply (list_elem_of_lookup_2 _ 3%nat). vm_compute. reflexivity.
Defined.

Lemma notifications_are_configured_witness :
  exists targets chat_id name ip,
    truthy (dict_get sample_cfg "telegram_bot_token") = true /\
    targets_of sample_cfg = Ok targets /\ chat_id ∈ targets /\
    sample_cfg !! "record_name" = Some name /\ public_quad ip /\
    telegram_request (JStr "bot") (JInt 8)
      (update_message (JStr "home.example.org") "203.0.113.5")
    = telegram_request (dict_get sample_cfg "telegram_bot_token") chat_id
        (update_message name ip).
Proof.
  apply (notifications_are_configured env_drift sample_cfg 1 initial_state).
  - apply (list_elem_of_lookup_2 _ 4%nat). vm_compute. reflexivity.
  - reflexivity.
Defined.

Lemma notification_follows_a_write_witness :
  Exists (fun ev => is_write ev = true)
    [ Request (ip_request "https://api.ipify.org");
      Request (read_request (JStr "token") (JStr "zone")
                 (JStr "home.example.org"));
      Request (write_request (JStr "token") (JStr "zone")
                 (JStr "home.example.org") (JStr "abc") "203.0.113.5" false) ].
Proof.
  apply (notification_follows_a_write env_drift sample_cfg initial_state _
           (telegram_request (JStr "bot") (JInt 7)
              (update_message (JStr "home.example.org") "203.0.113.5"))
           [ Request (telegram_request (JStr "bot") (JInt 8)
                        (update_message (JStr "home.example.org")
                           "203.0.113.5"));
             Sleep (JInt 30) ]).
  - vm_compute. reflexivity.
  - reflexivity.
Defined.

Lemma provider_is_left_alone_once_settled_witness :
  let s := {| last_ip := Some "198.51.100.9"; trace := [] |} in
  last_ip (main_loop env_aligned sample_cfg 3 s).2 = Some "198.51.100.9"
  /\ List.filter is_provider_call (emitted (main_loop env_aligned sample_cfg 3) s)
     = [].
Proof.
  intros s.
  apply (provider_is_left_alone_once_settled env_aligned sample_cfg
           "198.51.100.9" 3 s).
  - apply env_aligned_resolves.
  - reflexivity.
Defined.

Lemma changed_address_reaches_the_provider_witness :
  exists later,
    trace (tick env_drift sample_cfg initial_state).2
    = trace (after initial_state
               [Request (ip_request "https://api.ipify.org")])
      ++ Request (read_request (JStr "token") (JStr "zone")
                    (JStr "home.example.org")) :: later.
Proof.
  apply (changed_address_reaches_the_provider env_drift sample_cfg
           initial_state "203.0.113.5" _ 2).
  - vm_compute. reflexivity.
  - reflexivity.
  - reflexivity.
  - lia.
  - by repeat split.
Defined.

Lemma retry_exhaustion_on_failed_reads_witness :
  guarded_body env_down sample_cfg initial_state
  = (Ok tt,
     after (after initial_state
              [Request (ip_request "https://api.ipify.org")])
       [ Request (read_request (JStr "token") (JStr "zone")
                    (JStr "home.example.org"));
         Sleep (JInt 5);
         Request (read_request (JStr "token") (JStr "zone")
                    (JStr "home.example.org")) ])
  /\ last_ip (tick env_down sample_cfg initial_state).2 = None.
Proof.
  apply (retry_exhaustion_on_failed_reads env_down sample_cfg
           (JStr "token") (JStr "zone") (JStr "home.example.org") (JInt 5) 2
           eq_refl eq_refl eq_refl eq_refl eq_refl eq_refl
           (fun _ => eq_refl) initial_state "203.0.113.5").
  - vm_compute. reflexivity.
  - reflexivity.
Defined.

Lemma tick_without_break_keeps_witness :
  last_ip (tick env_refused sample_cfg initial_state).2 = None
  /\ last_ip (tick env_down sample_cfg initial_state).2 = None
  /\ exists ip s1,
       get_current_ip env_drift initial_state = (Ok ip, s1) /\
       last_ip (tick env_drift sample_cfg initial_state).2 = Some ip.
Proof.
  split; [|split].
  - apply (proj1 (tick_without_break_keeps env_refused sample_cfg
                    initial_state)).
    vm_compute. reflexivity.
  - apply (proj1 (tick_without_break_keeps env_down sample_cfg initial_state)).
    vm_compute. reflexivity.
  - apply (proj2 (tick_without_break_keeps env_drift sample_cfg initial_state)).
    vm_compute. reflexivity.
Defined.
